(** * A parcel-locker station (postomat): shallow embedding and properties

    The development follows the Python sources under [src/lab1]:
    [Validator.py], [Person.py], [Parcel.py], [Locker.py], [Notification.py]
    and [Postomat.py].  Python objects that are shared by reference (parcels)
    live in an explicit object store; the wall clock and the random number
    generator are oracles that the code consumes one reading at a time. *)

From Stdlib Require Import ZArith NArith Ascii String.
From stdpp Require Import base option list gmap strings fin_maps relations.

Local Open Scope Z_scope.

(* ===================================================================== *)
(** * Enumerations (postomat.py, lines 49-73)                              *)
(* ===================================================================== *)

Inductive ParcelStatus := CREATED | IN_POSTOMAT | DELIVERED | EXPIRED.
Inductive ParcelSize := SMALL | MEDIUM | LARGE.

(** [SecurityLevel] is an [int] enum: LOW = 1, MEDIUM = 2, HIGH = 3. *)
Module SecurityLevel.
Inductive t := LOW | MEDIUM | HIGH.
Definition value (l : t) : Z :=
  match l with LOW => 1 | MEDIUM => 2 | HIGH => 3 end.
End SecurityLevel.

Inductive NotificationType := SMS | EMAIL.

Global Instance ParcelStatus_eq_dec : EqDecision ParcelStatus.
Proof. solve_decision. Defined.
Global Instance ParcelSize_eq_dec : EqDecision ParcelSize.
Proof. solve_decision. Defined.
Global Instance SecurityLevel_eq_dec : EqDecision SecurityLevel.t.
Proof. solve_decision. Defined.

(** The dictionary [size_order] that [Locker.put_parcel] and
    [Postomat.find_available_locker] both build. *)
Definition size_order (s : ParcelSize) : Z :=
  match s with SMALL => 1 | MEDIUM => 2 | LARGE => 3 end.

(** Instants are microseconds on the naive [datetime] time line;
    [timedelta(days=d)] is [d] days in the same unit. *)
Definition Time := Z.
Definition timedelta_days (d : Z) : Z := d * 86400000000.

(* ===================================================================== *)
(** * Validator.py: phone numbers                                          *)
(* ===================================================================== *)

(** Strings are sequences of code points below 256.  On that range the
    regular-expression class [\d] is exactly the ten ASCII digits and [\s]
    is the set listed in [is_space]. *)
Module Validator.

Definition BELARUSIAN_OPERATORS : list string := ["24"; "25"; "29"; "33"; "44"].

Definition is_digit (c : ascii) : bool :=
  let n := nat_of_ascii c in (48 <=? n)%nat && (n <=? 57)%nat.

Definition is_space (c : ascii) : bool :=
  let n := nat_of_ascii c in
  ((9 <=? n)%nat && (n <=? 13)%nat) || ((28 <=? n)%nat && (n <=? 32)%nat)
  || (n =? 133)%nat || (n =? 160)%nat.

(** The character class of [re.sub(r'[\s\-\(\)]', '', phone)]. *)
Definition is_separator (c : ascii) : bool :=
  is_space c || Ascii.eqb c "-" || Ascii.eqb c "(" || Ascii.eqb c ")".

Fixpoint remove_separators (s : string) : string :=
  match s with
  | EmptyString => EmptyString
  | String c s' =>
      if is_separator c then remove_separators s'
      else String c (remove_separators s')
  end.

Fixpoint strip_literal (lit s : string) : option string :=
  match lit with
  | EmptyString => Some s
  | String a lit' =>
      match s with
      | String b s' => if Ascii.eqb a b then strip_literal lit' s' else None
      | EmptyString => None
      end
  end.

Fixpoint strip_digits (n : nat) (s : string) : option string :=
  match n with
  | O => Some s
  | S n' =>
      match s with
      | String c s' => if is_digit c then strip_digits n' s' else None
      | EmptyString => None
      end
  end.

(** [$] matches at the end of the string and just before a final newline. *)
Definition at_dollar (s : string) : bool :=
  match s with
  | EmptyString => true
  | String c EmptyString => Ascii.eqb c "010"
  | _ => false
  end.

(** [re.match(r'^<lit>\d{n}$', s)] for a literal prefix [lit]. *)
Definition re_match_lit_digits (lit : string) (n : nat) (s : string) : bool :=
  match strip_literal lit s with
  | Some r => match strip_digits n r with
              | Some r' => at_dollar r'
              | None => false
              end
  | None => false
  end.

(** Python slices [s[i:]] and [s[i:j]]. *)
Fixpoint slice_from (i : nat) (s : string) : string :=
  match i, s with
  | O, _ => s
  | S i', String _ s' => slice_from i' s'
  | S _, EmptyString => EmptyString
  end.

Fixpoint slice_to (j : nat) (s : string) : string :=
  match j, s with
  | O, _ => EmptyString
  | S j', String c s' => String c (slice_to j' s')
  | S _, EmptyString => EmptyString
  end.

Definition slice (i j : nat) (s : string) : string := slice_from i (slice_to j s).

Definition is_operator (code : string) : bool :=
  bool_decide (code ∈ BELARUSIAN_OPERATORS).

(** The branch cascade of [validate_phone]: [None] is an early
    [return False], [Some check_phone] carries on to the final check. *)
Definition phone_to_check (cleaned : string) : option string :=
  if re_match_lit_digits "+375" 9 cleaned then Some cleaned
  else if re_match_lit_digits "80" 9 cleaned then
    let operator_code := slice 2 4 cleaned in
    if negb (is_operator operator_code) then None
    else Some ("+375" +:+ slice_from 2 cleaned)
  else if re_match_lit_digits "375" 9 cleaned then
    let operator_code := slice 3 5 cleaned in
    if negb (is_operator operator_code) then None
    else Some ("+" +:+ cleaned)
  else if re_match_lit_digits "8" 9 cleaned && (String.length cleaned =? 10)%nat then
    let operator_code := slice 1 3 cleaned in
    if negb (is_operator operator_code) then None
    else Some ("+375" +:+ slice_from 1 cleaned)
  else None.

Definition validate_phone (phone : string) : bool :=
  let cleaned := remove_separators phone in
  match phone_to_check cleaned with
  | None => false
  | Some check_phone =>
      if negb (re_match_lit_digits "+375" 9 check_phone) then false else true
  end.

Definition normalize_phone (phone : string) : string :=
  let cleaned := remove_separators phone in
  if re_match_lit_digits "+375" 9 cleaned then cleaned
  else if re_match_lit_digits "80" 9 cleaned then "+375" +:+ slice_from 2 cleaned
  else if re_match_lit_digits "8" 9 cleaned && (String.length cleaned =? 10)%nat
       then "+375" +:+ slice_from 1 cleaned
  else if re_match_lit_digits "375" 9 cleaned then "+" +:+ cleaned
  else cleaned.


(** The operator code of a canonical number: its two digits after [+375]. *)
Definition operator_code_of (canonical_phone : string) : string :=
  slice 4 6 canonical_phone.


(** ** Tracking codes and addresses *)

(** [str.strip()]: the characters of [str.isspace] are those of [\s]. *)
Fixpoint lstrip (s : string) : string :=
  match s with
  | String c s' => if is_space c then lstrip s' else s
  | EmptyString => EmptyString
  end.

Fixpoint rstrip (s : string) : string :=
  match s with
  | EmptyString => EmptyString
  | String c s' =>
      match rstrip s' with
      | EmptyString => if is_space c then EmptyString else String c EmptyString
      | r => String c r
      end
  end.

Definition strip (s : string) : string := rstrip (lstrip s).

(** The character tests of [str.isalpha], [str.isupper] and [str.isdigit]
    on the code points below 256: letters are the ASCII letters, the two
    ordinal indicators, the micro sign and the accented letters; the
    lowercase ones are [a-z], the indicators, the micro sign and
    [0xDF-0xFF] without the division sign; the uppercase ones are [A-Z] and
    [0xC0-0xDE] without the multiplication sign; digits are [0-9] and the
    superscripts one, two and three. *)
Definition between (lo hi : nat) (c : ascii) : bool :=
  let n := nat_of_ascii c in (lo <=? n)%nat && (n <=? hi)%nat.

Definition is_alpha (c : ascii) : bool :=
  between 65 90 c || between 97 122 c || between 170 170 c || between 181 181 c
  || between 186 186 c || between 192 214 c || between 216 246 c || between 248 255 c.

Definition is_lower (c : ascii) : bool :=
  between 97 122 c || between 170 170 c || between 181 181 c || between 186 186 c
  || between 223 246 c || between 248 255 c.

Definition is_upper (c : ascii) : bool :=
  between 65 90 c || between 192 214 c || between 216 222 c.

Definition is_unicode_digit (c : ascii) : bool :=
  between 48 57 c || between 178 179 c || between 185 185 c.

Fixpoint all_of (P : ascii → bool) (s : string) : bool :=
  match s with
  | EmptyString => true
  | String c s' => P c && all_of P s'
  end.

Fixpoint any_of (P : ascii → bool) (s : string) : bool :=
  match s with
  | EmptyString => false
  | String c s' => P c || any_of P s'
  end.

Definition nonempty (s : string) : bool :=
  match s with EmptyString => false | _ => true end.

(** [s.isalpha()] and [s.isdigit()]: every character, and at least one. *)
Definition isalpha (s : string) : bool := nonempty s && all_of is_alpha s.
Definition isdigit (s : string) : bool := nonempty s && all_of is_unicode_digit s.

(** [s.isupper()]: no lowercase character and at least one uppercase one. *)
Definition isupper (s : string) : bool :=
  all_of (λ c, negb (is_lower c)) s && any_of is_upper s.

Definition validate_tracking (tracking : string) : bool :=
  if negb (nonempty tracking) then false
  else
    let tracking := strip tracking in
    if (String.length tracking <? 8)%nat then false
    else
      let letters_part := slice_to 3 tracking in
      let digits_part := slice_from 3 tracking in
      if negb (isalpha letters_part) || negb (isupper letters_part) then false
      else if negb (isdigit digits_part) then false
      else if (String.length digits_part <? 5)%nat || (15 <? String.length digits_part)%nat
      then false
      else true.

Definition validate_address (address : string) : bool :=
  let address := strip address in
  if (String.length address <? 5)%nat then false
  else if isdigit address then false
  else true.

End Validator.

(* ===================================================================== *)
(** * Texts, exceptions and the object model                               *)
(* ===================================================================== *)

(** A parcel object is known by its address in the object store. *)
Definition ref := nat.

(** The messages the code builds with f-strings, one constructor per
    template; the arguments are the interpolated values. *)
Inductive Text :=
| T_station_locked                 (* gate: the station is locked for security reasons *)
| T_suspicious_blocked             (* gate: suspicious activity, operation blocked *)
| T_ok                             (* gate: "OK" *)
| T_not_working                    (* the station is temporarily out of service *)
| T_duplicate (tracking : string)  (* parcel already in the station *)
| T_no_locker                      (* no free locker of a suitable size *)
| T_sent (tracking : string) (locker : Z)
| T_locker_error (e : Text)        (* "locker error: {e}" *)
| T_system_error (e : Text)        (* "system error: {e}" *)
| T_arrived (tracking : string) (address : string) (locker : Z)
| T_not_found (tracking : string)
| T_no_rights                      (* no right to receive this parcel *)
| T_not_ready (status : ParcelStatus)
| T_storage_expired
| T_locker_not_found
| T_received (tracking : string)
| T_receive_error (e : Text)       (* "error while receiving: {e}" *)
| T_reminder (tracking : string)
| T_notified (name : string)
| T_notify_failed
| T_not_collected (tracking : string)
| T_locker_broken (number : Z)     (* LockerError: locker out of order *)
| T_locker_occupied (number : Z)   (* LockerError: locker already occupied *)
| T_too_big (number : Z)           (* LockerError: parcel too big for the locker *)
| T_locker_empty (number : Z)      (* LockerError: locker is empty *)
| T_technician_required            (* ValueError of perform_maintenance *)
| T_id_address_required            (* ValueError of the constructor *)
| T_lockers_positive               (* ValueError of the constructor *)
| T_was_broken (number : Z)
| T_repaired (number : Z)
| T_needs_replacement (number : Z)
| T_nothing_to_break
| T_broken (number : Z)
| T_alert_unauthorized (tracking : string)
| T_alert_suspicious (user : string) (count : Z)
| T_alert_manual (number : Z)
| T_security_reset
| T_none_has_no_attribute          (* AttributeError on None *)
| T_notification_failed            (* NotificationError of Notification.send *)
| T_empty_sequence                 (* IndexError of random.choice *)
| T_custom (s : string).           (* a message supplied by the caller *)

Inductive Exn :=
| LockerError (msg : Text)
| ValueError (msg : Text)
| AttributeError (msg : Text)
| IndexError (msg : Text)
| NotificationError (msg : Text).

Definition exn_text (e : Exn) : Text :=
  match e with
  | LockerError m | ValueError m | AttributeError m | IndexError m
  | NotificationError m => m
  end.

Module Person.
Record t := mk { name : string; phone : string; email : string; id : string }.

(** [_generate_id]: the first ten hexadecimal digits of the MD5 digest of
    name, phone and email concatenated; the digest function is a parameter. *)
Definition _generate_id (md5_hexdigest : string → string)
    (name phone email : string) : string :=
  Validator.slice_to 10 (md5_hexdigest (name +:+ phone +:+ email)).
End Person.

Module Sender.
Record t := mk { person : Person.t; address : string }.
End Sender.

Module Parcel.
Record t := mk {
  tracking_number : string;
  sender : Sender.t;
  recipient : Person.t;
  size : ParcelSize;
  description : string;
  status : ParcelStatus;
  created_at : Time;
  placed_at : option Time;
  delivered_at : option Time;
  locker_number : option Z;
  storage_days : Z;
  storage_until : option Time
}.

Definition set_status (v : ParcelStatus) (p : t) : t :=
  mk (tracking_number p) (sender p) (recipient p) (size p) (description p) v
     (created_at p) (placed_at p) (delivered_at p) (locker_number p)
     (storage_days p) (storage_until p).
Definition set_placed_at (v : option Time) (p : t) : t :=
  mk (tracking_number p) (sender p) (recipient p) (size p) (description p)
     (status p) (created_at p) v (delivered_at p) (locker_number p)
     (storage_days p) (storage_until p).
Definition set_delivered_at (v : option Time) (p : t) : t :=
  mk (tracking_number p) (sender p) (recipient p) (size p) (description p)
     (status p) (created_at p) (placed_at p) v (locker_number p)
     (storage_days p) (storage_until p).
Definition set_locker_number (v : option Z) (p : t) : t :=
  mk (tracking_number p) (sender p) (recipient p) (size p) (description p)
     (status p) (created_at p) (placed_at p) (delivered_at p) v
     (storage_days p) (storage_until p).
Definition set_storage_until (v : option Time) (p : t) : t :=
  mk (tracking_number p) (sender p) (recipient p) (size p) (description p)
     (status p) (created_at p) (placed_at p) (delivered_at p) (locker_number p)
     (storage_days p) v.

(** The attribute assignments at the end of [__init__]. *)
Definition init (tracking : string) (sender : Sender.t) (recipient : Person.t)
    (size : ParcelSize) (description : string) (now : Time) : t :=
  mk tracking sender recipient size description CREATED now None None None 3 None.
End Parcel.
Global Arguments Parcel.set_status _ _ /.
Global Arguments Parcel.set_placed_at _ _ /.
Global Arguments Parcel.set_delivered_at _ _ /.
Global Arguments Parcel.set_locker_number _ _ /.
Global Arguments Parcel.set_storage_until _ _ /.

Module Locker.
Record t := mk {
  number : Z;
  size : ParcelSize;
  is_occupied : bool;
  is_functional : bool;
  current_parcel : option ref;
  last_maintenance : option Time
}.

Definition init (number : Z) (size : ParcelSize) : t :=
  mk number size false true None None.

Definition set_number (v : Z) (l : t) : t :=
  mk v (size l) (is_occupied l) (is_functional l) (current_parcel l) (last_maintenance l).
Definition set_is_occupied (v : bool) (l : t) : t :=
  mk (number l) (size l) v (is_functional l) (current_parcel l) (last_maintenance l).
Definition set_is_functional (v : bool) (l : t) : t :=
  mk (number l) (size l) (is_occupied l) v (current_parcel l) (last_maintenance l).
Definition set_current_parcel (v : option ref) (l : t) : t :=
  mk (number l) (size l) (is_occupied l) (is_functional l) v (last_maintenance l).
Definition set_last_maintenance (v : option Time) (l : t) : t :=
  mk (number l) (size l) (is_occupied l) (is_functional l) (current_parcel l) v.
End Locker.
Global Arguments Locker.set_number _ _ /.
Global Arguments Locker.set_is_occupied _ _ /.
Global Arguments Locker.set_is_functional _ _ /.
Global Arguments Locker.set_current_parcel _ _ /.
Global Arguments Locker.set_last_maintenance _ _ /.

Module Notification.
Record t := mk {
  recipient : Person.t;
  parcel : ref;
  message : Text;
  type : NotificationType;
  created_at : Time;
  sent_at : option Time;
  is_sent : bool;
  attempts : Z
}.
End Notification.

(** An entry of [security_alerts]. *)
Module Alert.
Record t := mk { timestamp : Time; type : string; description : Text }.
End Alert.

(** The report dictionary of [perform_maintenance]. *)
Module Report.
Record t := mk {
  timestamp : Time;
  technician : string;
  lockers_checked : Z;
  broken_before : Z;
  broken_after : Z;
  lockers_repaired : Z;
  failed_repairs : Z;
  issues : list Text
}.
Definition set_broken_after (v : Z) (r : t) : t :=
  mk (timestamp r) (technician r) (lockers_checked r) (broken_before r) v
     (lockers_repaired r) (failed_repairs r) (issues r).
Definition set_lockers_repaired (v : Z) (r : t) : t :=
  mk (timestamp r) (technician r) (lockers_checked r) (broken_before r)
     (broken_after r) v (failed_repairs r) (issues r).
Definition set_failed_repairs (v : Z) (r : t) : t :=
  mk (timestamp r) (technician r) (lockers_checked r) (broken_before r)
     (broken_after r) (lockers_repaired r) v (issues r).
Definition add_issue (v : Text) (r : t) : t :=
  mk (timestamp r) (technician r) (lockers_checked r) (broken_before r)
     (broken_after r) (lockers_repaired r) (failed_repairs r) (issues r ++ [v]).
End Report.
Global Arguments Report.set_broken_after _ _ /.
Global Arguments Report.set_lockers_repaired _ _ /.
Global Arguments Report.set_failed_repairs _ _ /.
Global Arguments Report.add_issue _ _ /.

(** ** Insertion-ordered dictionaries keyed by strings

    [Postomat.parcels] is iterated by [check_expired_parcels], so the order
    of insertion is kept. *)
Abbreviation dict V := (list (string * V)) (only parsing).

Fixpoint dict_get {V} (k : string) (d : dict V) : option V :=
  match d with
  | [] => None
  | (k', v) :: d' => if decide (k' = k) then Some v else dict_get k d'
  end.

Fixpoint dict_set {V} (k : string) (v : V) (d : dict V) : dict V :=
  match d with
  | [] => [(k, v)]
  | (k', v') :: d' =>
      if decide (k' = k) then (k', v) :: d' else (k', v') :: dict_set k v d'
  end.

Definition dict_del {V} (k : string) (d : dict V) : dict V :=
  filter (λ kv, kv.1 ≠ k) d.

Module Postomat.
Record t := mk {
  id : string;
  address : string;
  total_lockers : Z;
  security_level : SecurityLevel.t;
  is_operational : bool;
  security_alerts : list Alert.t;
  user_operations : gmap string Z;
  lockers : list Locker.t;
  parcels : dict ref;
  notifications : list Notification.t;
  maintenance_log : list Report.t
}.

Definition set_is_operational (v : bool) (s : t) : t :=
  mk (id s) (address s) (total_lockers s) (security_level s) v
     (security_alerts s) (user_operations s) (lockers s) (parcels s)
     (notifications s) (maintenance_log s).
Definition set_security_alerts (v : list Alert.t) (s : t) : t :=
  mk (id s) (address s) (total_lockers s) (security_level s) (is_operational s)
     v (user_operations s) (lockers s) (parcels s)
     (notifications s) (maintenance_log s).
Definition set_user_operations (v : gmap string Z) (s : t) : t :=
  mk (id s) (address s) (total_lockers s) (security_level s) (is_operational s)
     (security_alerts s) v (lockers s) (parcels s)
     (notifications s) (maintenance_log s).
Definition set_lockers (v : list Locker.t) (s : t) : t :=
  mk (id s) (address s) (total_lockers s) (security_level s) (is_operational s)
     (security_alerts s) (user_operations s) v (parcels s)
     (notifications s) (maintenance_log s).
Definition set_parcels (v : dict ref) (s : t) : t :=
  mk (id s) (address s) (total_lockers s) (security_level s) (is_operational s)
     (security_alerts s) (user_operations s) (lockers s) v
     (notifications s) (maintenance_log s).
Definition set_notifications (v : list Notification.t) (s : t) : t :=
  mk (id s) (address s) (total_lockers s) (security_level s) (is_operational s)
     (security_alerts s) (user_operations s) (lockers s) (parcels s)
     v (maintenance_log s).
Definition set_maintenance_log (v : list Report.t) (s : t) : t :=
  mk (id s) (address s) (total_lockers s) (security_level s) (is_operational s)
     (security_alerts s) (user_operations s) (lockers s) (parcels s)
     (notifications s) v.
End Postomat.
Global Arguments Postomat.set_is_operational _ _ /.
Global Arguments Postomat.set_security_alerts _ _ /.
Global Arguments Postomat.set_user_operations _ _ /.
Global Arguments Postomat.set_lockers _ _ /.
Global Arguments Postomat.set_parcels _ _ /.
Global Arguments Postomat.set_notifications _ _ /.
Global Arguments Postomat.set_maintenance_log _ _ /.

(* ===================================================================== *)
(** * Executions: a state-and-exception monad over the world               *)
(* ===================================================================== *)

(** The world is the object store of parcels, the one station, and how many
    readings of the clock and of the random generator were taken so far. *)
Record World := mkWorld {
  heap : gmap ref Parcel.t;
  station : Postomat.t;
  clock_reads : nat;
  random_calls : nat
}.

(** [Return] and [Raise] are Python's two ways out of a call.  [Wrong] marks
    a call on a reference that denotes no object, which no Python caller can
    produce; no handler catches it. *)
Inductive Outcome (A : Type) :=
| Return (a : A)
| Raise (e : Exn)
| Wrong.
Arguments Return {A} a.
Arguments Raise {A} e.
Arguments Wrong {A}.

Definition M (A : Type) : Type := World → Outcome A * World.

Global Instance M_ret : MRet M := λ A a w, (Return a, w).
Global Instance M_bind : MBind M := λ A B f m w,
  match m w with
  | (Return a, w') => f a w'
  | (Raise e, w') => (Raise e, w')
  | (Wrong, w') => (Wrong, w')
  end.

Definition raise {A} (e : Exn) : M A := λ w, (Raise e, w).
Definition wrong {A} : M A := λ w, (Wrong, w).

(** [try: body except ... as e: handler e]; a handler re-raises what its
    [except] clauses do not name. *)
Definition try_except {A} (body : M A) (handler : Exn → M A) : M A := λ w,
  match body w with
  | (Raise e, w') => handler e w'
  | r => r
  end.

Definition get_station : M Postomat.t := λ w, (Return (station w), w).
Definition modify_station (f : Postomat.t → Postomat.t) : M unit := λ w,
  (Return tt, mkWorld (heap w) (f (station w)) (clock_reads w) (random_calls w)).

(** Reading and writing the attributes of a parcel object. *)
Definition load (r : ref) : M Parcel.t := λ w,
  match heap w !! r with
  | Some p => (Return p, w)
  | None => (Wrong, w)
  end.
Definition store (r : ref) (p : Parcel.t) : M unit := λ w,
  (Return tt, mkWorld (<[r := p]> (heap w)) (station w) (clock_reads w) (random_calls w)).

(** A new parcel object, at an address not in use. *)
Definition allocate (p : Parcel.t) : M ref := λ w,
  let r := fresh (dom (heap w)) in
  (Return r, mkWorld (<[r := p]> (heap w)) (station w) (clock_reads w) (random_calls w)).

(** A locker object is known by its position in [Postomat.lockers]; the list
    is built once by the constructor and never resized. *)
Definition get_locker (i : nat) : M Locker.t := λ w,
  match Postomat.lockers (station w) !! i with
  | Some l => (Return l, w)
  | None => (Wrong, w)
  end.
Definition put_locker (i : nat) (l : Locker.t) : M unit :=
  modify_station (λ s, Postomat.set_lockers (<[i := l]> (Postomat.lockers s)) s).

(** [random.random() < 0.85]: the generator returns [k / 2^53]; the double
    nearest to 0.85 is [7656119366529843 / 2^53]. *)
Definition repair_threshold : N := 7656119366529843.

Definition len {A} (l : list A) : Z := Z.of_nat (length l).

(** The positions of the lockers that satisfy [P], in bank order. *)
Definition lockers_where (P : Locker.t → bool) (ls : list Locker.t) : list nat :=
  filter (λ i, Is_true (from_option P false (ls !! i))) (seq 0 (length ls)).

Definition is_broken (l : Locker.t) : bool := negb (Locker.is_functional l).

(** The argument of [Parcel(...)] that [__init__] does not compute. *)
Record ParcelArgs := mkParcelArgs {
  arg_sender : Sender.t;
  arg_recipient : Person.t;
  arg_size : ParcelSize;
  arg_description : string
}.

(** [Postomat(postomat_id, address, total_lockers, security_level)].
    [_create_lockers] builds [total_lockers] lockers of the three sizes,
    shuffles them and renumbers them from 1 in the shuffled order; [bank] is
    the sequence of sizes after the shuffle. *)
Definition _create_lockers (bank : list ParcelSize) : list Locker.t :=
  imap (λ i size, Locker.init (Z.of_nat (S i)) size) bank.

Definition Postomat_init (postomat_id address : string) (total_lockers : Z)
    (security_level : SecurityLevel.t) (bank : list ParcelSize) : Exn + Postomat.t :=
  if bool_decide (postomat_id = "") || bool_decide (address = "")
  then inl (ValueError T_id_address_required)
  else if total_lockers <=? 0 then inl (ValueError T_lockers_positive)
  else inr (Postomat.mk postomat_id address total_lockers security_level true []
              ∅ (_create_lockers bank) [] [] []).

(** ** The read-only reports of the station *)

(** [security_level.name]. *)
Definition SecurityLevel_name (l : SecurityLevel.t) : string :=
  match l with
  | SecurityLevel.LOW => "LOW"
  | SecurityLevel.MEDIUM => "MEDIUM"
  | SecurityLevel.HIGH => "HIGH"
  end.

(** The two texts of the key [status]. *)
Inductive StatusText := T_works | T_blocked.

Module Statistics.
Record t := mk {
  id : string;
  address : string;
  status : StatusText;
  security_level : string;
  total_lockers : Z;
  occupied_lockers : Z;
  free_lockers : Z;
  functional_lockers : Z;
  broken_lockers : Z;
  active_parcels : Z;
  total_notifications : Z;
  security_alerts : Z;
  total_user_operations : Z
}.
End Statistics.

Module SecurityStatus.
Record t := mk {
  level : string;
  is_operational : bool;
  alerts_count : Z;
  total_user_operations : Z;
  active_users : Z;
  recent_alerts : list Alert.t
}.
End SecurityStatus.

(** [sum(self.user_operations.values())]. *)
Definition sum_values (m : gmap string Z) : Z := map_fold (λ _ v acc, v + acc) 0 m.

(** [seq[-n:]]. *)
Definition last_n {A} (n : nat) (l : list A) : list A := drop (length l - n) l.

Definition get_security_status (self : Postomat.t) : SecurityStatus.t :=
  SecurityStatus.mk
    (SecurityLevel_name (Postomat.security_level self))
    (Postomat.is_operational self)
    (len (Postomat.security_alerts self))
    (sum_values (Postomat.user_operations self))
    (Z.of_nat (size (Postomat.user_operations self)))
    (match Postomat.security_alerts self with
     | [] => []
     | _ => last_n 5 (Postomat.security_alerts self)
     end).


Section Execution.

(** [clock k] is the k-th value returned by [datetime.now()], [rng k] the
    k-th raw value of the random generator, [md5_hexdigest] the digest of
    [hashlib]. *)
Context (clock : nat → Time) (rng : nat → N) (md5_hexdigest : string → string).

Definition now : M Time := λ w,
  (Return (clock (clock_reads w)),
   mkWorld (heap w) (station w) (S (clock_reads w)) (random_calls w)).

(** [random.random()], as the numerator of a fraction of [2^53]. *)
Definition random_random : M N := λ w,
  (Return (rng (random_calls w)),
   mkWorld (heap w) (station w) (clock_reads w) (S (random_calls w))).

(** [random.choice(seq)]: [IndexError] on an empty sequence, else the
    element at a position below the length. *)
Definition random_choice (seq : list nat) : M nat :=
  match seq with
  | [] => raise (IndexError T_empty_sequence)
  | _ =>
      x ← random_random;
      match seq !! N.to_nat (x mod N.of_nat (length seq)) with
      | Some e => mret e
      | None => wrong
      end
  end.

(** ** Parcel.py *)

Definition place_in_locker (self : ref) (locker_number : Z) : M unit :=
  p ← load self;
  t1 ← now;
  t2 ← now;
  store self
    (Parcel.set_storage_until (Some (t2 + timedelta_days (Parcel.storage_days p)))
       (Parcel.set_locker_number (Some locker_number)
          (Parcel.set_placed_at (Some t1)
             (Parcel.set_status IN_POSTOMAT p)))).

Definition deliver (self : ref) : M unit :=
  p ← load self;
  t ← now;
  store self (Parcel.set_delivered_at (Some t) (Parcel.set_status DELIVERED p)).

Definition is_expired (self : ref) : M bool :=
  p ← load self;
  match Parcel.storage_until p with
  | None => mret false
  | Some storage_until => t ← now; mret (t >? storage_until)
  end.

(** [Parcel(...)] once the arguments passed validation and a tracking code
    was drawn: a new object in state CREATED. *)
Definition new_parcel (tracking : string) (a : ParcelArgs) : M ref :=
  t ← now;
  allocate (Parcel.init tracking (arg_sender a) (arg_recipient a)
              (arg_size a) (arg_description a) t).

(** ** Locker.py: [self] is the position of the locker in the bank *)

Definition open (self : nat) : M bool :=
  l ← get_locker self;
  if negb (Locker.is_functional l)
  then raise (LockerError (T_locker_broken (Locker.number l)))
  else mret true.

Definition close (self : nat) : M bool := mret true.

Definition put_parcel (self : nat) (parcel : ref) : M bool :=
  l ← get_locker self;
  if negb (Locker.is_functional l)
  then raise (LockerError (T_locker_broken (Locker.number l)))
  else if Locker.is_occupied l
  then raise (LockerError (T_locker_occupied (Locker.number l)))
  else
    p ← load parcel;
    if size_order (Parcel.size p) >? size_order (Locker.size l)
    then raise (LockerError (T_too_big (Locker.number l)))
    else
      put_locker self (Locker.set_current_parcel (Some parcel)
                         (Locker.set_is_occupied true l));;
      place_in_locker parcel (Locker.number l);;
      mret true.

Definition take_parcel (self : nat) : M (option ref) :=
  l ← get_locker self;
  if negb (Locker.is_functional l)
  then raise (LockerError (T_locker_broken (Locker.number l)))
  else if negb (Locker.is_occupied l)
  then raise (LockerError (T_locker_empty (Locker.number l)))
  else
    let parcel := Locker.current_parcel l in
    put_locker self (Locker.set_current_parcel None
                       (Locker.set_is_occupied false l));;
    mret parcel.

Definition repair (self : nat) : M bool :=
  l ← get_locker self;
  t ← now;
  put_locker self (Locker.set_last_maintenance (Some t)
                     (Locker.set_is_functional true l));;
  mret true.

(** ** Postomat.py *)

(** The test of the loop of [find_available_locker]. *)
Definition available_for (min_required_size : Z) (locker : Locker.t) : Prop :=
  Locker.is_occupied locker = false ∧ Locker.is_functional locker = true ∧
  min_required_size ≤ size_order (Locker.size locker).

Global Instance available_for_dec m l : Decision (available_for m l).
Proof. unfold available_for. apply _. Defined.

Definition find_available_locker (self : Postomat.t) (required_size : ParcelSize)
    : option nat :=
  let min_required_size := size_order required_size in
  fst <$> list_find (available_for min_required_size) (Postomat.lockers self).

Definition _log_security_alert (alert_type : string) (description : Text) : M unit :=
  t ← now;
  modify_station (λ s,
    Postomat.set_security_alerts
      (Postomat.security_alerts s ++ [Alert.mk t alert_type description]) s);;
  self ← get_station;
  if bool_decide (Postomat.security_level self = SecurityLevel.HIGH)
     && bool_decide (alert_type ∈ ["unauthorized_access"; "suspicious_activity"])
  then modify_station (Postomat.set_is_operational false)
  else mret tt.

Definition _check_security (user_id : string) (operation : string) : M (bool * Text) :=
  self ← get_station;
  if negb (Postomat.is_operational self) then mret (false, T_station_locked)
  else
    let count := default 0 (Postomat.user_operations self !! user_id) + 1 in
    modify_station (λ s,
      Postomat.set_user_operations (<[user_id := count]> (Postomat.user_operations s)) s);;
    if count >? 50 then
      _log_security_alert "suspicious_activity" (T_alert_suspicious user_id count);;
      self ← get_station;
      if bool_decide (Postomat.security_level self = SecurityLevel.HIGH)
      then mret (false, T_suspicious_blocked)
      else mret (true, T_ok)
    else mret (true, T_ok).

(** [Notification.send]: [time.sleep] does not raise. *)
Definition Notification_send (self : Notification.t) : M (bool * Notification.t) :=
  let attempts := Notification.attempts self + 1 in
  try_except
    (t ← now;
     mret (true, Notification.mk (Notification.recipient self) (Notification.parcel self)
                   (Notification.message self) (Notification.type self)
                   (Notification.created_at self) (Some t) true attempts))
    (λ _, raise (NotificationError T_notification_failed)).

Definition _notify_recipient (recipient : Person.t) (parcel : ref) (message : Text)
    : M (option Notification.t) :=
  try_except
    (t ← now;
     let notification := Notification.mk recipient parcel message SMS t None false 0 in
     '(_, notification) ← Notification_send notification;
     modify_station (λ s,
       Postomat.set_notifications (Postomat.notifications s ++ [notification]) s);;
     mret (Some notification))
    (λ e, match e with
          | NotificationError _ => mret None
          | _ => raise e
          end).

(** The [try] block of [send_parcel] on the locker found by the scan. *)
Definition send_into (locker : nat) (parcel : ref) : M (bool * Text) :=
  try_except
    (put_parcel locker parcel;;
     p ← load parcel;
     modify_station (λ s,
       Postomat.set_parcels (dict_set (Parcel.tracking_number p) parcel (Postomat.parcels s)) s);;
     self ← get_station;
     l ← get_locker locker;
     _notify_recipient (Parcel.recipient p) parcel
       (T_arrived (Parcel.tracking_number p) (Postomat.address self) (Locker.number l));;
     mret (true, T_sent (Parcel.tracking_number p) (Locker.number l)))
    (λ e, match e with
          | LockerError m => mret (false, T_locker_error m)
          | _ => mret (false, T_system_error (exn_text e))
          end).

Definition send_parcel (parcel : ref) (user_id : string) : M (bool * Text) :=
  security_check ← _check_security user_id "send";
  if negb security_check.1 then mret (false, security_check.2)
  else
    self ← get_station;
    if negb (Postomat.is_operational self) then mret (false, T_not_working)
    else
      p ← load parcel;
      if bool_decide (is_Some (dict_get (Parcel.tracking_number p) (Postomat.parcels self)))
      then mret (false, T_duplicate (Parcel.tracking_number p))
      else
        match find_available_locker self (Parcel.size p) with
        | None => mret (false, T_no_locker)
        | Some locker => send_into locker parcel
        end.

(** The loop of [receive_parcel] that looks the locker up by its number. *)
Definition find_locker_by_number (self : Postomat.t) (locker_number : option Z)
    : option nat :=
  fst <$> list_find (λ l, Some (Locker.number l) = locker_number) (Postomat.lockers self).

(** The [try] block of [receive_parcel]. *)
Definition receive_from (locker : nat) (tracking_number : string)
    : M (bool * Text * option ref) :=
  try_except
    (open locker;;
     received_parcel ← take_parcel locker;
     close locker;;
     match received_parcel with
     | Some rp => deliver rp
     | None => raise (AttributeError T_none_has_no_attribute)
     end;;
     modify_station (λ s,
       Postomat.set_parcels (dict_del tracking_number (Postomat.parcels s)) s);;
     mret (true, T_received tracking_number, received_parcel))
    (λ e, match e with
          | LockerError m => mret (false, T_receive_error m, None)
          | _ => raise e
          end).

Definition receive_parcel (tracking_number : string) (recipient : Person.t)
    (user_id : string) : M (bool * Text * option ref) :=
  security_check ← _check_security user_id "receive";
  if negb security_check.1 then mret (false, security_check.2, None)
  else
    self ← get_station;
    if negb (Postomat.is_operational self) then mret (false, T_not_working, None)
    else
      match dict_get tracking_number (Postomat.parcels self) with
      | None => mret (false, T_not_found tracking_number, None)
      | Some parcel =>
          p ← load parcel;
          if bool_decide (Person.id (Parcel.recipient p) ≠ Person.id recipient) then
            _log_security_alert "unauthorized_access" (T_alert_unauthorized tracking_number);;
            mret (false, T_no_rights, None)
          else if bool_decide (Parcel.status p ≠ IN_POSTOMAT) then
            mret (false, T_not_ready (Parcel.status p), None)
          else
            expired ← is_expired parcel;
            if expired : bool then
              p ← load parcel;
              store parcel (Parcel.set_status EXPIRED p);;
              mret (false, T_storage_expired, None)
            else
              self ← get_station;
              match find_locker_by_number self (Parcel.locker_number p) with
              | None => mret (false, T_locker_not_found, None)
              | Some locker => receive_from locker tracking_number
              end
      end.

Definition notify_recipient (tracking_number : string) (custom_message : string)
    (user_id : string) : M (bool * Text) :=
  security_check ← _check_security user_id "notify";
  if negb security_check.1 then mret (false, security_check.2)
  else
    self ← get_station;
    match dict_get tracking_number (Postomat.parcels self) with
    | None => mret (false, T_not_found tracking_number)
    | Some parcel =>
        p ← load parcel;
        let message := if bool_decide (custom_message = "")
                       then T_reminder tracking_number else T_custom custom_message in
        notification ← _notify_recipient (Parcel.recipient p) parcel message;
        match notification with
        | Some n => if Notification.is_sent n
                    then mret (true, T_notified (Person.name (Parcel.recipient p)))
                    else mret (false, T_notify_failed)
        | None => mret (false, T_notify_failed)
        end
    end.

(** The repair loop of [perform_maintenance] over the bank, threading the
    report dictionary. *)
Fixpoint maintenance_loop (bank : list nat) (report : Report.t) : M Report.t :=
  match bank with
  | [] => mret report
  | locker :: rest =>
      l ← get_locker locker;
      report' ←
        (if negb (Locker.is_functional l) then
           x ← random_random;
           if (x <? repair_threshold)%N then
             repair locker;;
             mret (Report.add_issue (T_repaired (Locker.number l))
                     (Report.set_lockers_repaired (Report.lockers_repaired report + 1) report))
           else
             mret (Report.add_issue (T_needs_replacement (Locker.number l))
                     (Report.set_failed_repairs (Report.failed_repairs report + 1) report))
         else
           t ← now;
           put_locker locker (Locker.set_last_maintenance (Some t) l);;
           mret report);
      maintenance_loop rest report'
  end.

Definition perform_maintenance (technician : string) : M Report.t :=
  if bool_decide (technician = "") then raise (ValueError T_technician_required)
  else
    self ← get_station;
    let broken_before := filter (λ l, Is_true (is_broken l)) (Postomat.lockers self) in
    t ← now;
    let report :=
      Report.mk t technician (len (Postomat.lockers self)) (len broken_before) 0 0 0 [] in
    let report :=
      foldl (λ r l, Report.add_issue (T_was_broken (Locker.number l)) r) report broken_before in
    report ← maintenance_loop (seq 0 (length (Postomat.lockers self))) report;
    self ← get_station;
    let report :=
      Report.set_broken_after
        (len (filter (λ l, Is_true (is_broken l)) (Postomat.lockers self))) report in
    modify_station (λ s,
      Postomat.set_maintenance_log (Postomat.maintenance_log s ++ [report]) s);;
    mret report.

Definition break_random_locker : M (bool * Text) :=
  self ← get_station;
  let functional_lockers :=
    lockers_where (λ l, Locker.is_functional l && negb (Locker.is_occupied l))
                  (Postomat.lockers self) in
  match functional_lockers with
  | [] => mret (false, T_nothing_to_break)
  | _ =>
      locker ← random_choice functional_lockers;
      l ← get_locker locker;
      put_locker locker (Locker.set_is_functional false l);;
      _log_security_alert "manual_failure" (T_alert_manual (Locker.number l));;
      mret (true, T_broken (Locker.number l))
  end.

Definition reset_security : M (bool * Text) :=
  modify_station (Postomat.set_is_operational true);;
  modify_station (Postomat.set_security_alerts []);;
  modify_station (Postomat.set_user_operations ∅);;
  mret (true, T_security_reset).

(** [Recipient(sender.name, sender.phone, sender.email)]: the fields of a
    constructed sender are already stripped and normalised, so the
    validation of the constructor accepts them and keeps them as they are. *)
Definition recipient_of_sender (s : Sender.t) : Person.t :=
  let q := Sender.person s in
  Person.mk (Person.name q) (Person.phone q) (Person.email q)
    (Person._generate_id md5_hexdigest (Person.name q) (Person.phone q) (Person.email q)).

(** The loop of [check_expired_parcels] over the snapshot
    [list(self.parcels.items())]. *)
Fixpoint expiry_loop (items : list (string * ref)) (expired : list ref) : M (list ref) :=
  match items with
  | [] => mret expired
  | (tracking, parcel) :: rest =>
      is_exp ← is_expired parcel;
      p ← load parcel;
      if (is_exp : bool) && bool_decide (Parcel.status p = IN_POSTOMAT) then
        store parcel (Parcel.set_status EXPIRED p);;
        _notify_recipient (recipient_of_sender (Parcel.sender p)) parcel
          (T_not_collected tracking);;
        expiry_loop rest (expired ++ [parcel])
      else expiry_loop rest expired
  end.

Definition check_expired_parcels : M (list ref) :=
  self ← get_station;
  expiry_loop (Postomat.parcels self) [].

(** ** The calls a client can make, and the worlds they lead to *)

Inductive Call :=
| CallParcel (tracking : string) (a : ParcelArgs)
| CallSend (parcel : ref) (user_id : string)
| CallReceive (tracking_number : string) (recipient : Person.t) (user_id : string)
| CallNotify (tracking_number custom_message user_id : string)
| CallMaintenance (technician : string)
| CallBreak
| CallReset
| CallCheckExpired.

Definition exec (c : Call) (w : World) : World :=
  match c with
  | CallParcel tracking a => (new_parcel tracking a w).2
  | CallSend parcel user_id => (send_parcel parcel user_id w).2
  | CallReceive t r user_id => (receive_parcel t r user_id w).2
  | CallNotify t m user_id => (notify_recipient t m user_id w).2
  | CallMaintenance technician => (perform_maintenance technician w).2
  | CallBreak => (break_random_locker w).2
  | CallReset => (reset_security w).2
  | CallCheckExpired => (check_expired_parcels w).2
  end.

(** A call is well formed when the parcel it passes is an object. *)
Definition well_formed_call (c : Call) (w : World) : Prop :=
  match c with
  | CallSend parcel _ => is_Some (heap w !! parcel)
  | _ => True
  end.

Definition fresh_world (s : Postomat.t) : World := mkWorld ∅ s 0 0.

Inductive reachable : World → Prop :=
| reachable_fresh postomat_id address total_lockers security_level bank s :
    Postomat_init postomat_id address total_lockers security_level bank = inr s →
    len bank = total_lockers →
    reachable (fresh_world s)
| reachable_call c w :
    reachable w → well_formed_call c w → reachable (exec c w).

Fixpoint exec_all (cs : list Call) (w : World) : World :=
  match cs with
  | [] => w
  | c :: cs' => exec_all cs' (exec c w)
  end.

End Execution.

(* ===================================================================== *)
(** * Parcel.py: tracking codes                                            *)
(* ===================================================================== *)

Module Tracking.

Definition TRACKING_PREFIXES : list string :=
  ["ABC"; "XYZ"; "TRK"; "PKG"; "BOX"; "SHP"; "DLV"; "POS"].

(** [random.choice(seq)] and [random.randint(0, 9)] on a raw random value. *)
Definition choice (seq : list string) (x : N) : string :=
  default "" (seq !! N.to_nat (x mod N.of_nat (length seq))).
Definition randint_0_9 (x : N) : N := (x mod 10)%N.

(** [str(d)] for a one-digit [d]. *)
Definition str_digit (d : N) : string := String (ascii_of_N (48 + d)) EmptyString.

Fixpoint join (parts : list string) : string :=
  match parts with
  | [] => EmptyString
  | x :: parts' => x +:+ join parts'
  end.

(** One iteration of the loop: eleven raw values starting at [k]. *)
Definition candidate (rng : nat → N) (k : nat) : string :=
  let prefix := choice TRACKING_PREFIXES (rng k) in
  let numbers :=
    join (map (λ j, str_digit (randint_0_9 (rng (k + 1 + j)%nat))) (seq 0 10)) in
  prefix +:+ numbers.

(** [_generate_unique_tracking]: the [while True] loop runs at most [fuel]
    times; the state is the position in the random stream and the class
    attribute [_existing_trackings]. *)
Fixpoint _generate_unique_tracking (fuel : nat) (rng : nat → N) (k : nat)
    (existing : gset string) : option (string * (nat * gset string)) :=
  match fuel with
  | O => None
  | S fuel' =>
      let tracking := candidate rng k in
      if decide (tracking ∉ existing)
      then Some (tracking, ((k + 11)%nat, existing ∪ {[tracking]}))
      else _generate_unique_tracking fuel' rng (k + 11)%nat existing
  end.


(** The format of a code: a prefix of the fixed set and ten decimal digits. *)
Definition well_formed (tracking : string) : Prop :=
  ∃ prefix digits, tracking = prefix +:+ digits ∧ prefix ∈ TRACKING_PREFIXES ∧
                   String.length digits = 10%nat ∧
                   Validator.strip_digits 10 digits = Some EmptyString.

End Tracking.


(* ===================================================================== *)
(** * Sample data for the closed statements below                         *)
(* ===================================================================== *)

Module Sample.

Definition alice : Person.t :=
  Person.mk "Alice" "+375291234567" "alice@example.by" "a1".
Definition bob : Person.t :=
  Person.mk "Bob" "+375331234567" "bob@example.by" "b2".
Definition carol : Sender.t :=
  Sender.mk (Person.mk "Carol" "+375251234567" "carol@example.by" "c3")
            "Minsk, Lenina 1".

(** A station of three lockers, sizes S, L, M in bank order. *)
Definition postomat (level : SecurityLevel.t) : Postomat.t :=
  Postomat.mk "PM1" "Minsk" 3 level true [] ∅
    (_create_lockers [SMALL; LARGE; MEDIUM]) [] [] [].

(** A clock that advances one day per reading. *)
Definition day_clock (k : nat) : Time := Z.of_nat k * timedelta_days 1.
(** A generator that always returns 0, and one that always returns 1.0. *)
Definition rng_zero (k : nat) : N := 0%N.
Definition rng_one (k : nat) : N := (2 ^ 53)%N.
(** A generator that counts. *)
Definition rng_count (k : nat) : N := N.of_nat k.
Definition md5_stub (s : string) : string := s.

Definition books : ParcelArgs := mkParcelArgs carol alice MEDIUM "books".

Definition call (c : Call) : World → World := exec day_clock rng_zero md5_stub c.

(** A fresh station and one parcel object, then the parcel sent. *)
Definition w_parcel (level : SecurityLevel.t) : World :=
  call (CallParcel "ABC0000000001" books) (fresh_world (postomat level)).
Definition w_sent (level : SecurityLevel.t) : World :=
  call (CallSend 0%nat "u") (w_parcel level).

(** The same run on a clock that advances two days per reading: the
    parcel is placed on day 2 and its deadline is day 7; the next reading,
    taken by the sweep or by a claim of the recipient, is day 10. *)
Definition two_day_clock (k : nat) : Time := Z.of_nat k * timedelta_days 2.
Definition w_sent_fast : World :=
  exec_all two_day_clock rng_zero md5_stub
    [CallParcel "ABC0000000001" books; CallSend 0%nat "u"]
    (fresh_world (postomat SecurityLevel.LOW)).
Definition w_swept : World :=
  exec two_day_clock rng_zero md5_stub CallCheckExpired w_sent_fast.

(** Under HIGH, a claim by the wrong person locks the station. *)
Definition w_locked : World :=
  call (CallReceive "ABC0000000001" bob "u") (w_sent SecurityLevel.HIGH).

(** Fifty operations of one user on a fresh station. *)
Definition w_fifty (level : SecurityLevel.t) : World :=
  exec_all day_clock rng_zero md5_stub
    (replicate 50 (CallNotify "ABC0000000001" "" "u")) (fresh_world (postomat level)).

(** The sample station with its second locker broken. *)
Definition w_broken : World :=
  mkWorld ∅
    (Postomat.set_lockers
       (<[1%nat := Locker.set_is_functional false (Locker.init 2 LARGE)]>
          (_create_lockers [SMALL; LARGE; MEDIUM]))
       (postomat SecurityLevel.LOW)) 0 0.

End Sample.

(* ===================================================================== *)
(** * Proof tools                                                          *)
(* ===================================================================== *)

Ltac unfold_monad :=
  unfold mbind, mret, M_bind, M_ret, raise, wrong, try_except, get_station,
    modify_station, load, store, allocate, get_locker, put_locker, now,
    random_random in *.

(* ===================================================================== *)
(** * Parcel.is_expired                                                    *)
(* ===================================================================== *)

Section Expiry.
Context (clock : nat → Time).

Lemma is_expired_eq w self p :
  heap w !! self = Some p →
  is_expired clock self w =
    match Parcel.storage_until p with
    | None => (Return false, w)
    | Some deadline =>
        (Return (clock (clock_reads w) >? deadline),
         mkWorld (heap w) (station w) (S (clock_reads w)) (random_calls w))
    end.
Proof.
  intros Hp. unfold is_expired. unfold_monad. rewrite Hp.
  destruct (Parcel.storage_until p); reflexivity.
Qed.

(** C5. [is_expired] answers false when no storage deadline is set, false
    when the clock reads exactly the deadline, and true exactly when the
    clock reads an instant strictly later than the deadline; it changes
    neither the parcel nor the station. *)
Theorem is_expired_strictly_after_deadline w self p :
  heap w !! self = Some p →
  let current_time := clock (clock_reads w) in
  ∃ b : bool,
    (is_expired clock self w).1 = Return b ∧
    heap (is_expired clock self w).2 = heap w ∧
    station (is_expired clock self w).2 = station w ∧
    (Parcel.storage_until p = None → b = false) ∧
    (Parcel.storage_until p = Some current_time → b = false) ∧
    (∀ deadline, Parcel.storage_until p = Some deadline →
       (b = true ↔ deadline < current_time)).
Proof.
  intros Hp current_time. rewrite (is_expired_eq _ _ _ Hp).
  destruct (Parcel.storage_until p) as [d|] eqn:Hd; simpl.
  - exists (current_time >? d). split; [done|]. split; [done|]. split; [done|].
    split; [done|]. split.
    + intros [= ->]. rewrite Z.gtb_ltb. apply Z.ltb_irrefl.
    + intros deadline [= <-]. rewrite Z.gtb_ltb. apply Z.ltb_lt.
  - exists false. repeat split; try done.
Qed.

End Expiry.

(** After the send of the sample run the deadline is day 5; the sixth
    reading of the clock is day 5 (not expired), the seventh is day 6. *)
Lemma is_expired_strictly_after_deadline_witness :
  ∃ p, heap (Sample.w_sent SecurityLevel.LOW) !! 0%nat = Some p ∧
       Parcel.storage_until p = Some (Sample.day_clock 5) ∧
       ∃ b : bool,
         (is_expired Sample.day_clock 0%nat (Sample.w_sent SecurityLevel.LOW)).1 = Return b ∧
         b = false.
Proof.
  assert (Hp : heap (Sample.w_sent SecurityLevel.LOW) !! 0%nat =
               Some (Parcel.mk "ABC0000000001" Sample.carol Sample.alice MEDIUM
                       "books" IN_POSTOMAT 0 (Some 86400000000) None (Some 2) 3
                       (Some 432000000000))) by (vm_compute; reflexivity).
  eexists. split; [exact Hp|]. split; [reflexivity|].
  destruct (is_expired_strictly_after_deadline Sample.day_clock _ _ _ Hp)
    as (b & Hb & _ & _ & _ & Heq & _).
  exists b. split; [exact Hb|]. apply Heq. reflexivity.
Defined.

(* ===================================================================== *)
(** * Validator: phone numbers                                             *)
(* ===================================================================== *)

Module ValidatorFacts.
Import Validator.

Fixpoint all_chars (P : ascii → bool) (s : string) : bool :=
  match s with
  | EmptyString => true
  | String c s' => P c && all_chars P s'
  end.

Lemma string_app_cons c (d r : string) : String c d +:+ r = String c (d +:+ r).
Proof. reflexivity. Qed.

Lemma string_app_nil (r : string) : EmptyString +:+ r = r.
Proof. reflexivity. Qed.

Ltac norm_app := rewrite ?string_app_cons, ?string_app_nil in *.

Lemma string_app_empty_r (d : string) : d +:+ EmptyString = d.
Proof. induction d as [|c d IH]; [done|]. rewrite string_app_cons. by rewrite IH. Qed.

Lemma strip_literal_app lit s r :
  strip_literal lit s = Some r → s = lit +:+ r.
Proof.
  revert s. induction lit as [|a lit IH]; intros s; simpl.
  - by intros [= ->].
  - destruct s as [|b s]; [done|].
    destruct (Ascii.eqb_spec a b) as [->|]; [|done].
    intros H. by rewrite (IH _ H).
Qed.


Lemma strip_digits_app n s r :
  strip_digits n s = Some r →
  ∃ d, s = d +:+ r ∧ String.length d = n ∧ strip_digits n d = Some EmptyString.
Proof.
  revert s. induction n as [|n IH]; intros s; simpl.
  - intros [= ->]. by exists EmptyString.
  - destruct s as [|c s]; [done|]. destruct (is_digit c) eqn:Hc; [|done].
    intros (d & -> & <- & Hd)%IH. exists (String c d). simpl. by rewrite Hc.
Qed.


Lemma all_chars_app P a b :
  all_chars P (a +:+ b) = all_chars P a && all_chars P b.
Proof. induction a as [|c a IH]; simpl; [done|]. by rewrite IH, andb_assoc. Qed.

Lemma remove_separators_clean s :
  all_chars (λ c, negb (is_separator c)) (remove_separators s) = true.
Proof.
  induction s as [|c s IH]; simpl; [done|].
  destruct (is_separator c) eqn:Hc; simpl; [done|]. by rewrite Hc.
Qed.

(** On a string without separators, [$] only matches at the very end. *)
Lemma at_dollar_clean r :
  all_chars (λ c, negb (is_separator c)) r = true → at_dollar r = true →
  r = EmptyString.
Proof.
  destruct r as [|c [|c' r]]; simpl; try done.
  destruct (Ascii.eqb_spec c "010") as [->|]; [|done]. by vm_compute.
Qed.

(** What a successful match of [^<lit>\d{n}$] says of a cleaned string. *)
Lemma re_match_clean lit n s :
  all_chars (λ c, negb (is_separator c)) s = true →
  re_match_lit_digits lit n s = true →
  ∃ d, s = lit +:+ d ∧ String.length d = n ∧ strip_digits n d = Some EmptyString.
Proof.
  intros Hs. unfold re_match_lit_digits.
  destruct (strip_literal lit s) as [r|] eqn:Hl; [|done].
  destruct (strip_digits n r) as [r'|] eqn:Hd; [|done].
  intros Hdollar. apply strip_literal_app in Hl as ->.
  apply strip_digits_app in Hd as (d & -> & Hlen & Hd).
  rewrite !all_chars_app in Hs. apply andb_prop in Hs as [_ [_ Hr']%andb_prop].
  rewrite (at_dollar_clean _ Hr' Hdollar). exists d.
  split; [|done]. by rewrite string_app_empty_r.
Qed.


Lemma slice_from_app lit d : slice_from (String.length lit) (lit +:+ d) = d.
Proof. induction lit; simpl; [by destruct d|done]. Qed.


(** Outside the [+375] branch the operator code was checked. *)
Lemma validate_phone_operator_checked phone :
  validate_phone phone = true →
  re_match_lit_digits "+375" 9 (remove_separators phone) = false →
  is_operator (operator_code_of (normalize_phone phone)) = true.
Proof.
  unfold validate_phone, normalize_phone, phone_to_check, operator_code_of.
  pose proof (remove_separators_clean phone) as Hclean.
  set (cleaned := remove_separators phone) in *.
  intros Hv H1. rewrite H1 in *.
  destruct (re_match_lit_digits "80" 9 cleaned) eqn:H2.
  { destruct (re_match_clean _ _ _ Hclean H2) as (d & Hc & ? & ?).
    rewrite Hc in *. destruct d as [|a [|b d]]; try done. norm_app. unfold slice in *. simpl in *.
    by destruct (is_operator (String a (String b ""))). }
  destruct (re_match_lit_digits "375" 9 cleaned) eqn:H3.
  { destruct (re_match_clean _ _ _ Hclean H3) as (d & Hc & ? & ?).
    assert (re_match_lit_digits "8" 9 cleaned = false) as -> by (by rewrite Hc).
    rewrite Hc in *. destruct d as [|a [|b d]]; try done. norm_app. unfold slice in *. simpl in *.
    by destruct (is_operator (String a (String b ""))). }
  destruct (re_match_lit_digits "8" 9 cleaned && (String.length cleaned =? 10)%nat)
    eqn:H4; [|done].
  apply andb_prop in H4 as [H4 _].
  destruct (re_match_clean _ _ _ Hclean H4) as (d & Hc & ? & ?).
  rewrite Hc in *. destruct d as [|a [|b d]]; try done. norm_app. unfold slice in *. simpl in *.
  by destruct (is_operator (String a (String b ""))).
Qed.

(** C6. The branch of [validate_phone] for numbers already written
    [+375XXXXXXXXX] never looks at the operator code: [+375991234567] is
    accepted and kept as it is by [normalize_phone], although its operator
    code 99 is not one of 24, 25, 29, 33, 44; the same digits written in the
    three other formats are rejected. *)
Theorem validate_phone_skips_operator_check :
  validate_phone "+375991234567" = true ∧
  normalize_phone "+375991234567" = "+375991234567" ∧
  operator_code_of (normalize_phone "+375991234567") = "99" ∧
  is_operator "99" = false ∧
  validate_phone "80991234567" = false ∧
  validate_phone "375991234567" = false ∧
  validate_phone "8991234567" = false.
Proof. repeat split; vm_compute; reflexivity. Qed.

End ValidatorFacts.

(* ===================================================================== *)
(** * Tracking codes                                                       *)
(* ===================================================================== *)

Module TrackingFacts.
Import Tracking.

Lemma choice_prefix x : choice TRACKING_PREFIXES x ∈ TRACKING_PREFIXES.
Proof.
  unfold choice. simpl length.
  assert (N.to_nat (x mod N.of_nat 8) < 8)%nat as Hlt.
  { pose proof (N.mod_upper_bound x (N.of_nat 8)). lia. }
  revert Hlt. generalize (N.to_nat (x mod N.of_nat 8)). intros i Hi.
  do 8 (destruct i as [|i]; [simpl; set_solver|]). lia.
Qed.

Lemma str_digit_is_digit x :
  Validator.is_digit (ascii_of_N (48 + randint_0_9 x)) = true.
Proof.
  unfold randint_0_9.
  assert (N.to_nat (x mod 10) < 10)%nat as Hlt.
  { pose proof (N.mod_upper_bound x 10). lia. }
  rewrite <- (N2Nat.id (x mod 10)). revert Hlt.
  generalize (N.to_nat (x mod 10)). intros i Hi.
  do 10 (destruct i as [|i]; [reflexivity|]). lia.
Qed.

Lemma candidate_well_formed rng k : well_formed (candidate rng k).
Proof.
  unfold well_formed, candidate. eexists _, _. split; [reflexivity|].
  split; [apply choice_prefix|]. split; [reflexivity|].
  unfold str_digit. cbn [seq map join].
  rewrite ?ValidatorFacts.string_app_cons, ?ValidatorFacts.string_app_nil.
  cbn [Validator.strip_digits]. by rewrite !str_digit_is_digit.
Qed.

(** One call that returns: the code is new, it is the candidate of the last
    iteration, and it is in the set when the call returns. *)
Lemma generate_unique_tracking_Some fuel rng k existing tracking k' existing' :
  _generate_unique_tracking fuel rng k existing = Some (tracking, (k', existing')) →
  (tracking ∉ existing) ∧ existing' = existing ∪ {[tracking]} ∧ well_formed tracking.
Proof.
  revert k. induction fuel as [|fuel IH]; intros k; simpl; [done|].
  destruct (decide (candidate rng k ∉ existing)) as [Hnew|Hold].
  - intros [= <- <- <-]. split; [done|]. split; [done|]. apply candidate_well_formed.
  - apply IH.
Qed.

(** The loop returns as soon as one of its first [fuel] candidates is new. *)
Lemma generate_unique_tracking_returns fuel rng k existing j :
  (j < fuel)%nat → candidate rng (k + 11 * j)%nat ∉ existing →
  is_Some (_generate_unique_tracking fuel rng k existing).
Proof.
  revert k j. induction fuel as [|fuel IH]; intros k j Hj Hnew; [lia|]. simpl.
  destruct (decide (candidate rng k ∉ existing)); [by eexists|].
  destruct j as [|j].
  - by replace (k + 11 * 0)%nat with k in Hnew by lia.
  - apply (IH _ j); [lia|]. by replace (k + 11 + 11 * j)%nat with (k + 11 * S j)%nat by lia.
Qed.



End TrackingFacts.

(* ===================================================================== *)
(** * Dictionaries                                                         *)
(* ===================================================================== *)

Section Dict.
Context {V : Type}.
Implicit Types (d : dict V) (k : string) (v : V).

Lemma dict_get_set_eq k v d : dict_get k (dict_set k v d) = Some v.
Proof.
  induction d as [|[k' v'] d IH]; simpl.
  - by rewrite decide_True.
  - destruct (decide (k' = k)); simpl; [by rewrite decide_True|by rewrite decide_False].
Qed.

Lemma dict_get_set_ne k k' v d : k ≠ k' → dict_get k' (dict_set k v d) = dict_get k' d.
Proof.
  intros Hne. induction d as [|[k0 v0] d IH]; simpl.
  - by rewrite decide_False.
  - destruct (decide (k0 = k)) as [->|]; simpl.
    + by rewrite !decide_False.
    + destruct (decide (k0 = k')); done.
Qed.

Lemma dict_get_del_eq k d : dict_get k (dict_del k d) = None.
Proof.
  unfold dict_del. induction d as [|[k' v'] d IH]; [done|].
  rewrite filter_cons. simpl. destruct (decide (k' ≠ k)); simpl; [|done].
  by rewrite decide_False.
Qed.

Lemma dict_get_del_ne k k' d : k ≠ k' → dict_get k' (dict_del k d) = dict_get k' d.
Proof.
  intros Hne. unfold dict_del. induction d as [|[k0 v0] d IH]; [done|].
  rewrite filter_cons. simpl. destruct (decide (k0 ≠ k)) as [|Heq]; simpl.
  - by rewrite IH.
  - apply dec_stable in Heq as ->. by rewrite decide_False.
Qed.


End Dict.

(* ===================================================================== *)
(** * The security gate                                                    *)
(* ===================================================================== *)

(** The world after an alert was appended to the log at the next reading
    of the clock. *)
Definition with_alert (clock : nat → Time) (alert_type : string) (description : Text)
    (w : World) : World :=
  mkWorld (heap w)
    (Postomat.set_security_alerts
       (Postomat.security_alerts (station w) ++
          [Alert.mk (clock (clock_reads w)) alert_type description]) (station w))
    (S (clock_reads w)) (random_calls w).

Definition locked (w : World) : World :=
  mkWorld (heap w) (Postomat.set_is_operational false (station w))
    (clock_reads w) (random_calls w).

(** The world after the gate counted one more operation of [user_id]. *)
Definition counted (user_id : string) (w : World) : World :=
  mkWorld (heap w)
    (Postomat.set_user_operations
       (<[user_id := default 0 (Postomat.user_operations (station w) !! user_id) + 1]>
          (Postomat.user_operations (station w))) (station w))
    (clock_reads w) (random_calls w).

Section Gate.
Context (clock : nat → Time).

Lemma log_security_alert_eq alert_type description w :
  _log_security_alert clock alert_type description w =
    (Return tt,
     if bool_decide (Postomat.security_level (station w) = SecurityLevel.HIGH)
        && bool_decide (alert_type ∈ ["unauthorized_access"; "suspicious_activity"])
     then locked (with_alert clock alert_type description w)
     else with_alert clock alert_type description w).
Proof.
  unfold _log_security_alert. unfold_monad. simpl.
  destruct (bool_decide (Postomat.security_level (station w) = SecurityLevel.HIGH)
            && bool_decide (alert_type ∈ ["unauthorized_access"; "suspicious_activity"]));
    reflexivity.
Qed.

Lemma check_security_eq user_id operation w :
  _check_security clock user_id operation w =
    if negb (Postomat.is_operational (station w)) then (Return (false, T_station_locked), w)
    else
      let count := default 0 (Postomat.user_operations (station w) !! user_id) + 1 in
      if count >? 50 then
        let w1 := with_alert clock "suspicious_activity"
                    (T_alert_suspicious user_id count) (counted user_id w) in
        if bool_decide (Postomat.security_level (station w) = SecurityLevel.HIGH)
        then (Return (false, T_suspicious_blocked), locked w1)
        else (Return (true, T_ok), w1)
      else (Return (true, T_ok), counted user_id w).
Proof.
  unfold _check_security.
  unfold mbind at 1. unfold M_bind at 1. unfold get_station at 1.
  destruct (Postomat.is_operational (station w)); simpl; [|reflexivity].
  unfold mbind at 1. unfold M_bind at 1. unfold modify_station at 1.
  fold (counted user_id w).
  destruct (default 0 (Postomat.user_operations (station w) !! user_id) + 1 >? 50);
    [|reflexivity].
  unfold mbind at 1. unfold M_bind at 1. rewrite log_security_alert_eq.
  assert (bool_decide ("suspicious_activity" ∈ ["unauthorized_access"; "suspicious_activity"])
          = true) as -> by (vm_compute; reflexivity).
  rewrite andb_true_r. unfold_monad. unfold locked, with_alert, counted. simpl.
  destruct (bool_decide (Postomat.security_level (station w) = SecurityLevel.HIGH))
    eqn:Hlevel; simpl; rewrite ?Hlevel; reflexivity.
Qed.

(** C3. When the gate runs on an operational station and the count of the
    user is beyond 50 once this operation is counted, it logs a
    [suspicious_activity] alert; under HIGH the operation is also denied and
    the station becomes locked, under LOW and MEDIUM the operation passes
    and the station stays operational. *)
Theorem security_gate_threshold user_id operation w :
  Postomat.is_operational (station w) = true →
  50 < default 0 (Postomat.user_operations (station w) !! user_id) + 1 →
  let count := default 0 (Postomat.user_operations (station w) !! user_id) + 1 in
  let result := (_check_security clock user_id operation w).1 in
  let w' := (_check_security clock user_id operation w).2 in
  Postomat.user_operations (station w') !! user_id = Some count ∧
  Postomat.security_alerts (station w') =
    Postomat.security_alerts (station w) ++
      [Alert.mk (clock (clock_reads w)) "suspicious_activity"
         (T_alert_suspicious user_id count)] ∧
  (Postomat.security_level (station w) = SecurityLevel.HIGH →
     result = Return (false, T_suspicious_blocked) ∧
     Postomat.is_operational (station w') = false) ∧
  (Postomat.security_level (station w) ≠ SecurityLevel.HIGH →
     result = Return (true, T_ok) ∧
     Postomat.is_operational (station w') = true).
Proof.
  intros Hop Hcount count result w'. subst result w'.
  rewrite check_security_eq, Hop. cbn [negb]. cbv zeta. subst count.
  assert ((default 0 (Postomat.user_operations (station w) !! user_id) + 1 >? 50) = true)
    as -> by (apply Z.gtb_lt; lia).
  destruct (bool_decide_reflect (Postomat.security_level (station w) = SecurityLevel.HIGH))
    as [Hhigh|Hlow]; simpl.
  - split; [apply lookup_insert_eq|]. split; [done|]. split; [done|]. done.
  - split; [apply lookup_insert_eq|]. split; [done|]. split; [done|]. done.
Qed.

(** At or below the threshold the gate only counts. *)
Lemma security_gate_below_threshold user_id operation w :
  Postomat.is_operational (station w) = true →
  default 0 (Postomat.user_operations (station w) !! user_id) + 1 ≤ 50 →
  _check_security clock user_id operation w = (Return (true, T_ok), counted user_id w).
Proof.
  intros Hop Hcount. rewrite check_security_eq, Hop. simpl.
  assert ((default 0 (Postomat.user_operations (station w) !! user_id) + 1 >? 50) = false)
    as -> by (rewrite Z.gtb_ltb; apply Z.ltb_ge; lia).
  reflexivity.
Qed.

(** A locked station is refused before anything is counted or logged. *)
Lemma security_gate_locked user_id operation w :
  Postomat.is_operational (station w) = false →
  _check_security clock user_id operation w = (Return (false, T_station_locked), w).
Proof. intros Hop. by rewrite check_security_eq, Hop. Qed.

End Gate.

(* ===================================================================== *)
(** * Sending a parcel                                                     *)
(* ===================================================================== *)

(** The parcel after [place_in_locker], given the two readings of the clock. *)
Definition placed_parcel (t1 t2 : Time) (locker_number : Z) (p : Parcel.t) : Parcel.t :=
  Parcel.set_storage_until (Some (t2 + timedelta_days (Parcel.storage_days p)))
    (Parcel.set_locker_number (Some locker_number)
       (Parcel.set_placed_at (Some t1) (Parcel.set_status IN_POSTOMAT p))).

Definition occupied_locker (parcel : ref) (l : Locker.t) : Locker.t :=
  Locker.set_current_parcel (Some parcel) (Locker.set_is_occupied true l).

(** The world after [put_parcel] succeeded on locker [i]. *)
Definition bound (clock : nat → Time) (i : nat) (l : Locker.t) (parcel : ref)
    (p : Parcel.t) (w : World) : World :=
  mkWorld
    (<[parcel := placed_parcel (clock (clock_reads w)) (clock (S (clock_reads w)))
                   (Locker.number l) p]> (heap w))
    (Postomat.set_lockers (<[i := occupied_locker parcel l]> (Postomat.lockers (station w)))
       (station w))
    (S (S (clock_reads w))) (random_calls w).

Definition registered (tracking : string) (parcel : ref) (w : World) : World :=
  mkWorld (heap w)
    (Postomat.set_parcels (dict_set tracking parcel (Postomat.parcels (station w)))
       (station w))
    (clock_reads w) (random_calls w).

(** The notification object built and sent at the next two readings. *)
Definition notification_at (clock : nat → Time) (recipient : Person.t) (parcel : ref)
    (message : Text) (w : World) : Notification.t :=
  Notification.mk recipient parcel message SMS (clock (clock_reads w))
    (Some (clock (S (clock_reads w)))) true 1.

Definition notified (clock : nat → Time) (recipient : Person.t) (parcel : ref)
    (message : Text) (w : World) : World :=
  mkWorld (heap w)
    (Postomat.set_notifications
       (Postomat.notifications (station w) ++
          [notification_at clock recipient parcel message w]) (station w))
    (S (S (clock_reads w))) (random_calls w).

Section Send.
Context (clock : nat → Time).

Lemma notify_eq recipient parcel message w :
  _notify_recipient clock recipient parcel message w =
    (Return (Some (notification_at clock recipient parcel message w)),
     notified clock recipient parcel message w).
Proof. reflexivity. Qed.

Lemma put_parcel_eq i parcel w l p :
  Postomat.lockers (station w) !! i = Some l →
  heap w !! parcel = Some p →
  put_parcel clock i parcel w =
    if negb (Locker.is_functional l)
    then (Raise (LockerError (T_locker_broken (Locker.number l))), w)
    else if Locker.is_occupied l
    then (Raise (LockerError (T_locker_occupied (Locker.number l))), w)
    else if size_order (Parcel.size p) >? size_order (Locker.size l)
    then (Raise (LockerError (T_too_big (Locker.number l))), w)
    else (Return true, bound clock i l parcel p w).
Proof.
  intros Hl Hp. unfold put_parcel, place_in_locker. unfold_monad. rewrite Hl.
  destruct (Locker.is_functional l); simpl; [|reflexivity].
  destruct (Locker.is_occupied l); simpl; [reflexivity|].
  rewrite Hp.
  destruct (size_order (Parcel.size p) >? size_order (Locker.size l)); simpl;
    [reflexivity|].
  rewrite Hp. reflexivity.
Qed.

(** The [try] block of [send_parcel] on any locker of the bank. *)
Lemma send_into_eq i parcel w l p :
  Postomat.lockers (station w) !! i = Some l →
  heap w !! parcel = Some p →
  send_into clock i parcel w =
    match put_parcel clock i parcel w with
    | (Return _, w1) =>
        let w2 := registered (Parcel.tracking_number p) parcel w1 in
        (Return (true, T_sent (Parcel.tracking_number p) (Locker.number l)),
         notified clock (Parcel.recipient p) parcel
           (T_arrived (Parcel.tracking_number p) (Postomat.address (station w))
              (Locker.number l)) w2)
    | (Raise (LockerError m), w1) => (Return (false, T_locker_error m), w1)
    | (Raise e, w1) => (Return (false, T_system_error (exn_text e)), w1)
    | (Wrong, w1) => (Wrong, w1)
    end.
Proof.
  intros Hl Hp. unfold send_into.
  unfold try_except at 1. unfold mbind at 1. unfold M_bind at 1.
  rewrite (put_parcel_eq _ _ _ _ _ Hl Hp).
  destruct (Locker.is_functional l); simpl; [|reflexivity].
  destruct (Locker.is_occupied l); simpl; [reflexivity|].
  destruct (size_order (Parcel.size p) >? size_order (Locker.size l)); simpl;
    [reflexivity|].
  unfold_monad. unfold bound. simpl.
  rewrite lookup_insert_eq. simpl.
  rewrite list_lookup_insert_eq by (by eapply lookup_lt_Some).
  reflexivity.
Qed.

End Send.

(** Two worlds with the same parcels, lockers and index. *)
Definition same_store (w w' : World) : Prop :=
  heap w' = heap w ∧
  Postomat.lockers (station w') = Postomat.lockers (station w) ∧
  Postomat.parcels (station w') = Postomat.parcels (station w).

Lemma same_store_refl w : same_store w w.
Proof. done. Qed.

Lemma same_store_trans w1 w2 w3 : same_store w1 w2 → same_store w2 w3 → same_store w1 w3.
Proof. unfold same_store. intros (?&?&?) (?&?&?). repeat split; congruence. Qed.

Section SendFacts.
Context (clock : nat → Time).

(** The gate always returns; it touches neither parcels, lockers nor the
    index, and a call it lets through finds the station operational. *)
Lemma check_security_frame user_id operation w :
  ∃ ok msg w1,
    _check_security clock user_id operation w = (Return (ok, msg), w1) ∧
    same_store w w1 ∧
    Postomat.address (station w1) = Postomat.address (station w) ∧
    Postomat.security_level (station w1) = Postomat.security_level (station w) ∧
    (ok = true → Postomat.is_operational (station w1) = true) ∧
    (ok = true → Postomat.is_operational (station w) = true).
Proof.
  rewrite check_security_eq.
  destruct (Postomat.is_operational (station w)) eqn:Hop; simpl.
  2: { eexists _, _, _. split; [reflexivity|]. by repeat split. }
  destruct (_ >? 50).
  2: { eexists _, _, _. split; [reflexivity|]. by repeat split. }
  destruct (bool_decide _); eexists _, _, _; (split; [reflexivity|]); by repeat split.
Qed.

Lemma find_available_locker_Some self required_size i :
  find_available_locker self required_size = Some i ↔
  ∃ l, Postomat.lockers self !! i = Some l ∧
       available_for (size_order required_size) l ∧
       ∀ j l', Postomat.lockers self !! j = Some l' → (j < i)%nat →
               ¬ available_for (size_order required_size) l'.
Proof.
  unfold find_available_locker. rewrite fmap_Some. split.
  - intros ([i' l] & Hfind%list_find_Some & ->). by exists l.
  - intros (l & Hfind). exists (i, l). split; [|done]. by apply list_find_Some.
Qed.

Lemma find_available_locker_None self required_size :
  find_available_locker self required_size = None ↔
  ∀ l, l ∈ Postomat.lockers self → ¬ available_for (size_order required_size) l.
Proof.
  unfold find_available_locker. rewrite fmap_None, list_find_None, Forall_forall. done.
Qed.

(** [send_parcel] once the gate let the call through. *)
Lemma send_parcel_eq parcel user_id w m w1 p :
  _check_security clock user_id "send" w = (Return (true, m), w1) →
  heap w !! parcel = Some p →
  send_parcel clock parcel user_id w =
    if bool_decide (is_Some (dict_get (Parcel.tracking_number p) (Postomat.parcels (station w))))
    then (Return (false, T_duplicate (Parcel.tracking_number p)), w1)
    else match find_available_locker (station w) (Parcel.size p) with
         | None => (Return (false, T_no_locker), w1)
         | Some locker => send_into clock locker parcel w1
         end.
Proof.
  intros Hgate Hp.
  destruct (check_security_frame user_id "send" w)
    as (ok & msg & w1' & Hgate' & (Hheap & Hlockers & Hparcels) & _ & _ & Hop & _).
  rewrite Hgate in Hgate'. injection Hgate' as <- <- <-.
  unfold send_parcel. unfold mbind at 1. unfold M_bind at 1. rewrite Hgate. simpl negb.
  cbv iota. unfold_monad. simpl. rewrite (Hop eq_refl). simpl. rewrite Hheap, Hp, Hparcels.
  destruct (bool_decide _); [reflexivity|].
  unfold find_available_locker. rewrite Hlockers. by destruct (fst <$> _).
Qed.

Lemma send_parcel_denied parcel user_id w msg w1 :
  _check_security clock user_id "send" w = (Return (false, msg), w1) →
  send_parcel clock parcel user_id w = (Return (false, msg), w1).
Proof.
  intros Hgate. unfold send_parcel. unfold mbind at 1. unfold M_bind at 1.
  by rewrite Hgate.
Qed.



End SendFacts.

(* ===================================================================== *)
(** * Receiving a parcel                                                   *)
(* ===================================================================== *)

Definition tick (w : World) : World :=
  mkWorld (heap w) (station w) (S (clock_reads w)) (random_calls w).

Definition with_parcel (r : ref) (p : Parcel.t) (w : World) : World :=
  mkWorld (<[r := p]> (heap w)) (station w) (clock_reads w) (random_calls w).

Definition with_locker (i : nat) (l : Locker.t) (w : World) : World :=
  mkWorld (heap w)
    (Postomat.set_lockers (<[i := l]> (Postomat.lockers (station w))) (station w))
    (clock_reads w) (random_calls w).

Definition unregistered (tracking : string) (w : World) : World :=
  mkWorld (heap w)
    (Postomat.set_parcels (dict_del tracking (Postomat.parcels (station w))) (station w))
    (clock_reads w) (random_calls w).

Definition emptied_locker (l : Locker.t) : Locker.t :=
  Locker.set_current_parcel None (Locker.set_is_occupied false l).

(** The world after [_log_security_alert]. *)
Definition alerted (clock : nat → Time) (alert_type : string) (description : Text)
    (w : World) : World :=
  if bool_decide (Postomat.security_level (station w) = SecurityLevel.HIGH)
     && bool_decide (alert_type ∈ ["unauthorized_access"; "suspicious_activity"])
  then locked (with_alert clock alert_type description w)
  else with_alert clock alert_type description w.

Section Receive.
Context (clock : nat → Time).

(** The [try] block of [receive_parcel] on locker [i]. *)
Lemma receive_from_eq i tracking w l :
  Postomat.lockers (station w) !! i = Some l →
  receive_from clock i tracking w =
    if negb (Locker.is_functional l)
    then (Return (false, T_receive_error (T_locker_broken (Locker.number l)), None), w)
    else if negb (Locker.is_occupied l)
    then (Return (false, T_receive_error (T_locker_empty (Locker.number l)), None), w)
    else
      let w1 := with_locker i (emptied_locker l) w in
      match Locker.current_parcel l with
      | None => (Raise (AttributeError T_none_has_no_attribute), w1)
      | Some rp =>
          match heap w !! rp with
          | None => (Wrong, w1)
          | Some q =>
              (Return (true, T_received tracking, Some rp),
               unregistered tracking
                 (with_parcel rp
                    (Parcel.set_delivered_at (Some (clock (clock_reads w)))
                       (Parcel.set_status DELIVERED q)) (tick w1)))
          end
      end.
Proof.
  intros Hl. unfold receive_from, open, take_parcel, close, deliver.
  unfold_monad. rewrite Hl.
  destruct l as [number size [] [] [rp|] last]; simpl; rewrite ?Hl; simpl;
    try reflexivity.
  destruct (heap w !! rp); reflexivity.
Qed.

(** What is left of [receive_parcel] after the authorization check. *)
Definition receive_authorized (tracking_number : string) (parcel : ref) (p : Parcel.t)
    (w1 : World) : Outcome (bool * Text * option ref) * World :=
  if bool_decide (Parcel.status p ≠ IN_POSTOMAT)
  then (Return (false, T_not_ready (Parcel.status p), None), w1)
  else
    let '(expired, w2) :=
      match Parcel.storage_until p with
      | None => (false, w1)
      | Some deadline => (clock (clock_reads w1) >? deadline, tick w1)
      end in
    if expired
    then (Return (false, T_storage_expired, None),
          with_parcel parcel (Parcel.set_status EXPIRED p) w2)
    else
      match find_locker_by_number (station w2) (Parcel.locker_number p) with
      | None => (Return (false, T_locker_not_found, None), w2)
      | Some locker => receive_from clock locker tracking_number w2
      end.

Lemma receive_parcel_eq tracking_number recipient user_id w m w1 :
  _check_security clock user_id "receive" w = (Return (true, m), w1) →
  receive_parcel clock tracking_number recipient user_id w =
    match dict_get tracking_number (Postomat.parcels (station w)) with
    | None => (Return (false, T_not_found tracking_number, None), w1)
    | Some parcel =>
        match heap w !! parcel with
        | None => (Wrong, w1)
        | Some p =>
            if bool_decide (Person.id (Parcel.recipient p) ≠ Person.id recipient)
            then (Return (false, T_no_rights, None),
                  alerted clock "unauthorized_access"
                    (T_alert_unauthorized tracking_number) w1)
            else receive_authorized tracking_number parcel p w1
        end
    end.
Proof.
  intros Hgate.
  destruct (check_security_frame clock user_id "receive" w)
    as (ok & msg & w1' & Hgate' & (Hheap & Hlockers & Hparcels) & _ & _ & Hop & _).
  rewrite Hgate in Hgate'. injection Hgate' as <- <- <-.
  unfold receive_parcel. unfold mbind at 1. unfold M_bind at 1. rewrite Hgate.
  unfold_monad. simpl. rewrite (Hop eq_refl). simpl. rewrite Hparcels.
  destruct (dict_get tracking_number (Postomat.parcels (station w))) as [parcel|];
    [|reflexivity].
  rewrite <- Hheap.
  destruct (heap w1 !! parcel) as [p|] eqn:Hp; [|reflexivity].
  destruct (bool_decide (Person.id (Parcel.recipient p) ≠ Person.id recipient)).
  { rewrite log_security_alert_eq. reflexivity. }
  unfold receive_authorized.
  destruct (bool_decide (Parcel.status p ≠ IN_POSTOMAT)); [reflexivity|].
  rewrite (is_expired_eq clock w1 parcel p Hp).
  destruct (Parcel.storage_until p) as [deadline|].
  - destruct (clock (clock_reads w1) >? deadline).
    + simpl. rewrite Hp. reflexivity.
    + simpl. by destruct (find_locker_by_number _ _).
  - simpl. by destruct (find_locker_by_number _ _).
Qed.

Lemma receive_parcel_denied tracking_number recipient user_id w msg w1 :
  _check_security clock user_id "receive" w = (Return (false, msg), w1) →
  receive_parcel clock tracking_number recipient user_id w =
    (Return (false, msg, None), w1).
Proof.
  intros Hgate. unfold receive_parcel. unfold mbind at 1. unfold M_bind at 1.
  by rewrite Hgate.
Qed.

(** C4, as the code has it.  When the call passes the security gate, a
    claim by a recipient whose identifier differs from the one recorded on
    the indexed parcel fails with the authorization message and appends
    exactly one [unauthorized_access] alert, after the alerts of the gate
    itself, which are all of type [suspicious_activity]; parcels, lockers and
    index are left as they were. *)
Theorem receive_parcel_unauthorized tracking_number recipient user_id w m parcel p :
  (_check_security clock user_id "receive" w).1 = Return (true, m) →
  dict_get tracking_number (Postomat.parcels (station w)) = Some parcel →
  heap w !! parcel = Some p →
  Person.id (Parcel.recipient p) ≠ Person.id recipient →
  let result := (receive_parcel clock tracking_number recipient user_id w).1 in
  let w' := (receive_parcel clock tracking_number recipient user_id w).2 in
  result = Return (false, T_no_rights, None) ∧
  (∃ gate_alerts t,
     Postomat.security_alerts (station w') =
       Postomat.security_alerts (station w) ++ gate_alerts ++
         [Alert.mk t "unauthorized_access" (T_alert_unauthorized tracking_number)] ∧
     Forall (λ a, Alert.type a = "suspicious_activity") gate_alerts) ∧
  same_store w w' ∧
  (Postomat.security_level (station w) = SecurityLevel.HIGH →
     Postomat.is_operational (station w') = false).
Proof.
  intros Hgate Hindexed Hp Hid result w'. subst result w'.
  destruct (_check_security clock user_id "receive" w) as [r w1] eqn:Hgate'.
  simpl in Hgate. subst r.
  rewrite (receive_parcel_eq _ _ _ _ _ _ Hgate'), Hindexed, Hp.
  rewrite bool_decide_eq_true_2 by done. simpl. split; [done|].
  assert (bool_decide ("unauthorized_access" ∈ ["unauthorized_access"; "suspicious_activity"])
          = true) as Hin by (vm_compute; reflexivity).
  unfold alerted. rewrite Hin, andb_true_r.
  rewrite check_security_eq in Hgate'.
  destruct (Postomat.is_operational (station w)); simpl in Hgate'; [|done].
  destruct (_ >? 50).
  - destruct (bool_decide_reflect (Postomat.security_level (station w) = SecurityLevel.HIGH))
      as [Hhigh|Hlow]; [done|].
    injection Hgate' as _ <-. simpl.
    rewrite bool_decide_eq_false_2 by done. simpl.
    split; [|by split]. eexists [_], _. rewrite <- app_assoc. split; [done|].
    by repeat constructor.
  - injection Hgate' as _ <-. simpl.
    destruct (bool_decide_reflect (Postomat.security_level (station w) = SecurityLevel.HIGH))
      as [Hhigh|Hlow]; simpl.
    + split; [|by split]. eexists [], _. split; [done|]. constructor.
    + split; [|by split]. eexists [], _. split; [done|]. constructor.
Qed.

End Receive.

(* ===================================================================== *)
(** * Maintenance                                                          *)
(* ===================================================================== *)

(** What one pass of the repair loop may do to a locker. *)
Definition serviced (l l' : Locker.t) : Prop :=
  if Locker.is_functional l
  then ∃ t, l' = Locker.set_last_maintenance (Some t) l
  else l' = l ∨
       ∃ t, l' = Locker.set_last_maintenance (Some t) (Locker.set_is_functional true l).

Definition broken_count (ls : list Locker.t) : Z :=
  len (filter (λ l, Is_true (is_broken l)) ls).

(** Two reports that differ at most in the two counters and the issues. *)
Definition same_header (r r' : Report.t) : Prop :=
  Report.timestamp r' = Report.timestamp r ∧
  Report.technician r' = Report.technician r ∧
  Report.lockers_checked r' = Report.lockers_checked r ∧
  Report.broken_before r' = Report.broken_before r ∧
  Report.broken_after r' = Report.broken_after r.

Section Maintenance.
Context (clock : nat → Time) (rng : nat → N).

Lemma broken_count_cons l ls :
  broken_count (l :: ls) =
    (if Locker.is_functional l then 0 else 1) + broken_count ls.
Proof.
  unfold broken_count, len, is_broken. rewrite filter_cons.
  destruct (Locker.is_functional l); case_decide; simpl in *; (done || lia).
Qed.

Lemma broken_count_nonneg ls : 0 ≤ broken_count ls.
Proof. unfold broken_count, len. lia. Qed.

Lemma maintenance_loop_spec suf : ∀ pre report w,
  Postomat.lockers (station w) = pre ++ suf →
  ∃ report' suf' w',
    maintenance_loop clock rng (seq (length pre) (length suf)) report w =
      (Return report', w') ∧
    station w' = Postomat.set_lockers (pre ++ suf') (station w) ∧
    heap w' = heap w ∧
    Forall2 serviced suf suf' ∧
    same_header report report' ∧
    Report.lockers_repaired report ≤ Report.lockers_repaired report' ∧
    Report.lockers_repaired report' + Report.failed_repairs report' =
      Report.lockers_repaired report + Report.failed_repairs report + broken_count suf ∧
    Report.failed_repairs report' = Report.failed_repairs report + broken_count suf' ∧
    ((∀ k, (repair_threshold ≤ rng k)%N) →
       Report.lockers_repaired report' = Report.lockers_repaired report).
Proof.
  induction suf as [|l suf IH]; intros pre report w Hbank.
  - exists report, [], w. simpl. rewrite app_nil_r in *. split; [done|].
    split; [by destruct w as [h [] c r]; simpl in *; subst|].
    split; [done|]. split; [constructor|]. split; [done|].
    unfold broken_count, len. simpl. repeat split; lia.
  - assert (Postomat.lockers (station w) !! length pre = Some l) as Hl.
    { rewrite Hbank. by rewrite list_lookup_middle. }
    assert (∀ l', <[length pre := l']> (Postomat.lockers (station w)) =
                  (pre ++ [l']) ++ suf) as Hins.
    { intros l'. rewrite Hbank, <- app_assoc. simpl.
      rewrite insert_app_r_alt by lia. by rewrite Nat.sub_diag. }
    assert (∀ l', length (pre ++ [l']) = S (length pre)) as Hlen.
    { intros l'. rewrite length_app. simpl. lia. }
    simpl length. simpl seq. simpl maintenance_loop.
    unfold mbind at 1. unfold M_bind at 1. unfold get_locker at 1. rewrite Hl.
    unfold mbind at 1. unfold M_bind at 1.
    destruct (Locker.is_functional l) eqn:Hfun; simpl negb; cbv iota.
    + (* a functional locker: the timestamp only *)
      unfold_monad. simpl.
      set (l' := Locker.mk _ _ _ _ _ _).
      set (w1 := mkWorld _ _ _ _).
      destruct (IH (pre ++ [l']) report w1) as
        (report' & suf' & w' & Hrun & Hst & Hheap & Hall & Hhead & Hle & Hsum & Hfail & Hzero).
      { subst w1. simpl. apply Hins. }
      rewrite Hlen in Hrun. exists report', (l' :: suf'), w'.
      split; [exact Hrun|]. split.
      { rewrite Hst. subst w1. simpl. by rewrite <- app_assoc. }
      split; [done|]. split.
      { constructor; [|done]. unfold serviced. rewrite Hfun. eexists.
        subst l'. simpl. by rewrite Hfun. }
      split; [done|]. split; [done|].
      rewrite !broken_count_cons, Hfun. subst l'. simpl.
      rewrite ?Hfun. split; [lia|]. split; [lia|]. done.
    + (* a broken locker: one draw decides *)
      unfold repair. unfold_monad. simpl.
      destruct (rng (random_calls w) <? repair_threshold)%N eqn:Hdraw; simpl.
      * rewrite Hl. simpl.
        set (l' := Locker.mk _ _ _ _ _ _).
        set (w1 := mkWorld _ _ _ _).
        set (report1 := Report.mk _ _ _ _ _ _ _ _).
        destruct (IH (pre ++ [l']) report1 w1) as
          (report' & suf' & w' & Hrun & Hst & Hheap & Hall & Hhead & Hle & Hsum & Hfail & Hzero).
        { subst w1. simpl. apply Hins. }
        rewrite Hlen in Hrun. exists report', (l' :: suf'), w'.
        split; [exact Hrun|]. split.
        { rewrite Hst. subst w1. simpl. by rewrite <- app_assoc. }
        split; [done|]. split.
        { constructor; [|done]. unfold serviced. rewrite Hfun. right. by eexists. }
        split; [exact Hhead|].
        rewrite !broken_count_cons, Hfun. subst l' report1. simpl in *.
        split; [lia|]. split; [lia|]. split; [lia|].
        intros Hforced. specialize (Hforced (random_calls w)).
        apply N.ltb_lt in Hdraw. lia.
      * set (w1 := mkWorld _ _ _ _).
        set (report1 := Report.mk _ _ _ _ _ _ _ _).
        destruct (IH (pre ++ [l]) report1 w1) as
          (report' & suf' & w' & Hrun & Hst & Hheap & Hall & Hhead & Hle & Hsum & Hfail & Hzero).
        { subst w1. simpl. by rewrite Hbank, <- app_assoc. }
        rewrite Hlen in Hrun. exists report', (l :: suf'), w'.
        split; [exact Hrun|]. split.
        { rewrite Hst. subst w1. simpl. by rewrite <- app_assoc. }
        split; [done|]. split.
        { constructor; [|done]. unfold serviced. rewrite Hfun. by left. }
        split; [exact Hhead|].
        rewrite !broken_count_cons, Hfun. subst report1. simpl in *.
        split; [lia|]. split; [lia|]. split; [lia|].
        intros Hforced. by apply Hzero.
Qed.

Lemma issues_keep_counters (ls : list Locker.t) : ∀ report,
  let report' :=
    foldl (λ r l, Report.add_issue (T_was_broken (Locker.number l)) r) report ls in
  same_header report report' ∧
  Report.lockers_repaired report' = Report.lockers_repaired report ∧
  Report.failed_repairs report' = Report.failed_repairs report.
Proof.
  induction ls as [|l ls IH]; intros report; simpl; [done|].
  destruct (IH (Report.add_issue (T_was_broken (Locker.number l)) report))
    as ((?&?&?&?&?) & ? & ?).
  simpl in *. unfold same_header. repeat split; congruence.
Qed.

(** A run of [perform_maintenance]: what it returns and what it leaves of
    the bank, the parcels and the log. *)
Lemma perform_maintenance_run technician w :
  let result := (perform_maintenance clock rng technician w).1 in
  let w' := (perform_maintenance clock rng technician w).2 in
  let bank := Postomat.lockers (station w) in
  (technician = "" → result = Raise (ValueError T_technician_required) ∧ w' = w) ∧
  (technician ≠ "" → ∃ report,
     result = Return report ∧
     Report.technician report = technician ∧
     Report.lockers_checked report = len bank ∧
     Report.broken_before report = broken_count bank ∧
     0 ≤ Report.lockers_repaired report ∧ 0 ≤ Report.failed_repairs report ∧
     Report.lockers_repaired report + Report.failed_repairs report =
       Report.broken_before report ∧
     Report.broken_after report = Report.failed_repairs report ∧
     Report.broken_after report = broken_count (Postomat.lockers (station w')) ∧
     Forall2 serviced bank (Postomat.lockers (station w')) ∧
     (∀ i l, bank !! i = Some l → Locker.is_functional l = true →
        ∃ t, Postomat.lockers (station w') !! i =
               Some (Locker.set_last_maintenance (Some t) l)) ∧
     heap w' = heap w ∧
     Postomat.parcels (station w') = Postomat.parcels (station w) ∧
     Postomat.maintenance_log (station w') =
       Postomat.maintenance_log (station w) ++ [report] ∧
     (∃ ls log, station w' =
        Postomat.set_maintenance_log log (Postomat.set_lockers ls (station w))) ∧
     ((∀ k, (repair_threshold ≤ rng k)%N) →
        Report.broken_after report = Report.broken_before report ∧
        Report.failed_repairs report = Report.broken_before report ∧
        Report.lockers_repaired report = 0)).
Proof.
  intros result w' bank. subst result w'.
  destruct (decide (technician = "")) as [Hempty|Hname].
  { unfold perform_maintenance. rewrite bool_decide_eq_true_2 by done.
    split; [done|]. intros []. done. }
  split; [done|]. intros _.
  destruct (perform_maintenance clock rng technician w) as [res w'] eqn:Hpm. simpl.
  unfold perform_maintenance in Hpm. rewrite bool_decide_eq_false_2 in Hpm by done.
  unfold mbind at 1 in Hpm. unfold M_bind at 1 in Hpm. unfold get_station at 1 in Hpm.
  unfold mbind at 1 in Hpm. unfold M_bind at 1 in Hpm. unfold now at 1 in Hpm.
  fold bank in Hpm.
  set (w1 := mkWorld _ _ _ _) in Hpm.
  set (report0 := Report.mk _ _ _ _ _ _ _ _) in Hpm.
  set (report1 := foldl _ report0 _) in Hpm.
  destruct (issues_keep_counters (filter (λ l, Is_true (is_broken l)) bank) report0)
    as ((Hts & Htech & Hchecked & Hbefore & Hafter) & Hrep1 & Hfail1).
  fold report1 in Hts, Htech, Hchecked, Hbefore, Hafter, Hrep1, Hfail1.
  destruct (maintenance_loop_spec bank [] report1 w1 eq_refl)
    as (report2 & bank' & w2 & Hrun & Hst & Hheap & Hall &
        (Hts2 & Htech2 & Hchecked2 & Hbefore2 & Hafter2) & Hle & Hsum & Hfail & Hzero).
  simpl length in Hrun.
  unfold mbind at 1 in Hpm. unfold M_bind at 1 in Hpm. rewrite Hrun in Hpm.
  unfold_monad. simpl in Hpm. rewrite Hst in Hpm. simpl in Hpm.
  injection Hpm as <- <-.
  pose proof (broken_count_nonneg bank').
  pose proof (broken_count_nonneg bank).
  subst report0. unfold broken_count in *. simpl in *.
  eexists. split; [reflexivity|]. simpl.
  split; [congruence|]. split; [congruence|]. split; [congruence|].
  split; [lia|]. split; [lia|]. split; [lia|]. split; [lia|]. split; [lia|].
  split; [done|]. split.
  { intros i l Hl Hfun.
    destruct (Forall2_lookup_l _ _ _ _ _ Hall Hl) as (l' & Hl' & Hserv).
    unfold serviced in Hserv. rewrite Hfun in Hserv. destruct Hserv as [t ->].
    by exists t. }
  split; [done|]. split; [done|]. split; [done|]. split; [by eexists _, _|].
  intros Hforced. specialize (Hzero Hforced). lia.
Qed.

(** C8. [perform_maintenance] raises [ValueError] on an empty technician name
    and changes nothing then.  Otherwise it returns a report with
    [lockers_checked] the size of the bank, [broken_before] the number of
    non-functional lockers at entry, [lockers_repaired + failed_repairs =
    broken_before] and [broken_after = failed_repairs], the number of
    lockers still broken; a locker that was functional only gets a new
    maintenance timestamp; parcels and index are untouched.  If every draw
    of the generator is at least 0.85, nothing is repaired:
    [broken_after = failed_repairs = broken_before], [lockers_repaired = 0]. *)
Theorem perform_maintenance_report technician w :
  let result := (perform_maintenance clock rng technician w).1 in
  let w' := (perform_maintenance clock rng technician w).2 in
  let bank := Postomat.lockers (station w) in
  (technician = "" → result = Raise (ValueError T_technician_required) ∧ w' = w) ∧
  (technician ≠ "" → ∃ report,
     result = Return report ∧
     Report.lockers_checked report = len bank ∧
     Report.broken_before report = broken_count bank ∧
     Report.lockers_repaired report + Report.failed_repairs report =
       Report.broken_before report ∧
     Report.broken_after report = Report.failed_repairs report ∧
     Report.broken_after report = broken_count (Postomat.lockers (station w')) ∧
     (∀ i l, bank !! i = Some l → Locker.is_functional l = true →
        ∃ t, Postomat.lockers (station w') !! i =
               Some (Locker.set_last_maintenance (Some t) l)) ∧
     heap w' = heap w ∧
     Postomat.parcels (station w') = Postomat.parcels (station w) ∧
     ((∀ k, (repair_threshold ≤ rng k)%N) →
        Report.broken_after report = Report.broken_before report ∧
        Report.failed_repairs report = Report.broken_before report ∧
        Report.lockers_repaired report = 0)).
Proof.
  intros result w' bank. subst result w' bank.
  destruct (perform_maintenance_run technician w) as [Hempty Hrun].
  split; [exact Hempty|]. intros Hname.
  destruct (Hrun Hname)
    as (report & Hres & _ & Hchecked & Hbefore & _ & _ & Hsum & Hafter & Hleft & _ &
        Hfunctional & Hheap & Hparcels & _ & _ & Hforced).
  exists report. repeat (split; [assumption|]). exact Hforced.
Qed.

End Maintenance.

(* ===================================================================== *)
(** * The invariant of the station                                         *)
(* ===================================================================== *)

(** What holds of parcels, lockers and index in every world a client can
    reach: lockers are numbered from 1 in bank order; a locker is occupied
    exactly when it holds a parcel, and then it is functional; the parcel it
    holds knows the number of the locker, is in the station or expired, and
    is indexed under its tracking code; every indexed parcel sits in a
    locker. *)
Record store_ok (h : gmap ref Parcel.t) (ls : list Locker.t)
    (ps : list (string * ref)) : Prop := {
  ok_numbers : ∀ i l, ls !! i = Some l → Locker.number l = Z.of_nat (S i);
  ok_occupied : ∀ i l, ls !! i = Some l →
    Locker.is_occupied l = true ↔ is_Some (Locker.current_parcel l);
  ok_functional : ∀ i l, ls !! i = Some l →
    Locker.is_occupied l = true → Locker.is_functional l = true;
  ok_resident : ∀ i l r, ls !! i = Some l → Locker.current_parcel l = Some r →
    ∃ p, h !! r = Some p ∧
         Parcel.locker_number p = Some (Locker.number l) ∧
         (Parcel.status p = IN_POSTOMAT ∨ Parcel.status p = EXPIRED) ∧
         dict_get (Parcel.tracking_number p) ps = Some r;
  ok_index : ∀ t r, dict_get t ps = Some r →
    ∃ p i l, h !! r = Some p ∧ Parcel.tracking_number p = t ∧
             ls !! i = Some l ∧ Locker.current_parcel l = Some r
}.

Definition Inv (w : World) : Prop :=
  store_ok (heap w) (Postomat.lockers (station w)) (Postomat.parcels (station w)).

(** A change of a locker that keeps its number, its parcel and its
    occupancy and does not break it. *)
Definition upkeep (l l' : Locker.t) : Prop :=
  Locker.number l' = Locker.number l ∧
  Locker.is_occupied l' = Locker.is_occupied l ∧
  Locker.current_parcel l' = Locker.current_parcel l ∧
  (Locker.is_functional l = true → Locker.is_functional l' = true).

Section StoreOk.
Context (h : gmap ref Parcel.t) (ls : list Locker.t) (ps : list (string * ref)).
Hypothesis Hok : store_ok h ls ps.

(** A parcel sits in at most one locker. *)
Lemma resident_unique i j l l' r :
  ls !! i = Some l → Locker.current_parcel l = Some r →
  ls !! j = Some l' → Locker.current_parcel l' = Some r → i = j.
Proof.
  intros Hi Hr Hj Hr'.
  destruct (ok_resident _ _ _ Hok _ _ _ Hi Hr) as (p & Hp & Hn & _).
  destruct (ok_resident _ _ _ Hok _ _ _ Hj Hr') as (p' & Hp' & Hn' & _).
  rewrite Hp in Hp'. injection Hp' as <-. rewrite Hn in Hn'.
  rewrite (ok_numbers _ _ _ Hok _ _ Hi), (ok_numbers _ _ _ Hok _ _ Hj) in Hn'.
  injection Hn' as Hn'. lia.
Qed.

Lemma store_ok_alloc r p : h !! r = None → store_ok (<[r := p]> h) ls ps.
Proof.
  intros Hfresh. destruct Hok as [Hnum Hocc Hfun Hres Hidx]. split; try done.
  - intros i l r' Hl Hr'. destruct (Hres _ _ _ Hl Hr') as (p' & Hp' & Hrest).
    exists p'. split; [|done]. rewrite lookup_insert_ne; [done|]. congruence.
  - intros t r' Ht. destruct (Hidx _ _ Ht) as (p' & i & l & Hp' & Hrest).
    exists p', i, l. split; [|done]. rewrite lookup_insert_ne; [done|]. congruence.
Qed.

(** Rewriting a parcel in place: the tracking code and the locker number
    stay, and a parcel kept in the station stays in the station or expires. *)
Lemma store_ok_update r p p' :
  h !! r = Some p →
  Parcel.tracking_number p' = Parcel.tracking_number p →
  Parcel.locker_number p' = Parcel.locker_number p →
  (Parcel.status p = IN_POSTOMAT ∨ Parcel.status p = EXPIRED →
   Parcel.status p' = IN_POSTOMAT ∨ Parcel.status p' = EXPIRED) →
  store_ok (<[r := p']> h) ls ps.
Proof.
  intros Hp Ht Hn Hs. destruct Hok as [Hnum Hocc Hfun Hres Hidx]. split; try done.
  - intros i l r' Hl Hr'. destruct (Hres _ _ _ Hl Hr') as (q & Hq & Hqn & Hqs & Hqi).
    destruct (decide (r' = r)) as [->|Hne].
    + rewrite Hp in Hq. injection Hq as <-. exists p'.
      rewrite lookup_insert_eq, Hn, Ht. auto.
    + exists q. rewrite lookup_insert_ne by done. auto.
  - intros t r' Hget. destruct (Hidx _ _ Hget) as (q & i & l & Hq & Hqt & Hl & Hr').
    destruct (decide (r' = r)) as [->|Hne].
    + rewrite Hp in Hq. injection Hq as <-. exists p', i, l.
      rewrite lookup_insert_eq, Ht. auto.
    + exists q, i, l. rewrite lookup_insert_ne by done. auto.
Qed.

Lemma store_ok_upkeep ls' : Forall2 upkeep ls ls' → store_ok h ls' ps.
Proof.
  intros Hall. destruct Hok as [Hnum Hocc Hfun Hres Hidx].
  assert (∀ i l', ls' !! i = Some l' → ∃ l, ls !! i = Some l ∧ upkeep l l') as Hback.
  { intros i l' Hl'. destruct (Forall2_lookup_r _ _ _ _ _ Hall Hl') as (l & ? & ?). eauto. }
  split.
  - intros i l' (l & Hl & (Hn & _))%Hback. rewrite Hn. eauto.
  - intros i l' (l & Hl & (_ & Ho & Hc & _))%Hback. rewrite Ho, Hc. eauto.
  - intros i l' (l & Hl & (_ & Ho & _ & Hf))%Hback. rewrite Ho. eauto.
  - intros i l' r (l & Hl & (Hn & _ & Hc & _))%Hback. rewrite Hn, Hc. eauto.
  - intros t r Hget. destruct (Hidx _ _ Hget) as (p & i & l & Hp & Ht & Hl & Hr).
    destruct (Forall2_lookup_l _ _ _ _ _ Hall Hl) as (l' & Hl' & (_ & _ & Hc & _)).
    exists p, i, l'. rewrite Hc. auto.
Qed.

(** One locker rewritten, the others kept. *)
Lemma upkeep_insert i l l' :
  ls !! i = Some l → upkeep l l' → Forall2 upkeep ls (<[i := l']> ls).
Proof.
  intros Hl Hup. apply Forall2_same_length_lookup_2.
  - by rewrite length_insert.
  - intros j a b Ha Hb. destruct (decide (j = i)) as [->|Hne].
    + rewrite list_lookup_insert_eq in Hb by (by eapply lookup_lt_Some).
      congruence.
    + rewrite list_lookup_insert_ne in Hb by done.
      assert (a = b) as -> by congruence. by repeat split.
Qed.

(** Breaking an empty locker. *)
Lemma store_ok_break i l :
  ls !! i = Some l → Locker.is_occupied l = false →
  store_ok h (<[i := Locker.set_is_functional false l]> ls) ps.
Proof.
  intros Hl Hfree. destruct Hok as [Hnum Hocc Hfun Hres Hidx].
  assert (∀ j l', <[i := Locker.set_is_functional false l]> ls !! j = Some l' →
            (j = i ∧ l' = Locker.set_is_functional false l) ∨ (j ≠ i ∧ ls !! j = Some l'))
    as Hcases.
  { intros j l' Hl'. destruct (decide (j = i)) as [->|Hne].
    - rewrite list_lookup_insert_eq in Hl' by (by eapply lookup_lt_Some). left.
      split; congruence.
    - rewrite list_lookup_insert_ne in Hl' by done. by right. }
  split.
  - intros j l' [[-> ->]|[_ Hl']]%Hcases; simpl; eauto.
  - intros j l' [[-> ->]|[_ Hl']]%Hcases; simpl; eauto.
  - intros j l' [[-> ->]|[_ Hl']]%Hcases; simpl; [congruence|eauto].
  - intros j l' r [[-> ->]|[_ Hl']]%Hcases; simpl; eauto.
  - intros t r Hget. destruct (Hidx _ _ Hget) as (p & j & l' & Hp & Ht & Hl' & Hr).
    destruct (decide (j = i)) as [->|Hne].
    + assert (l' = l) as -> by congruence.
      exists p, i, (Locker.set_is_functional false l).
      rewrite list_lookup_insert_eq by (by eapply lookup_lt_Some). auto.
    + exists p, j, l'. rewrite list_lookup_insert_ne by done. auto.
Qed.

End StoreOk.

(** Binding a parcel that is not indexed to a free, functional locker. *)
Lemma store_ok_send h ls ps r p i l t1 t2 :
  store_ok h ls ps →
  h !! r = Some p →
  dict_get (Parcel.tracking_number p) ps = None →
  ls !! i = Some l →
  Locker.is_occupied l = false → Locker.is_functional l = true →
  store_ok (<[r := placed_parcel t1 t2 (Locker.number l) p]> h)
           (<[i := occupied_locker r l]> ls)
           (dict_set (Parcel.tracking_number p) r ps).
Proof.
  intros Hok Hp Hnew Hl Hfree Hfun.
  pose proof Hok as [Hnum Hocc Hfunc Hres Hidx].
  assert (i < length ls)%nat as Hi by (by eapply lookup_lt_Some).
  (* the parcel sent sits in no locker *)
  assert (∀ j l', ls !! j = Some l' → Locker.current_parcel l' ≠ Some r) as Hnot.
  { intros j l' Hl' Hr. destruct (Hres _ _ _ Hl' Hr) as (q & Hq & _ & _ & Hget).
    congruence. }
  assert (∀ j l', <[i := occupied_locker r l]> ls !! j = Some l' →
            (j = i ∧ l' = occupied_locker r l) ∨ (j ≠ i ∧ ls !! j = Some l')) as Hcases.
  { intros j l' Hl'. destruct (decide (j = i)) as [->|Hne].
    - rewrite list_lookup_insert_eq in Hl' by done. left. split; congruence.
    - rewrite list_lookup_insert_ne in Hl' by done. by right. }
  split.
  - intros j l' [[-> ->]|[_ Hl']]%Hcases; simpl; eauto.
  - intros j l' [[-> ->]|[_ Hl']]%Hcases; simpl; [|eauto]. split; eauto.
  - intros j l' [[-> ->]|[_ Hl']]%Hcases; simpl; eauto.
  - intros j l' r' [[-> ->]|[Hne Hl']]%Hcases; simpl.
    + intros [= <-]. eexists. rewrite lookup_insert_eq. split; [done|]. simpl.
      split; [done|]. split; [by left|]. apply dict_get_set_eq.
    + intros Hr'. destruct (Hres _ _ _ Hl' Hr') as (q & Hq & Hqn & Hqs & Hqi).
      assert (r' ≠ r) as Hrr by (intros ->; by eapply Hnot).
      exists q. rewrite lookup_insert_ne by done. split; [done|]. split; [done|].
      split; [done|]. rewrite dict_get_set_ne; [done|]. congruence.
  - intros t r' Hget. destruct (decide (t = Parcel.tracking_number p)) as [->|Hne].
    + rewrite dict_get_set_eq in Hget. injection Hget as <-.
      eexists _, i, _. rewrite lookup_insert_eq, list_lookup_insert_eq by done. done.
    + rewrite dict_get_set_ne in Hget by done.
      destruct (Hidx _ _ Hget) as (q & j & l' & Hq & Hqt & Hl' & Hr').
      assert (r' ≠ r) as Hrr by (intros ->; by eapply Hnot).
      assert (j ≠ i) as Hji.
      { intros ->. assert (l' = l) as -> by congruence.
        destruct (Hocc _ _ Hl) as [_ Hback]. rewrite Hback in Hfree by eauto. done. }
      exists q, j, l'. rewrite lookup_insert_ne, list_lookup_insert_ne by done. done.
Qed.

(** Handing out the indexed parcel of a locker. *)
Lemma store_ok_receive h ls ps t r p p' i l :
  store_ok h ls ps →
  dict_get t ps = Some r →
  h !! r = Some p →
  ls !! i = Some l → Locker.current_parcel l = Some r →
  store_ok (<[r := p']> h) (<[i := emptied_locker l]> ls) (dict_del t ps).
Proof.
  intros Hok Hget Hp Hl Hr.
  pose proof Hok as [Hnum Hocc Hfunc Hres Hidx].
  assert (i < length ls)%nat as Hi by (by eapply lookup_lt_Some).
  assert (Parcel.tracking_number p = t) as Ht.
  { destruct (Hres _ _ _ Hl Hr) as (q & Hq & _ & _ & Hqi).
    destruct (Hidx _ _ Hget) as (q' & _ & _ & Hq' & Hqt & _). congruence. }
  assert (∀ j l', <[i := emptied_locker l]> ls !! j = Some l' →
            (j = i ∧ l' = emptied_locker l) ∨ (j ≠ i ∧ ls !! j = Some l')) as Hcases.
  { intros j l' Hl'. destruct (decide (j = i)) as [->|Hne].
    - rewrite list_lookup_insert_eq in Hl' by done. left. split; congruence.
    - rewrite list_lookup_insert_ne in Hl' by done. by right. }
  split.
  - intros j l' [[-> ->]|[_ Hl']]%Hcases; simpl; eauto.
  - intros j l' [[-> ->]|[_ Hl']]%Hcases; simpl; [|eauto].
    split; [done|]. by intros [? ?].
  - intros j l' [[-> ->]|[_ Hl']]%Hcases; simpl; [done|eauto].
  - intros j l' r' [[-> ->]|[Hne Hl']]%Hcases; simpl; [done|].
    intros Hr'. destruct (Hres _ _ _ Hl' Hr') as (q & Hq & Hqn & Hqs & Hqi).
    assert (r' ≠ r) as Hrr.
    { intros ->. apply Hne. eapply (resident_unique _ _ _ Hok); eauto. }
    exists q. rewrite lookup_insert_ne by done. split; [done|]. split; [done|].
    split; [done|]. rewrite dict_get_del_ne; [done|].
    intros Heq. rewrite <- Heq in Hqi. congruence.
  - intros t' r' Hget'. destruct (decide (t = t')) as [<-|Hne].
    { by rewrite dict_get_del_eq in Hget'. }
    rewrite dict_get_del_ne in Hget' by done.
    destruct (Hidx _ _ Hget') as (q & j & l' & Hq & Hqt & Hl' & Hr').
    assert (r' ≠ r) as Hrr by (intros ->; congruence).
    assert (j ≠ i) as Hji by (intros ->; congruence).
    exists q, j, l'. rewrite lookup_insert_ne, list_lookup_insert_ne by done. done.
Qed.

(** A fresh station. *)
Lemma store_ok_fresh bank : store_ok ∅ (_create_lockers bank) [].
Proof.
  unfold _create_lockers. split.
  - intros i l. rewrite list_lookup_imap. destruct (bank !! i); [|done].
    by intros [= <-].
  - intros i l. rewrite list_lookup_imap. destruct (bank !! i); [|done].
    intros [= <-]. simpl. split; [done|]. by intros [? ?].
  - intros i l. rewrite list_lookup_imap. destruct (bank !! i); [|done].
    by intros [= <-].
  - intros i l r. rewrite list_lookup_imap. destruct (bank !! i); [|done].
    by intros [= <-].
  - done.
Qed.

(* ===================================================================== *)
(** * Every call keeps the invariant                                       *)
(* ===================================================================== *)

Lemma Inv_same_store w w' : same_store w w' → Inv w → Inv w'.
Proof. unfold Inv. intros (-> & -> & ->). done. Qed.

Lemma serviced_upkeep l l' : serviced l l' → upkeep l l'.
Proof.
  unfold serviced, upkeep. destruct (Locker.is_functional l) eqn:Hfun.
  - intros [t ->]. simpl. by repeat split.
  - intros [->|[t ->]]; simpl; by repeat split.
Qed.

Section Preservation.
Context (clock : nat → Time) (rng : nat → N) (md5_hexdigest : string → string).

Lemma alerted_same_store alert_type description w :
  same_store w (alerted clock alert_type description w).
Proof. unfold alerted. by destruct (_ && _). Qed.

Lemma Inv_new_parcel tracking a w : Inv w → Inv (new_parcel clock tracking a w).2.
Proof.
  intros Hinv. unfold new_parcel. unfold_monad. simpl.
  apply store_ok_alloc; [done|]. apply not_elem_of_dom, is_fresh.
Qed.

Lemma Inv_send parcel user_id w :
  is_Some (heap w !! parcel) → Inv w → Inv (send_parcel clock parcel user_id w).2.
Proof.
  intros [p Hp] Hinv.
  destruct (check_security_frame clock user_id "send" w)
    as (ok & msg & w1 & Hgate & Hsame & _).
  pose proof (Inv_same_store _ _ Hsame Hinv) as Hinv1.
  destruct ok; [|by rewrite (send_parcel_denied _ _ _ _ _ _ Hgate)].
  rewrite (send_parcel_eq _ _ _ _ _ _ _ Hgate Hp).
  destruct (bool_decide_reflect
              (is_Some (dict_get (Parcel.tracking_number p) (Postomat.parcels (station w)))))
    as [|Hnew]; [done|].
  destruct (find_available_locker (station w) (Parcel.size p)) as [i|] eqn:Hfind; [|done].
  apply find_available_locker_Some in Hfind as (l & Hl & (Hfree & Hfun & Hsize) & _).
  destruct Hsame as (Hheap & Hlockers & Hparcels).
  assert (Postomat.lockers (station w1) !! i = Some l) as Hl1 by (by rewrite Hlockers).
  assert (heap w1 !! parcel = Some p) as Hp1 by (by rewrite Hheap).
  rewrite (send_into_eq _ _ _ _ _ _ Hl1 Hp1), (put_parcel_eq _ _ _ _ _ _ Hl1 Hp1).
  rewrite Hfree, Hfun. simpl.
  assert ((size_order (Parcel.size p) >? size_order (Locker.size l)) = false) as ->.
  { rewrite Z.gtb_ltb. by apply Z.ltb_ge. }
  unfold Inv. simpl. apply store_ok_send; try done.
  rewrite Hparcels. by apply eq_None_not_Some.
Qed.

(** The locker of an indexed parcel is found by its number; it is occupied
    by this parcel and functional. *)
Lemma find_locker_of_indexed w t parcel p :
  Inv w →
  dict_get t (Postomat.parcels (station w)) = Some parcel →
  heap w !! parcel = Some p →
  ∃ i l, find_locker_by_number (station w) (Parcel.locker_number p) = Some i ∧
         Postomat.lockers (station w) !! i = Some l ∧
         Locker.current_parcel l = Some parcel ∧
         Locker.is_occupied l = true ∧ Locker.is_functional l = true.
Proof.
  intros Hinv Hget Hp. pose proof Hinv as [Hnum Hocc Hfun Hres Hidx].
  destruct (Hidx _ _ Hget) as (q & j & l & Hq & Hqt & Hl & Hr).
  assert (q = p) as -> by congruence.
  destruct (Hres _ _ _ Hl Hr) as (q & Hq' & Hn & _).
  assert (q = p) as -> by congruence.
  assert (Locker.is_occupied l = true) as Ho by (apply (Hocc _ _ Hl); eauto).
  exists j, l. split; [|by eauto].
  unfold find_locker_by_number. apply fmap_Some. exists (j, l). split; [|done].
  apply list_find_Some. split; [done|]. split; [done|].
  intros j' l' Hl' Hlt Heq. rewrite Hn in Heq. injection Heq as Heq.
  rewrite (Hnum _ _ Hl), (Hnum _ _ Hl') in Heq. lia.
Qed.

(** Past the authorization check, and in a world that satisfies the
    invariant, [receive_parcel] never meets a locker fault. *)
Lemma receive_authorized_cases t parcel p w :
  Inv w →
  dict_get t (Postomat.parcels (station w)) = Some parcel →
  heap w !! parcel = Some p →
  let result := (receive_authorized clock t parcel p w).1 in
  let w' := (receive_authorized clock t parcel p w).2 in
  Inv w' ∧
  (result = Return (false, T_not_ready (Parcel.status p), None) ∨
   result = Return (false, T_storage_expired, None) ∨
   result = Return (true, T_received t, Some parcel)).
Proof.
  intros Hinv Hget Hp result w'. subst result w'. unfold receive_authorized.
  destruct (bool_decide (Parcel.status p ≠ IN_POSTOMAT)); [by auto|].
  set (step := match Parcel.storage_until p with
               | Some deadline => (clock (clock_reads w) >? deadline, tick w)
               | None => (false, w)
               end).
  assert (same_store w step.2 ∧ clock_reads w ≤ clock_reads step.2)%nat as [Hsame _].
  { subst step. destruct (Parcel.storage_until p); simpl; split; (done || lia). }
  destruct step as [expired w2]. simpl in Hsame.
  pose proof (Inv_same_store _ _ Hsame Hinv) as Hinv2.
  destruct Hsame as (Hheap & Hlockers & Hparcels).
  destruct expired.
  { simpl. split; [|by auto]. unfold Inv. simpl.
    eapply store_ok_update; [done|by rewrite Hheap|done|done|by right]. }
  destruct (find_locker_of_indexed w2 t parcel p Hinv2) as (i & l & -> & Hl & Hr & Ho & Hf).
  { by rewrite Hparcels. }
  { by rewrite Hheap. }
  rewrite (receive_from_eq _ _ _ _ _ Hl), Hf, Ho, Hr. simpl. rewrite Hheap, Hp.
  simpl. split; [|by auto]. unfold Inv. simpl.
  eapply store_ok_receive; try done.
  - by rewrite Hparcels.
  - by rewrite Hheap.
Qed.

Lemma receive_parcel_cases t recipient user_id w :
  Inv w →
  let result := (receive_parcel clock t recipient user_id w).1 in
  let w' := (receive_parcel clock t recipient user_id w).2 in
  Inv w' ∧ ∀ e, result ≠ Return (false, T_receive_error e, None).
Proof.
  intros Hinv result w'. subst result w'.
  destruct (check_security_frame clock user_id "receive" w)
    as (ok & msg & w1 & Hgate & Hsame & _).
  pose proof (Inv_same_store _ _ Hsame Hinv) as Hinv1.
  destruct ok.
  2: { rewrite (receive_parcel_denied _ _ _ _ _ _ _ Hgate). simpl. split; [done|].
       rewrite check_security_eq in Hgate.
       destruct (Postomat.is_operational (station w)); simpl in Hgate.
       - destruct (_ >? 50); [|done]. destruct (bool_decide _); [|done].
         injection Hgate as <- _. done.
       - injection Hgate as <- _. done. }
  rewrite (receive_parcel_eq _ _ _ _ _ _ _ Hgate).
  destruct (dict_get t (Postomat.parcels (station w))) as [parcel|] eqn:Hget; [|done].
  destruct (heap w !! parcel) as [p|] eqn:Hp.
  2: { destruct Hinv as [_ _ _ _ Hidx]. destruct (Hidx _ _ Hget) as (? & ? & ? & ? & _).
       congruence. }
  destruct (bool_decide (Person.id (Parcel.recipient p) ≠ Person.id recipient)).
  { simpl. split; [|done]. eapply Inv_same_store; [|exact Hinv1]. apply alerted_same_store. }
  destruct Hsame as (Hheap & Hlockers & Hparcels).
  destruct (receive_authorized_cases t parcel p w1 Hinv1) as [Hinv' Hres].
  { by rewrite Hparcels. }
  { by rewrite Hheap. }
  split; [done|]. intros e. destruct Hres as [-> | [-> | ->]]; done.
Qed.

Lemma Inv_notify t custom_message user_id w :
  Inv w → Inv (notify_recipient clock t custom_message user_id w).2.
Proof.
  intros Hinv.
  destruct (check_security_frame clock user_id "notify" w)
    as (ok & msg & w1 & Hgate & Hsame & _).
  pose proof (Inv_same_store _ _ Hsame Hinv) as Hinv1.
  unfold notify_recipient. unfold mbind at 1. unfold M_bind at 1. rewrite Hgate.
  destruct ok; simpl; [|done].
  unfold_monad. simpl.
  destruct (dict_get t (Postomat.parcels (station w1))) as [parcel|]; [|done].
  destruct (heap w1 !! parcel) as [p|]; [|done].
  done.
Qed.

Lemma Inv_maintenance technician w :
  Inv w → Inv (perform_maintenance clock rng technician w).2.
Proof.
  intros Hinv.
  destruct (perform_maintenance_run clock rng technician w) as [Hempty Hrun].
  destruct (decide (technician = "")) as [Hname|Hname].
  { destruct (Hempty Hname) as [_ ->]. done. }
  destruct (Hrun Hname)
    as (report & _ & _ & _ & _ & _ & _ & _ & _ & _ & Hall & _ & Hheap & Hparcels & _).
  unfold Inv. rewrite Hheap, Hparcels.
  eapply store_ok_upkeep; [exact Hinv|].
  eapply Forall2_impl; [exact Hall|]. apply serviced_upkeep.
Qed.

Lemma Inv_reset w : Inv w → Inv (reset_security w).2.
Proof. done. Qed.

Lemma lockers_where_elem P ls i :
  i ∈ lockers_where P ls → ∃ l, ls !! i = Some l ∧ P l = true.
Proof.
  unfold lockers_where. intros [HP _]%list_elem_of_filter.
  destruct (ls !! i) as [l|]; [|done]. exists l. split; [done|].
  by apply Is_true_true.
Qed.

Lemma Inv_break w : Inv w → Inv (break_random_locker clock rng w).2.
Proof.
  intros Hinv. unfold break_random_locker.
  unfold mbind at 1. unfold M_bind at 1. unfold get_station at 1.
  set (candidates := lockers_where _ _).
  assert (∀ i, i ∈ candidates → ∃ l, Postomat.lockers (station w) !! i = Some l ∧
            Locker.is_functional l && negb (Locker.is_occupied l) = true) as Hcand.
  { intros i Hi. by apply lockers_where_elem in Hi. }
  destruct candidates as [|c cs]; [done|].
  unfold random_choice. unfold_monad. simpl.
  destruct ((c :: cs) !! N.to_nat _) as [i|] eqn:Hpick; [|done].
  apply list_elem_of_lookup_2 in Hpick.
  destruct (Hcand _ Hpick) as (l & Hl & [Hfun Hfree%negb_true_iff]%andb_prop).
  simpl. rewrite Hl. simpl. rewrite log_security_alert_eq.
  destruct (_ && _); unfold Inv; simpl; by apply store_ok_break.
Qed.

Lemma is_expired_dangling w parcel :
  heap w !! parcel = None → is_expired clock parcel w = (Wrong, w).
Proof. intros Hp. unfold is_expired. unfold_monad. by rewrite Hp. Qed.

Lemma Inv_expiry_loop items : ∀ expired w,
  Inv w → Inv (expiry_loop clock md5_hexdigest items expired w).2.
Proof.
  induction items as [|[t parcel] items IH]; intros expired w Hinv; [done|].
  simpl expiry_loop. unfold mbind at 1. unfold M_bind at 1.
  destruct (heap w !! parcel) as [p|] eqn:Hp.
  2: { by rewrite (is_expired_dangling _ _ Hp). }
  rewrite (is_expired_eq _ _ _ _ Hp).
  set (step := match Parcel.storage_until p with
               | Some deadline => (Return (clock (clock_reads w) >? deadline), tick w)
               | None => (Return false, w)
               end).
  assert (∃ b w2, step = (Return b, w2) ∧ same_store w w2) as (b & w2 & Hstep & Hsame).
  { subst step. destruct (Parcel.storage_until p); eexists _, _; split; done. }
  change (match Parcel.storage_until p with
          | Some deadline =>
              (Return (clock (clock_reads w) >? deadline),
               mkWorld (heap w) (station w) (S (clock_reads w)) (random_calls w))
          | None => (Return false, w)
          end) with step.
  rewrite Hstep.
  pose proof (Inv_same_store _ _ Hsame Hinv) as Hinv2.
  destruct Hsame as (Hheap & _ & _).
  unfold mbind at 1. unfold M_bind at 1. unfold load at 1. rewrite Hheap, Hp.
  destruct (b && bool_decide (Parcel.status p = IN_POSTOMAT)); [|by apply IH].
  unfold mbind at 1. unfold M_bind at 1. unfold store at 1.
  unfold mbind at 1. unfold M_bind at 1. rewrite notify_eq.
  apply IH. unfold Inv. simpl.
  eapply store_ok_update; [exact Hinv2|by rewrite Hheap|done|done|by right].
Qed.

Lemma Inv_check_expired w : Inv w → Inv (check_expired_parcels clock md5_hexdigest w).2.
Proof. intros Hinv. unfold check_expired_parcels. unfold_monad. by apply Inv_expiry_loop. Qed.

Lemma Inv_exec c w :
  well_formed_call c w → Inv w → Inv (exec clock rng md5_hexdigest c w).
Proof.
  intros Hwf Hinv. destruct c; simpl.
  - by apply Inv_new_parcel.
  - by apply Inv_send.
  - by apply receive_parcel_cases.
  - by apply Inv_notify.
  - by apply Inv_maintenance.
  - by apply Inv_break.
  - by apply Inv_reset.
  - by apply Inv_check_expired.
Qed.

Lemma Inv_reachable w : reachable clock rng md5_hexdigest w → Inv w.
Proof.
  induction 1 as [id address n level bank s Hinit _|c w _ IH Hwf].
  - unfold Postomat_init in Hinit.
    destruct (_ || _); [done|]. destruct (_ <=? _); [done|].
    injection Hinit as <-. apply store_ok_fresh.
  - by apply Inv_exec.
Qed.

End Preservation.

(* ===================================================================== *)
(** * Only HIGH locks                                                      *)
(* ===================================================================== *)

(** A step that keeps the security level and, below HIGH, keeps an
    operational station operational. *)
Definition lock_frame (w w' : World) : Prop :=
  Postomat.security_level (station w') = Postomat.security_level (station w) ∧
  (Postomat.security_level (station w) ≠ SecurityLevel.HIGH →
   Postomat.is_operational (station w) = true →
   Postomat.is_operational (station w') = true).

Lemma lock_frame_refl w : lock_frame w w.
Proof. done. Qed.

Lemma lock_frame_trans w1 w2 w3 : lock_frame w1 w2 → lock_frame w2 w3 → lock_frame w1 w3.
Proof.
  unfold lock_frame. intros [Hl1 Ho1] [Hl2 Ho2]. split; [congruence|].
  intros Hlow Hop. apply Ho2; [congruence|]. by apply Ho1.
Qed.

(** A step that leaves level and flag as they are. *)
Lemma lock_frame_same w w' :
  Postomat.security_level (station w') = Postomat.security_level (station w) →
  Postomat.is_operational (station w') = Postomat.is_operational (station w) →
  lock_frame w w'.
Proof. intros Hl Ho. split; [done|]. intros _. by rewrite Ho. Qed.

Section Lock.
Context (clock : nat → Time) (rng : nat → N) (md5_hexdigest : string → string).

Lemma alerted_lock_frame alert_type description w :
  lock_frame w (alerted clock alert_type description w).
Proof.
  unfold alerted.
  destruct (bool_decide_reflect (Postomat.security_level (station w) = SecurityLevel.HIGH));
    simpl; [|done].
  by destruct (bool_decide _).
Qed.

Lemma check_security_lock_frame user_id operation w :
  lock_frame w (_check_security clock user_id operation w).2.
Proof.
  rewrite check_security_eq.
  destruct (Postomat.is_operational (station w)) eqn:Hop; simpl; [|done].
  destruct (_ >? 50); [|done].
  destruct (bool_decide_reflect (Postomat.security_level (station w) = SecurityLevel.HIGH));
    simpl; done.
Qed.

Lemma send_lock_frame parcel user_id w :
  is_Some (heap w !! parcel) → lock_frame w (send_parcel clock parcel user_id w).2.
Proof.
  intros [p Hp].
  pose proof (check_security_lock_frame user_id "send" w) as Hframe.
  destruct (check_security_frame clock user_id "send" w)
    as (ok & msg & w1 & Hgate & (Hheap & Hlockers & Hparcels) & _).
  rewrite Hgate in Hframe. simpl in Hframe.
  destruct ok; [|by rewrite (send_parcel_denied _ _ _ _ _ _ Hgate)].
  rewrite (send_parcel_eq _ _ _ _ _ _ _ Hgate Hp).
  destruct (bool_decide _); [done|].
  destruct (find_available_locker (station w) (Parcel.size p)) as [i|] eqn:Hfind; [|done].
  apply find_available_locker_Some in Hfind as (l & Hl & _).
  assert (Postomat.lockers (station w1) !! i = Some l) as Hl1 by (by rewrite Hlockers).
  assert (heap w1 !! parcel = Some p) as Hp1 by (by rewrite Hheap).
  rewrite (send_into_eq _ _ _ _ _ _ Hl1 Hp1), (put_parcel_eq _ _ _ _ _ _ Hl1 Hp1).
  eapply lock_frame_trans; [exact Hframe|].
  destruct (negb _); [done|]. destruct (Locker.is_occupied l); [done|].
  destruct (_ >? _); done.
Qed.

Lemma receive_lock_frame t recipient user_id w :
  lock_frame w (receive_parcel clock t recipient user_id w).2.
Proof.
  pose proof (check_security_lock_frame user_id "receive" w) as Hframe.
  destruct (check_security_frame clock user_id "receive" w)
    as (ok & msg & w1 & Hgate & _).
  rewrite Hgate in Hframe. simpl in Hframe.
  destruct ok; [|by rewrite (receive_parcel_denied _ _ _ _ _ _ _ Hgate)].
  rewrite (receive_parcel_eq _ _ _ _ _ _ _ Hgate).
  eapply lock_frame_trans; [exact Hframe|].
  destruct (dict_get t (Postomat.parcels (station w))) as [parcel|]; [|done].
  destruct (heap w !! parcel) as [p|]; [|done].
  destruct (bool_decide (Person.id (Parcel.recipient p) ≠ Person.id recipient)).
  { apply alerted_lock_frame. }
  unfold receive_authorized.
  destruct (bool_decide (Parcel.status p ≠ IN_POSTOMAT)); [done|].
  set (step := match Parcel.storage_until p with
               | Some deadline => (clock (clock_reads w1) >? deadline, tick w1)
               | None => (false, w1)
               end).
  assert (lock_frame w1 step.2) as Hstep.
  { subst step. by destruct (Parcel.storage_until p). }
  destruct step as [expired w2]. simpl in Hstep.
  eapply lock_frame_trans; [exact Hstep|].
  destruct expired; [done|].
  unfold find_locker_by_number.
  destruct (list_find _ _) as [[i l]|] eqn:Hfind; [|done].
  apply list_find_Some in Hfind as (Hl & _). simpl.
  rewrite (receive_from_eq _ _ _ _ _ Hl).
  destruct (negb _); [done|]. destruct (negb _); [done|].
  destruct (Locker.current_parcel l) as [rp|]; [|done].
  destruct (heap w2 !! rp); done.
Qed.

Lemma notify_lock_frame t custom_message user_id w :
  lock_frame w (notify_recipient clock t custom_message user_id w).2.
Proof.
  pose proof (check_security_lock_frame user_id "notify" w) as Hframe.
  destruct (_check_security clock user_id "notify" w) as [[[ok msg]|e|] w1] eqn:Hgate;
    unfold notify_recipient; unfold mbind at 1; unfold M_bind at 1; rewrite Hgate;
    [|done..].
  simpl in Hframe. eapply lock_frame_trans; [exact Hframe|].
  destruct ok; simpl; [|done].
  unfold_monad. simpl.
  destruct (dict_get t (Postomat.parcels (station w1))) as [parcel|]; [|done].
  destruct (heap w1 !! parcel) as [p|]; done.
Qed.

Lemma maintenance_lock_frame technician w :
  lock_frame w (perform_maintenance clock rng technician w).2.
Proof.
  destruct (perform_maintenance_run clock rng technician w) as [Hempty Hrun].
  destruct (decide (technician = "")) as [Hname|Hname].
  { destruct (Hempty Hname) as [_ ->]. done. }
  destruct (Hrun Hname)
    as (report & _ & _ & _ & _ & _ & _ & _ & _ & _ & _ & _ & _ & _ & _ & Hst & _).
  destruct Hst as (ls & log & Hst). apply lock_frame_same; by rewrite Hst.
Qed.

Lemma break_lock_frame w : lock_frame w (break_random_locker clock rng w).2.
Proof.
  unfold break_random_locker.
  unfold mbind at 1. unfold M_bind at 1. unfold get_station at 1.
  destruct (lockers_where _ _) as [|c cs]; [done|].
  unfold random_choice. unfold_monad. simpl.
  destruct ((c :: cs) !! N.to_nat _) as [i|]; [|done]. simpl.
  destruct (Postomat.lockers (station w) !! i) as [l|]; [|done]. simpl.
  rewrite log_security_alert_eq.
  assert (bool_decide ("manual_failure" ∈ ["unauthorized_access"; "suspicious_activity"])
          = false) as -> by (vm_compute; reflexivity).
  rewrite andb_false_r. done.
Qed.

Lemma expiry_loop_lock_frame items : ∀ expired w,
  lock_frame w (expiry_loop clock md5_hexdigest items expired w).2.
Proof.
  induction items as [|[t parcel] items IH]; intros expired w; [done|].
  simpl expiry_loop. unfold mbind at 1. unfold M_bind at 1.
  destruct (heap w !! parcel) as [p|] eqn:Hp.
  2: { by rewrite (is_expired_dangling _ _ _ Hp). }
  rewrite (is_expired_eq _ _ _ _ Hp).
  destruct (Parcel.storage_until p) as [deadline|].
  - unfold mbind at 1. unfold M_bind at 1. unfold load at 1. simpl. rewrite Hp.
    destruct (_ && _).
    + unfold mbind at 1. unfold M_bind at 1. unfold store at 1.
      unfold mbind at 1. unfold M_bind at 1. rewrite notify_eq.
      eapply lock_frame_trans; [|apply IH]. done.
    + eapply lock_frame_trans; [|apply IH]. done.
  - unfold mbind at 1. unfold M_bind at 1. unfold load at 1. rewrite Hp.
    simpl. apply IH.
Qed.

Lemma exec_lock_frame c w :
  well_formed_call c w → lock_frame w (exec clock rng md5_hexdigest c w).
Proof.
  intros Hwf. destruct c; simpl.
  - done.
  - by apply send_lock_frame.
  - apply receive_lock_frame.
  - apply notify_lock_frame.
  - apply maintenance_lock_frame.
  - apply break_lock_frame.
  - done.
  - unfold check_expired_parcels. unfold_monad. apply expiry_loop_lock_frame.
Qed.

(** Under LOW and MEDIUM a reachable station is never locked. *)
Lemma reachable_operational_below_high w :
  reachable clock rng md5_hexdigest w →
  Postomat.security_level (station w) ≠ SecurityLevel.HIGH →
  Postomat.is_operational (station w) = true.
Proof.
  induction 1 as [id address n level bank s Hinit _|c w _ IH Hwf].
  - unfold Postomat_init in Hinit.
    destruct (_ || _); [done|]. destruct (_ <=? _); [done|].
    by injection Hinit as <-.
  - destruct (exec_lock_frame c w Hwf) as [Hlevel Hop].
    rewrite Hlevel. intros Hlow. by apply Hop; [|apply IH].
Qed.

End Lock.

(* ===================================================================== *)
(** * The properties of the reachable worlds                               *)
(* ===================================================================== *)

Section Reachable.
Context (clock : nat → Time) (rng : nat → N) (md5_hexdigest : string → string).


(** C10. In every reachable world an occupied locker is functional, and
    [receive_parcel] never reports a locker fault: the branches of [open]
    and [take_parcel] that raise are not taken. *)
Theorem occupied_lockers_are_functional w :
  reachable clock rng md5_hexdigest w →
  (∀ i l, Postomat.lockers (station w) !! i = Some l →
          Locker.is_occupied l = true → Locker.is_functional l = true) ∧
  (∀ tracking_number recipient user_id e,
     (receive_parcel clock tracking_number recipient user_id w).1 ≠
       Return (false, T_receive_error e, None)).
Proof.
  intros Hreach. pose proof (Inv_reachable _ _ _ _ Hreach) as Hinv. split.
  - apply (ok_functional _ _ _ Hinv).
  - intros t recipient user_id. by apply receive_parcel_cases.
Qed.

End Reachable.

Lemma sample_w_sent_reachable level :
  reachable Sample.day_clock Sample.rng_zero Sample.md5_stub (Sample.w_sent level).
Proof.
  apply reachable_call; [apply reachable_call|].
  - by apply (reachable_fresh _ _ _ "PM1" "Minsk" 3 level [SMALL; LARGE; MEDIUM]).
  - done.
  - eexists. vm_compute. reflexivity.
Qed.

Lemma sample_w_sent_fast_reachable :
  reachable Sample.two_day_clock Sample.rng_zero Sample.md5_stub Sample.w_sent_fast.
Proof.
  apply reachable_call; [apply reachable_call|].
  - by apply (reachable_fresh _ _ _ "PM1" "Minsk" 3 SecurityLevel.LOW [SMALL; LARGE; MEDIUM]).
  - done.
  - eexists. vm_compute. reflexivity.
Qed.



Lemma occupied_lockers_are_functional_witness :
  (∀ i l, Postomat.lockers (station (Sample.w_sent SecurityLevel.LOW)) !! i = Some l →
          Locker.is_occupied l = true → Locker.is_functional l = true) ∧
  (∀ tracking_number recipient user_id e,
     (receive_parcel Sample.day_clock tracking_number recipient user_id
        (Sample.w_sent SecurityLevel.LOW)).1 ≠
       Return (false, T_receive_error e, None)).
Proof.
  exact (occupied_lockers_are_functional Sample.day_clock Sample.rng_zero Sample.md5_stub
           (Sample.w_sent SecurityLevel.LOW) (sample_w_sent_reachable SecurityLevel.LOW)).
Defined.

(* ===================================================================== *)
(** * The sample run                                                       *)
(* ===================================================================== *)

(** The 51st operation of one user: denied and locking under HIGH, let
    through under LOW. *)
Lemma security_gate_threshold_witness :
  ((_check_security Sample.day_clock "u" "notify" (Sample.w_fifty SecurityLevel.HIGH)).1 =
     Return (false, T_suspicious_blocked) ∧
   Postomat.is_operational
     (station (_check_security Sample.day_clock "u" "notify"
                 (Sample.w_fifty SecurityLevel.HIGH)).2) = false) ∧
  ((_check_security Sample.day_clock "u" "notify" (Sample.w_fifty SecurityLevel.LOW)).1 =
     Return (true, T_ok) ∧
   Postomat.is_operational
     (station (_check_security Sample.day_clock "u" "notify"
                 (Sample.w_fifty SecurityLevel.LOW)).2) = true).
Proof.
  split.
  - refine (proj1 (proj2 (proj2 (security_gate_threshold Sample.day_clock "u" "notify"
                                   (Sample.w_fifty SecurityLevel.HIGH) _ _))) _).
    + vm_compute. reflexivity.
    + vm_compute. reflexivity.
    + vm_compute. reflexivity.
  - refine (proj2 (proj2 (proj2 (security_gate_threshold Sample.day_clock "u" "notify"
                                   (Sample.w_fifty SecurityLevel.LOW) _ _))) _).
    + vm_compute. reflexivity.
    + vm_compute. reflexivity.
    + vm_compute. discriminate.
Defined.



(** Bob claims the parcel addressed to Alice. *)
Lemma receive_parcel_unauthorized_witness :
  (receive_parcel Sample.day_clock "ABC0000000001" Sample.bob "u"
     (Sample.w_sent SecurityLevel.LOW)).1 = Return (false, T_no_rights, None).
Proof.
  refine (proj1 (receive_parcel_unauthorized Sample.day_clock "ABC0000000001" Sample.bob
                   "u" (Sample.w_sent SecurityLevel.LOW) T_ok 0%nat
                   (Parcel.mk "ABC0000000001" Sample.carol Sample.alice MEDIUM "books"
                      IN_POSTOMAT 0 (Some 86400000000) None (Some 2) 3
                      (Some 432000000000)) _ _ _ _)).
  - vm_compute. reflexivity.
  - vm_compute. reflexivity.
  - vm_compute. reflexivity.
  - simpl. discriminate.
Defined.

(** Under HIGH the first wrong claim locks the station; the second wrong
    claim on the same indexed parcel is then refused by the gate with the
    lock message, and no alert is appended.  And a wrong claim on a parcel
    that the sweep has expired, which is still indexed, leaves it expired. *)
Lemma receive_unauthorized_on_locked_station :
  reachable Sample.day_clock Sample.rng_zero Sample.md5_stub Sample.w_locked ∧
  dict_get "ABC0000000001" (Postomat.parcels (station Sample.w_locked)) = Some 0%nat ∧
  (∃ p, heap Sample.w_locked !! 0%nat = Some p ∧
        Person.id (Parcel.recipient p) ≠ Person.id Sample.bob ∧
        Parcel.status p = IN_POSTOMAT) ∧
  (receive_parcel Sample.day_clock "ABC0000000001" Sample.bob "u" Sample.w_locked).1 =
    Return (false, T_station_locked, None) ∧
  (receive_parcel Sample.day_clock "ABC0000000001" Sample.bob "u" Sample.w_locked).1 ≠
    Return (false, T_no_rights, None) ∧
  Postomat.security_alerts
    (station (receive_parcel Sample.day_clock "ABC0000000001" Sample.bob "u"
                Sample.w_locked).2) =
    Postomat.security_alerts (station Sample.w_locked) ∧
  dict_get "ABC0000000001" (Postomat.parcels (station Sample.w_swept)) = Some 0%nat ∧
  (receive_parcel Sample.two_day_clock "ABC0000000001" Sample.bob "u" Sample.w_swept).1 =
    Return (false, T_no_rights, None) ∧
  (∃ p, heap (receive_parcel Sample.two_day_clock "ABC0000000001" Sample.bob "u"
                Sample.w_swept).2 !! 0%nat = Some p ∧
        Parcel.status p = EXPIRED ∧ Parcel.status p ≠ IN_POSTOMAT).
Proof.
  split; [apply reachable_call; [apply sample_w_sent_reachable|done]|].
  split; [vm_compute; reflexivity|]. split.
  { eexists. split; [vm_compute; reflexivity|]. split; [simpl; discriminate|reflexivity]. }
  split; [vm_compute; reflexivity|]. split; [vm_compute; discriminate|].
  split; [vm_compute; reflexivity|]. split; [vm_compute; reflexivity|].
  split; [vm_compute; reflexivity|].
  eexists. split; [vm_compute; reflexivity|]. split; [reflexivity|discriminate].
Qed.

(** One broken locker and every draw equal to 1.0: nothing is repaired. *)
Lemma perform_maintenance_report_witness :
  ∃ report,
    (perform_maintenance Sample.day_clock Sample.rng_one "tech" Sample.w_broken).1 =
      Return report ∧
    Report.broken_before report = 1 ∧ Report.broken_after report = 1 ∧
    Report.failed_repairs report = 1 ∧ Report.lockers_repaired report = 0 ∧
    Report.lockers_checked report = 3.
Proof.
  destruct (proj2 (perform_maintenance_report Sample.day_clock Sample.rng_one "tech"
                     Sample.w_broken))
    as (report & Hres & Hchecked & Hbefore & _ & _ & _ & _ & _ & _ & Hforced).
  { discriminate. }
  destruct Hforced as (Hafter & Hfailed & Hrepaired).
  { intros k. vm_compute. discriminate. }
  exists report. split; [exact Hres|].
  assert (broken_count (Postomat.lockers (station Sample.w_broken)) = 1) as Hone
    by (vm_compute; reflexivity).
  rewrite Hone in Hbefore. rewrite Hafter, Hfailed, Hrepaired, Hbefore, Hchecked.
  repeat split; reflexivity.
Defined.

(** The run of the tests: send, send again, receive, receive again. *)
Lemma sample_round_trip :
  let w1 := Sample.w_sent SecurityLevel.MEDIUM in
  let resend := send_parcel Sample.day_clock 0%nat "u" w1 in
  let receive := receive_parcel Sample.day_clock "ABC0000000001" Sample.alice "u" resend.2 in
  let again := receive_parcel Sample.day_clock "ABC0000000001" Sample.alice "u" receive.2 in
  resend.1 = Return (false, T_duplicate "ABC0000000001") ∧
  receive.1 = Return (true, T_received "ABC0000000001", Some 0%nat) ∧
  Parcel.status <$> heap receive.2 !! 0%nat = Some DELIVERED ∧
  Locker.is_occupied <$> Postomat.lockers (station receive.2) !! 1%nat = Some false ∧
  Postomat.parcels (station receive.2) = [] ∧
  again.1 = Return (false, T_not_found "ABC0000000001", None).
Proof. repeat split; vm_compute; reflexivity. Qed.


(* ===================================================================== *)
(** * The security gate in front of the client operations                  *)
(* ===================================================================== *)

Section Refusal.
Context (clock : nat → Time).

(** X1. On a locked station the three client operations are refused with
    the lock message before anything else happens: nothing is counted,
    logged, looked up or changed, whatever the arguments. *)
Theorem locked_station_refuses_clients w :
  Postomat.is_operational (station w) = false →
  (∀ parcel user_id,
     send_parcel clock parcel user_id w = (Return (false, T_station_locked), w)) ∧
  (∀ tracking_number recipient user_id,
     receive_parcel clock tracking_number recipient user_id w =
       (Return (false, T_station_locked, None), w)) ∧
  (∀ tracking_number custom_message user_id,
     notify_recipient clock tracking_number custom_message user_id w =
       (Return (false, T_station_locked), w)).
Proof.
  intros Hop. split; [|split].
  - intros parcel user_id. apply send_parcel_denied. by apply security_gate_locked.
  - intros t recipient user_id. apply receive_parcel_denied. by apply security_gate_locked.
  - intros t m user_id. unfold notify_recipient. unfold mbind at 1. unfold M_bind at 1.
    by rewrite security_gate_locked.
Qed.

Lemma sum_values_empty : sum_values ∅ = 0.
Proof. unfold sum_values. apply map_fold_empty. Qed.

(** X2. [reset_security] always succeeds; it reopens the station, empties
    the alert log and the operation counts and touches nothing else, so the
    security status reads zero everywhere, and the next operation of any
    user passes the gate and is counted as the first. *)
Theorem reset_security_reopens w :
  let w' := (reset_security w).2 in
  (reset_security w).1 = Return (true, T_security_reset) ∧
  station w' =
    Postomat.set_user_operations ∅
      (Postomat.set_security_alerts []
         (Postomat.set_is_operational true (station w))) ∧
  heap w' = heap w ∧
  get_security_status (station w') =
    SecurityStatus.mk (SecurityLevel_name (Postomat.security_level (station w)))
      true 0 0 0 [] ∧
  ∀ user_id operation,
    (_check_security clock user_id operation w').1 = Return (true, T_ok) ∧
    Postomat.user_operations (station (_check_security clock user_id operation w').2)
      = {[ user_id := 1 ]}.
Proof.
  intros w'. subst w'. split; [done|]. split; [done|]. split; [done|]. split.
  { unfold get_security_status. simpl. by rewrite sum_values_empty. }
  intros user_id operation.
  rewrite security_gate_below_threshold; [|done|].
  - split; [done|]. simpl. rewrite lookup_empty. simpl. apply insert_empty.
  - simpl. rewrite lookup_empty. simpl. lia.
Qed.

End Refusal.

Lemma locked_station_refuses_clients_witness :
  send_parcel Sample.day_clock 0%nat "u" Sample.w_locked =
    (Return (false, T_station_locked), Sample.w_locked).
Proof.
  refine (proj1 (locked_station_refuses_clients Sample.day_clock Sample.w_locked _) _ _).
  vm_compute. reflexivity.
Defined.

(* ===================================================================== *)
(** * Reminders                                                            *)
(* ===================================================================== *)

Section Notify.
Context (clock : nat → Time).

(** [notify_recipient] once the gate let the call through. *)
Lemma notify_recipient_eq tracking_number custom_message user_id w m w1 :
  _check_security clock user_id "notify" w = (Return (true, m), w1) →
  notify_recipient clock tracking_number custom_message user_id w =
    match dict_get tracking_number (Postomat.parcels (station w)) with
    | None => (Return (false, T_not_found tracking_number), w1)
    | Some parcel =>
        match heap w !! parcel with
        | None => (Wrong, w1)
        | Some p =>
            (Return (true, T_notified (Person.name (Parcel.recipient p))),
             notified clock (Parcel.recipient p) parcel
               (if bool_decide (custom_message = "") then T_reminder tracking_number
                else T_custom custom_message) w1)
        end
    end.
Proof.
  intros Hgate.
  destruct (check_security_frame clock user_id "notify" w)
    as (ok & msg & w1' & Hgate' & (Hheap & Hlockers & Hparcels) & _).
  rewrite Hgate in Hgate'. injection Hgate' as <- <- <-.
  unfold notify_recipient. unfold mbind at 1. unfold M_bind at 1. rewrite Hgate.
  unfold_monad. simpl. rewrite Hparcels.
  destruct (dict_get tracking_number (Postomat.parcels (station w))) as [parcel|];
    [|reflexivity].
  rewrite Hheap. destruct (heap w !! parcel) as [p|]; reflexivity.
Qed.

(** The gate leaves the notifications as they are. *)
Lemma check_security_notifications user_id operation w :
  Postomat.notifications (station (_check_security clock user_id operation w).2) =
    Postomat.notifications (station w).
Proof.
  rewrite check_security_eq.
  destruct (Postomat.is_operational (station w)); simpl; [|done].
  destruct (_ >? 50); [|done]. by destruct (bool_decide _).
Qed.

(** X3. A reminder that passes the gate fails with the not-found message
    when the code is not indexed, and otherwise succeeds whatever the state
    of the parcel: exactly one notification is appended, an SMS to the
    recipient recorded on the parcel, already sent at the first attempt, with
    the custom text or, when that is empty, the standard reminder.  Parcels,
    lockers and index are not touched, and the failure message of the
    notification branch is never returned. *)
Theorem notify_recipient_appends_one tracking_number custom_message user_id w m :
  (_check_security clock user_id "notify" w).1 = Return (true, m) →
  let result := (notify_recipient clock tracking_number custom_message user_id w).1 in
  let w' := (notify_recipient clock tracking_number custom_message user_id w).2 in
  same_store w w' ∧
  result ≠ Return (false, T_notify_failed) ∧
  (dict_get tracking_number (Postomat.parcels (station w)) = None →
     result = Return (false, T_not_found tracking_number) ∧
     Postomat.notifications (station w') = Postomat.notifications (station w)) ∧
  (∀ parcel p,
     dict_get tracking_number (Postomat.parcels (station w)) = Some parcel →
     heap w !! parcel = Some p →
     result = Return (true, T_notified (Person.name (Parcel.recipient p))) ∧
     ∃ t1 t2,
       Postomat.notifications (station w') =
         Postomat.notifications (station w) ++
           [Notification.mk (Parcel.recipient p) parcel
              (if bool_decide (custom_message = "") then T_reminder tracking_number
               else T_custom custom_message)
              SMS t1 (Some t2) true 1]).
Proof.
  intros Hgate result w'. subst result w'.
  pose proof (check_security_notifications user_id "notify" w) as Hnote.
  destruct (check_security_frame clock user_id "notify" w)
    as (ok & msg & w1 & Hgate' & Hsame & _).
  rewrite Hgate' in Hgate, Hnote. simpl in Hgate, Hnote. injection Hgate as -> ->.
  rewrite (notify_recipient_eq _ _ _ _ _ _ Hgate').
  destruct (dict_get tracking_number (Postomat.parcels (station w))) as [parcel|].
  2: { simpl. split; [done|]. split; [done|]. split; [done|]. intros ? ? [=]. }
  destruct (heap w !! parcel) as [p|] eqn:Hp.
  2: { simpl. split; [done|]. split; [done|]. split; [done|].
       intros ? ? [= <-]. congruence. }
  simpl. split; [done|]. split; [done|]. split; [done|].
  intros ? q [= <-] Hq. rewrite Hp in Hq. injection Hq as <-.
  split; [done|]. rewrite Hnote. by eexists _, _.
Qed.

End Notify.

Lemma notify_recipient_appends_one_witness :
  (notify_recipient Sample.day_clock "ABC0000000001" "" "u"
     (Sample.w_sent SecurityLevel.LOW)).1 = Return (true, T_notified "Alice").
Proof.
  refine (proj1 (proj2 (proj2 (proj2
            (notify_recipient_appends_one Sample.day_clock "ABC0000000001" "" "u"
               (Sample.w_sent SecurityLevel.LOW) T_ok _))) 0%nat
            (Parcel.mk "ABC0000000001" Sample.carol Sample.alice MEDIUM "books"
               IN_POSTOMAT 0 (Some 86400000000) None (Some 2) 3
               (Some 432000000000)) _ _)).
  - vm_compute. reflexivity.
  - vm_compute. reflexivity.
  - vm_compute. reflexivity.
Defined.


(* ===================================================================== *)
(** * Breaking a locker                                                    *)
(* ===================================================================== *)

Lemma lockers_where_nil P ls :
  lockers_where P ls = [] ↔ ∀ l, l ∈ ls → P l = false.
Proof.
  unfold lockers_where. split.
  - intros Hnil l [i Hi]%list_elem_of_lookup_1.
    destruct (P l) eqn:HP; [|done]. exfalso.
    eapply (filter_nil_not_elem_of _ _ i Hnil).
    + rewrite Hi. simpl. by rewrite HP.
    + apply elem_of_seq. apply lookup_lt_Some in Hi. lia.
  - intros Hall. induction (seq 0 (length ls)) as [|i rest IH]; [done|].
    rewrite filter_cons_False; [done|].
    destruct (ls !! i) as [l|] eqn:Hi; simpl; [|tauto].
    rewrite (Hall l); [simpl; tauto|]. by eapply list_elem_of_lookup_2.
Qed.

Section Break.
Context (clock : nat → Time) (rng : nat → N).

(** X4. [break_random_locker] fails, changing nothing, exactly when every
    locker is broken or occupied.  Otherwise it succeeds: one locker that
    was functional and free becomes non-functional and keeps its number,
    size and emptiness, every other locker, the parcels and the index stay
    as they were, one [manual_failure] alert is logged, one random value is
    consumed, and the station does not become locked under any level.  It
    never raises. *)
Theorem break_random_locker_breaks_free_locker w :
  let bank := Postomat.lockers (station w) in
  let result := (break_random_locker clock rng w).1 in
  let w' := (break_random_locker clock rng w).2 in
  ((∀ l, l ∈ bank → Locker.is_functional l = false ∨ Locker.is_occupied l = true) →
     result = Return (false, T_nothing_to_break) ∧ w' = w) ∧
  ((∃ l, l ∈ bank ∧ Locker.is_functional l = true ∧ Locker.is_occupied l = false) →
     ∃ i l,
       bank !! i = Some l ∧
       Locker.is_functional l = true ∧ Locker.is_occupied l = false ∧
       result = Return (true, T_broken (Locker.number l)) ∧
       Postomat.lockers (station w') = <[i := Locker.set_is_functional false l]> bank ∧
       heap w' = heap w ∧
       Postomat.parcels (station w') = Postomat.parcels (station w) ∧
       Postomat.security_alerts (station w') =
         Postomat.security_alerts (station w) ++
           [Alert.mk (clock (clock_reads w)) "manual_failure"
              (T_alert_manual (Locker.number l))] ∧
       Postomat.is_operational (station w') = Postomat.is_operational (station w) ∧
       random_calls w' = S (random_calls w)).
Proof.
  intros bank result w'. subst bank result w'.
  destruct (break_random_locker clock rng w) as [res w'] eqn:Hrun. simpl.
  unfold break_random_locker in Hrun.
  unfold mbind at 1 in Hrun. unfold M_bind at 1 in Hrun. unfold get_station at 1 in Hrun.
  set (P := λ l, Locker.is_functional l && negb (Locker.is_occupied l)) in Hrun.
  pose proof (lockers_where_nil P (Postomat.lockers (station w))) as Hnil.
  pose proof (λ i, lockers_where_elem P (Postomat.lockers (station w)) i) as Helem.
  destruct (lockers_where P (Postomat.lockers (station w))) as [|c cs].
  - injection Hrun as <- <-. split; [done|]. intros (l & Hl & Hfun & Hfree). exfalso.
    pose proof (proj1 Hnil eq_refl l Hl) as HP. subst P. simpl in HP.
    by rewrite Hfun, Hfree in HP.
  - split.
    { intros Hall. exfalso.
      assert (c :: cs = []) as Habs; [|done].
      apply Hnil. intros l Hl. subst P. simpl.
      destruct (Hall l Hl) as [-> | ->]; [done|]. apply andb_false_r. }
    intros _. unfold random_choice in Hrun. unfold_monad. simpl in Hrun.
    set (k := N.to_nat _) in Hrun.
    assert (k < length (c :: cs))%nat as Hk.
    { subst k. simpl length.
      pose proof (N.mod_upper_bound (rng (random_calls w)) (N.of_nat (S (length cs)))).
      lia. }
    destruct (lookup_lt_is_Some_2 _ _ Hk) as [i Hi]. rewrite Hi in Hrun. simpl in Hrun.
    destruct (Helem i) as (l & Hl & HP); [by eapply list_elem_of_lookup_2|].
    subst P. simpl in HP. apply andb_prop in HP as [Hfun Hfree%negb_true_iff].
    rewrite Hl in Hrun. simpl in Hrun. rewrite log_security_alert_eq in Hrun.
    assert (bool_decide ("manual_failure" ∈ ["unauthorized_access"; "suspicious_activity"])
            = false) as Hno by (vm_compute; reflexivity).
    rewrite Hno, andb_false_r in Hrun. simpl in Hrun. injection Hrun as <- <-.
    exists i, l. by repeat split.
Qed.

End Break.

(* ===================================================================== *)
(** * Maintenance when every repair succeeds                               *)
(* ===================================================================== *)

Lemma broken_count_zero ls :
  broken_count ls = 0 → ∀ l, l ∈ ls → Locker.is_functional l = true.
Proof.
  unfold broken_count, len. intros Hzero l Hl.
  destruct (Locker.is_functional l) eqn:Hfun; [done|]. exfalso.
  assert (filter (λ l, Is_true (is_broken l)) ls = []) as Hnil.
  { apply nil_length_inv. lia. }
  eapply (filter_nil_not_elem_of _ _ l Hnil); [|done].
  unfold is_broken. by rewrite Hfun.
Qed.

Section Repairs.
Context (clock : nat → Time) (rng : nat → N).

Lemma maintenance_loop_no_failure bank : ∀ report w report' w',
  (∀ k, (rng k < repair_threshold)%N) →
  maintenance_loop clock rng bank report w = (Return report', w') →
  Report.failed_repairs report' = Report.failed_repairs report.
Proof.
  induction bank as [|i bank IH]; intros report w report' w' Hdraw Hrun.
  - by injection Hrun as <- _.
  - simpl maintenance_loop in Hrun.
    unfold mbind at 1 in Hrun. unfold M_bind at 1 in Hrun. unfold get_locker at 1 in Hrun.
    destruct (Postomat.lockers (station w) !! i) as [l|] eqn:Hl; [|done].
    unfold mbind at 1 in Hrun. unfold M_bind at 1 in Hrun.
    destruct (Locker.is_functional l); simpl negb in Hrun; cbv iota in Hrun.
    + unfold_monad. simpl in Hrun. by apply IH in Hrun.
    + unfold repair in Hrun. unfold_monad. simpl in Hrun.
      rewrite (proj2 (N.ltb_lt _ _) (Hdraw _)) in Hrun. simpl in Hrun.
      rewrite Hl in Hrun. simpl in Hrun. by apply IH in Hrun.
Qed.

(** X5. When every draw of the generator is below 0.85, a maintenance run
    repairs every broken locker: the report counts [lockers_repaired =
    broken_before], [failed_repairs = 0] and [broken_after = 0], and
    afterwards every locker of the bank is functional. *)
Theorem perform_maintenance_repairs_all technician w :
  technician ≠ "" →
  (∀ k, (rng k < repair_threshold)%N) →
  ∃ report,
    (perform_maintenance clock rng technician w).1 = Return report ∧
    Report.broken_before report = broken_count (Postomat.lockers (station w)) ∧
    Report.lockers_repaired report = Report.broken_before report ∧
    Report.failed_repairs report = 0 ∧
    Report.broken_after report = 0 ∧
    ∀ l, l ∈ Postomat.lockers (station (perform_maintenance clock rng technician w).2) →
         Locker.is_functional l = true.
Proof.
  intros Hname Hdraw.
  destruct (proj2 (perform_maintenance_run clock rng technician w) Hname)
    as (report & Hres & _ & _ & Hbefore & _ & _ & Hsum & Hafter & Hleft & _).
  assert (Report.failed_repairs report = 0) as Hfailed.
  { destruct (perform_maintenance clock rng technician w) as [res w'] eqn:Hpm.
    simpl in Hres. subst res.
    unfold perform_maintenance in Hpm. rewrite bool_decide_eq_false_2 in Hpm by done.
    unfold mbind at 1 in Hpm. unfold M_bind at 1 in Hpm. unfold get_station at 1 in Hpm.
    unfold mbind at 1 in Hpm. unfold M_bind at 1 in Hpm. unfold now at 1 in Hpm.
    set (w1 := mkWorld _ _ _ _) in Hpm.
    set (report0 := Report.mk _ _ _ _ _ _ _ _) in Hpm.
    set (report1 := foldl _ report0 _) in Hpm.
    destruct (issues_keep_counters
                (filter (λ l, Is_true (is_broken l)) (Postomat.lockers (station w))) report0)
      as (_ & _ & Hfail1).
    fold report1 in Hfail1.
    unfold mbind at 1 in Hpm. unfold M_bind at 1 in Hpm.
    destruct (maintenance_loop clock rng _ report1 w1) as [[report2| |] w2] eqn:Hloop;
      [|done..].
    apply maintenance_loop_no_failure in Hloop; [|done].
    unfold_monad. simpl in Hpm. injection Hpm as <- _. simpl.
    rewrite Hloop, Hfail1. done. }
  exists report. split; [done|]. split; [done|]. split; [lia|]. split; [done|].
  split; [lia|]. apply broken_count_zero. lia.
Qed.

End Repairs.

Lemma perform_maintenance_repairs_all_witness :
  ∃ report,
    (perform_maintenance Sample.day_clock Sample.rng_zero "tech" Sample.w_broken).1 =
      Return report ∧
    Report.lockers_repaired report = 1 ∧ Report.broken_after report = 0.
Proof.
  destruct (perform_maintenance_repairs_all Sample.day_clock Sample.rng_zero "tech"
              Sample.w_broken)
    as (report & Hres & Hbefore & Hrepaired & _ & Hafter & _).
  { discriminate. }
  { intros k. vm_compute. reflexivity. }
  exists report. split; [exact Hres|]. split; [|exact Hafter].
  rewrite Hrepaired, Hbefore. vm_compute. reflexivity.
Defined.

(* ===================================================================== *)
(** * Locker.put_parcel and Locker.take_parcel                             *)
(* ===================================================================== *)

Section LockerRoundTrip.
Context (clock : nat → Time).


End LockerRoundTrip.



(* ===================================================================== *)
(** * The runs of [send_parcel] and [receive_parcel]                       *)
(* ===================================================================== *)

(** The world after a successful send: the parcel bound to locker [i],
    registered in the index, and the recipient notified. *)
Definition sent (clock : nat → Time) (i : nat) (l : Locker.t) (parcel : ref)
    (p : Parcel.t) (w : World) : World :=
  notified clock (Parcel.recipient p) parcel
    (T_arrived (Parcel.tracking_number p) (Postomat.address (station w)) (Locker.number l))
    (registered (Parcel.tracking_number p) parcel (bound clock i l parcel p w)).

(** The world after a successful claim: locker [i] emptied, the parcel
    marked DELIVERED at the next reading, the code removed from the index. *)
Definition released (clock : nat → Time) (i : nat) (l : Locker.t) (tracking : string)
    (parcel : ref) (p : Parcel.t) (w : World) : World :=
  unregistered tracking
    (with_parcel parcel
       (Parcel.set_delivered_at (Some (clock (clock_reads w)))
          (Parcel.set_status DELIVERED p))
       (tick (with_locker i (emptied_locker l) w))).

(** What the deadline test of [is_expired] does in world [w]: its answer
    and the world it leaves. *)
Definition deadline_test (clock : nat → Time) (p : Parcel.t) (w : World) : bool * World :=
  match Parcel.storage_until p with
  | None => (false, w)
  | Some deadline => (clock (clock_reads w) >? deadline, tick w)
  end.

Section Runs.
Context (clock : nat → Time).

(** Every way [send_parcel] can go on a parcel object. *)
Lemma send_parcel_run parcel user_id w p :
  heap w !! parcel = Some p →
  ∃ ok msg w1,
    _check_security clock user_id "send" w = (Return (ok, msg), w1) ∧
    same_store w w1 ∧
    Postomat.address (station w1) = Postomat.address (station w) ∧
    let run := send_parcel clock parcel user_id w in
    let tracking := Parcel.tracking_number p in
    let bank := Postomat.lockers (station w) in
    (ok = false ∧ run = (Return (false, msg), w1)) ∨
    (ok = true ∧ is_Some (dict_get tracking (Postomat.parcels (station w))) ∧
       run = (Return (false, T_duplicate tracking), w1)) ∨
    (ok = true ∧ dict_get tracking (Postomat.parcels (station w)) = None ∧
       (∀ l, l ∈ bank → ¬ available_for (size_order (Parcel.size p)) l) ∧
       run = (Return (false, T_no_locker), w1)) ∨
    (ok = true ∧ dict_get tracking (Postomat.parcels (station w)) = None ∧
       ∃ i l, bank !! i = Some l ∧ available_for (size_order (Parcel.size p)) l ∧
              run = (Return (true, T_sent tracking (Locker.number l)),
                     sent clock i l parcel p w1)).
Proof.
  intros Hp.
  destruct (check_security_frame clock user_id "send" w)
    as (ok & msg & w1 & Hgate & Hsame & Haddr & _).
  exists ok, msg, w1. split; [done|]. split; [done|]. split; [done|]. cbv zeta.
  destruct ok; [|left; split; [done|]; by apply send_parcel_denied].
  right. rewrite (send_parcel_eq _ _ _ _ _ _ _ Hgate Hp).
  destruct (bool_decide_reflect
              (is_Some (dict_get (Parcel.tracking_number p) (Postomat.parcels (station w)))))
    as [Hdup|Hnew]; [by left|].
  right. apply eq_None_not_Some in Hnew.
  destruct (find_available_locker (station w) (Parcel.size p)) as [i|] eqn:Hfind.
  2: { left. split; [done|]. split; [done|]. split; [|done].
       by apply find_available_locker_None. }
  right. split; [done|]. split; [done|].
  apply find_available_locker_Some in Hfind as (l & Hl & Hfit & _).
  pose proof Hfit as (Hfree & Hfun & Hsize).
  destruct Hsame as (Hheap & Hlockers & Hparcels).
  assert (Postomat.lockers (station w1) !! i = Some l) as Hl1 by (by rewrite Hlockers).
  assert (heap w1 !! parcel = Some p) as Hp1 by (by rewrite Hheap).
  exists i, l. split; [done|]. split; [done|].
  rewrite (send_into_eq _ _ _ _ _ _ Hl1 Hp1), (put_parcel_eq _ _ _ _ _ _ Hl1 Hp1).
  rewrite Hfree, Hfun. simpl.
  assert ((size_order (Parcel.size p) >? size_order (Locker.size l)) = false) as ->.
  { rewrite Z.gtb_ltb. by apply Z.ltb_ge. }
  reflexivity.
Qed.

(** Every way [receive_parcel] can go once the gate let the call through,
    in a world that satisfies the invariant. *)
Lemma receive_parcel_run tracking_number recipient user_id w m w1 :
  Inv w →
  _check_security clock user_id "receive" w = (Return (true, m), w1) →
  let run := receive_parcel clock tracking_number recipient user_id w in
  (dict_get tracking_number (Postomat.parcels (station w)) = None ∧
   run = (Return (false, T_not_found tracking_number, None), w1)) ∨
  ∃ parcel p i l,
    dict_get tracking_number (Postomat.parcels (station w)) = Some parcel ∧
    heap w !! parcel = Some p ∧
    Postomat.lockers (station w) !! i = Some l ∧
    Locker.current_parcel l = Some parcel ∧
    ((Person.id (Parcel.recipient p) ≠ Person.id recipient ∧
      run = (Return (false, T_no_rights, None),
             alerted clock "unauthorized_access" (T_alert_unauthorized tracking_number) w1)) ∨
     (Person.id (Parcel.recipient p) = Person.id recipient ∧
      Parcel.status p ≠ IN_POSTOMAT ∧
      run = (Return (false, T_not_ready (Parcel.status p), None), w1)) ∨
     (Person.id (Parcel.recipient p) = Person.id recipient ∧
      Parcel.status p = IN_POSTOMAT ∧
      (deadline_test clock p w1).1 = true ∧
      run = (Return (false, T_storage_expired, None),
             with_parcel parcel (Parcel.set_status EXPIRED p) (deadline_test clock p w1).2)) ∨
     (Person.id (Parcel.recipient p) = Person.id recipient ∧
      Parcel.status p = IN_POSTOMAT ∧
      (deadline_test clock p w1).1 = false ∧
      run = (Return (true, T_received tracking_number, Some parcel),
             released clock i l tracking_number parcel p (deadline_test clock p w1).2))).
Proof.
  intros Hinv Hgate. cbv zeta.
  destruct (check_security_frame clock user_id "receive" w)
    as (ok & msg & w1' & Hgate' & Hsame & _).
  rewrite Hgate in Hgate'. injection Hgate' as <- <- <-.
  pose proof (Inv_same_store _ _ Hsame Hinv) as Hinv1.
  rewrite (receive_parcel_eq _ _ _ _ _ _ _ Hgate).
  destruct (dict_get tracking_number (Postomat.parcels (station w))) as [parcel|] eqn:Hget;
    [|by left].
  right.
  destruct (ok_index _ _ _ Hinv _ _ Hget) as (p & i & l & Hp & Ht & Hl & Hr).
  exists parcel, p, i, l. rewrite Hp. repeat (split; [done|]).
  destruct (bool_decide_reflect (Person.id (Parcel.recipient p) ≠ Person.id recipient))
    as [Hid|Hid]; [by left|].
  right. apply dec_stable in Hid.
  unfold receive_authorized.
  destruct (bool_decide_reflect (Parcel.status p ≠ IN_POSTOMAT)) as [Hst|Hst]; [by left|].
  right. apply dec_stable in Hst.
  destruct Hsame as (Hheap & Hlockers & Hparcels).
  fold (deadline_test clock p w1).
  assert (same_store w1 (deadline_test clock p w1).2) as Hsame2.
  { unfold deadline_test. by destruct (Parcel.storage_until p). }
  destruct (deadline_test clock p w1) as [expired w2]. simpl in *.
  destruct expired; [by left|]. right.
  pose proof (Inv_same_store _ _ Hsame2 Hinv1) as Hinv2.
  destruct Hsame2 as (Hheap2 & Hlockers2 & Hparcels2).
  destruct (find_locker_of_indexed w2 tracking_number parcel p Hinv2)
    as (i' & l' & Hfind & Hl' & Hr' & Ho & Hf).
  { by rewrite Hparcels2, Hparcels. }
  { by rewrite Hheap2, Hheap. }
  assert (i' = i ∧ l' = l) as [-> ->].
  { rewrite Hlockers2, Hlockers in Hl'.
    assert (i' = i) as -> by (eapply (resident_unique _ _ _ Hinv); eauto).
    split; [done|]. congruence. }
  rewrite Hfind, (receive_from_eq _ _ _ _ _ Hl'), Hf, Ho, Hr'. simpl.
  rewrite Hheap2, Hheap, Hp. done.
Qed.

End Runs.

Lemma dict_del_set_fresh {V} (k : string) (v : V) (d : list (string * V)) :
  dict_get k d = None → dict_del k (dict_set k v d) = d.
Proof.
  unfold dict_del. induction d as [|[k' v'] d IH]; simpl.
  - intros _. rewrite filter_cons_False; [done|]. simpl. by intros [].
  - destruct (decide (k' = k)) as [->|Hne]; [done|]. intros Hd.
    rewrite filter_cons_True by done. by rewrite IH.
Qed.

Lemma emptied_occupied_locker parcel l :
  Locker.is_occupied l = false → Locker.current_parcel l = None →
  emptied_locker (occupied_locker parcel l) = l.
Proof. destruct l. simpl. by intros -> ->. Qed.

Section Claims.
Context (clock : nat → Time) (rng : nat → N) (md5_hexdigest : string → string).

(** X7. In a reachable world, a claim that passes the gate, names an
    indexed parcel, comes from the recorded recipient, finds the parcel
    IN_POSTOMAT and is made no later than the deadline succeeds: it returns
    the parcel, marks it DELIVERED with a delivery time, empties the locker
    that carried the number recorded on the parcel, leaves every other
    locker and parcel alone, and removes the code from the index. *)
Theorem receive_parcel_delivers tracking_number recipient user_id w m parcel p :
  reachable clock rng md5_hexdigest w →
  (_check_security clock user_id "receive" w).1 = Return (true, m) →
  dict_get tracking_number (Postomat.parcels (station w)) = Some parcel →
  heap w !! parcel = Some p →
  Person.id (Parcel.recipient p) = Person.id recipient →
  Parcel.status p = IN_POSTOMAT →
  (∀ deadline, Parcel.storage_until p = Some deadline →
     clock (clock_reads (_check_security clock user_id "receive" w).2) ≤ deadline) →
  let result := (receive_parcel clock tracking_number recipient user_id w).1 in
  let w' := (receive_parcel clock tracking_number recipient user_id w).2 in
  result = Return (true, T_received tracking_number, Some parcel) ∧
  (∃ time, heap w' =
     <[parcel := Parcel.set_delivered_at (Some time) (Parcel.set_status DELIVERED p)]>
       (heap w)) ∧
  (∃ i l, Postomat.lockers (station w) !! i = Some l ∧
          Locker.current_parcel l = Some parcel ∧
          Parcel.locker_number p = Some (Locker.number l) ∧
          Postomat.lockers (station w') =
            <[i := emptied_locker l]> (Postomat.lockers (station w))) ∧
  Postomat.parcels (station w') = dict_del tracking_number (Postomat.parcels (station w)) ∧
  dict_get tracking_number (Postomat.parcels (station w')) = None.
Proof.
  intros Hreach Hgate Hget Hp Hid Hst Hdeadline result w'. subst result w'.
  pose proof (Inv_reachable _ _ _ _ Hreach) as Hinv.
  destruct (check_security_frame clock user_id "receive" w)
    as (ok & msg & w1 & Hgate' & (Hheap & Hlockers & Hparcels) & _).
  rewrite Hgate' in Hgate, Hdeadline. simpl in Hgate, Hdeadline.
  injection Hgate as -> ->.
  assert ((deadline_test clock p w1).1 = false) as Hfresh.
  { unfold deadline_test. destruct (Parcel.storage_until p) as [deadline|]; [|done].
    simpl. rewrite Z.gtb_ltb. apply Z.ltb_ge. by apply Hdeadline. }
  assert (same_store w1 (deadline_test clock p w1).2) as (Hheap2 & Hlockers2 & Hparcels2).
  { unfold deadline_test. by destruct (Parcel.storage_until p). }
  destruct (receive_parcel_run clock tracking_number recipient user_id w m w1 Hinv Hgate')
    as [[Hnone _]|(parcel' & p' & i & l & Hget' & Hp' & Hl & Hr & Hcases)];
    [congruence|].
  assert (parcel' = parcel) as -> by congruence.
  assert (p' = p) as -> by congruence.
  destruct Hcases as [[Hno _]|[(_ & Hno & _)|[(_ & _ & Hno & _)|(_ & _ & _ & ->)]]];
    [done|done|congruence|].
  simpl. split; [done|]. split.
  { eexists. by rewrite Hheap2, Hheap. }
  split.
  { exists i, l. split; [done|]. split; [done|]. split.
    - destruct (ok_resident _ _ _ Hinv _ _ _ Hl Hr) as (q & Hq & Hn & _). congruence.
    - by rewrite Hlockers2, Hlockers. }
  rewrite Hparcels2, Hparcels. split; [done|]. apply dict_get_del_eq.
Qed.

(** X8. In a reachable world [receive_parcel] never raises.  A claim that
    fails returns no parcel and leaves lockers and index as they were; the
    parcels are untouched too, except that a claim made after the deadline
    by the recorded recipient marks the parcel EXPIRED.  A claim succeeds
    only for the recorded recipient of an indexed parcel that is
    IN_POSTOMAT, and then the parcel is DELIVERED and no longer indexed. *)
Theorem receive_parcel_failure_keeps_store tracking_number recipient user_id w :
  reachable clock rng md5_hexdigest w →
  let result := (receive_parcel clock tracking_number recipient user_id w).1 in
  let w' := (receive_parcel clock tracking_number recipient user_id w).2 in
  ∃ ok msg received,
    result = Return (ok, msg, received) ∧
    (ok = false →
       received = None ∧
       Postomat.lockers (station w') = Postomat.lockers (station w) ∧
       Postomat.parcels (station w') = Postomat.parcels (station w) ∧
       (heap w' = heap w ∨
        ∃ parcel p,
          msg = T_storage_expired ∧
          dict_get tracking_number (Postomat.parcels (station w)) = Some parcel ∧
          heap w !! parcel = Some p ∧
          Person.id (Parcel.recipient p) = Person.id recipient ∧
          Parcel.status p = IN_POSTOMAT ∧
          heap w' = <[parcel := Parcel.set_status EXPIRED p]> (heap w))) ∧
    (ok = true →
       ∃ parcel p,
         received = Some parcel ∧
         dict_get tracking_number (Postomat.parcels (station w)) = Some parcel ∧
         heap w !! parcel = Some p ∧
         Person.id (Parcel.recipient p) = Person.id recipient ∧
         Parcel.status p = IN_POSTOMAT ∧
         Parcel.status <$> heap w' !! parcel = Some DELIVERED ∧
         dict_get tracking_number (Postomat.parcels (station w')) = None).
Proof.
  intros Hreach result w'. subst result w'.
  pose proof (Inv_reachable _ _ _ _ Hreach) as Hinv.
  destruct (check_security_frame clock user_id "receive" w)
    as (ok & msg & w1 & Hgate & (Hheap & Hlockers & Hparcels) & _).
  destruct ok.
  2: { rewrite (receive_parcel_denied _ _ _ _ _ _ _ Hgate). simpl.
       exists false, msg, None. split; [done|]. split; [|done]. intros _. by auto. }
  destruct (receive_parcel_run clock tracking_number recipient user_id w msg w1 Hinv Hgate)
    as [[Hnone ->]|(parcel & p & i & l & Hget & Hp & Hl & Hr & Hcases)].
  { simpl. eexists false, _, None. split; [done|]. split; [|done]. intros _. by auto. }
  assert (same_store w1 (deadline_test clock p w1).2) as (Hheap2 & Hlockers2 & Hparcels2).
  { unfold deadline_test. by destruct (Parcel.storage_until p). }
  destruct Hcases as [[Hid ->]|[(Hid & Hst & ->)|[(Hid & Hst & Hlate & ->)|(Hid & Hst & _ & ->)]]].
  - simpl. eexists false, _, None. split; [done|]. split; [|done]. intros _.
    destruct (alerted_same_store clock "unauthorized_access"
                (T_alert_unauthorized tracking_number) w1) as (Hh & Hls & Hps).
    split; [done|]. rewrite Hh, Hls, Hps. by auto.
  - simpl. eexists false, _, None. split; [done|]. split; [|done]. intros _. by auto.
  - simpl. eexists false, _, None. split; [done|]. split; [|done]. intros _.
    split; [done|]. rewrite Hlockers2, Hparcels2, Hheap2, Hheap.
    split; [done|]. split; [done|]. right. exists parcel, p. by repeat split.
  - simpl. eexists true, _, _. split; [done|]. split; [done|]. intros _.
    exists parcel, p. repeat (split; [done|]). split.
    + by rewrite lookup_insert_eq.
    + apply dict_get_del_eq.
Qed.

(** X9. Send and claim are inverse to each other on the bank: when, from a
    reachable world, a send succeeds and the claim of that code that follows
    it succeeds, the claim returns the parcel that was sent, every locker
    and the index are again exactly what they were before the send, no other
    parcel has changed, and the parcel is DELIVERED. *)
Theorem send_then_receive_restores_bank parcel p user_id recipient claimant w m m' received :
  reachable clock rng md5_hexdigest w →
  heap w !! parcel = Some p →
  let w1 := (send_parcel clock parcel user_id w).2 in
  let claim := receive_parcel clock (Parcel.tracking_number p) recipient claimant w1 in
  (send_parcel clock parcel user_id w).1 = Return (true, m) →
  claim.1 = Return (true, m', received) →
  received = Some parcel ∧
  Postomat.lockers (station claim.2) = Postomat.lockers (station w) ∧
  Postomat.parcels (station claim.2) = Postomat.parcels (station w) ∧
  Parcel.status <$> heap claim.2 !! parcel = Some DELIVERED ∧
  ∀ r, r ≠ parcel → heap claim.2 !! r = heap w !! r.
Proof.
  intros Hreach Hp w1 claim Hsend Hclaim. subst w1 claim.
  pose proof (Inv_reachable _ _ _ _ Hreach) as Hinv.
  pose proof (Inv_send clock parcel user_id w (mk_is_Some _ _ Hp) Hinv) as Hinv1.
  destruct (send_parcel_run clock parcel user_id w p Hp)
    as (ok & msg & wg & Hgate & (Hheap & Hlockers & Hparcels) & _ & Hcases).
  cbv zeta in Hcases.
  destruct Hcases as [[_ Hrun]|[(_ & _ & Hrun)|[(_ & _ & _ & Hrun)|
                      (_ & Hnew & i & l & Hl & (Hfree & Hfun & _) & Hrun)]]];
    rewrite Hrun in Hsend; try done.
  rewrite Hrun in Hclaim, Hinv1 |- *. clear Hrun Hsend. simpl in Hclaim |- *.
  set (w1 := sent clock i l parcel p wg) in *.
  assert (i < length (Postomat.lockers (station w)))%nat as Hi by (by eapply lookup_lt_Some).
  assert (Locker.current_parcel l = None) as Hempty.
  { destruct (Locker.current_parcel l) as [r|] eqn:Hr; [|done].
    pose proof (proj2 (ok_occupied _ _ _ Hinv _ _ Hl) (mk_is_Some _ _ Hr)). congruence. }
  assert (heap w1 = <[parcel := placed_parcel (clock (clock_reads wg))
                                  (clock (S (clock_reads wg))) (Locker.number l) p]> (heap w))
    as Hheap1 by (subst w1; simpl; by rewrite Hheap).
  assert (Postomat.lockers (station w1) =
            <[i := occupied_locker parcel l]> (Postomat.lockers (station w)))
    as Hlockers1 by (subst w1; simpl; by rewrite Hlockers).
  assert (Postomat.parcels (station w1) =
            dict_set (Parcel.tracking_number p) parcel (Postomat.parcels (station w)))
    as Hparcels1 by (subst w1; simpl; by rewrite Hparcels).
  clearbody w1.
  destruct (check_security_frame clock claimant "receive" w1)
    as (ok' & msg' & wg' & Hgate' & _).
  destruct ok'.
  2: { rewrite (receive_parcel_denied _ _ _ _ _ _ _ Hgate') in Hclaim. done. }
  destruct (receive_parcel_run clock (Parcel.tracking_number p) recipient claimant
              w1 msg' wg' Hinv1 Hgate')
    as [[_ Hrun]|(parcel' & p' & i' & l' & Hget' & Hp' & Hl' & Hr' & Hcases)].
  { rewrite Hrun in Hclaim. done. }
  rewrite Hparcels1, dict_get_set_eq in Hget'. injection Hget' as <-.
  assert (same_store wg' (deadline_test clock p' wg').2) as (Hheap2 & Hlockers2 & Hparcels2).
  { unfold deadline_test. by destruct (Parcel.storage_until p'). }
  destruct (check_security_frame clock claimant "receive" w1)
    as (? & ? & ? & Hgate'' & (Hheapg & Hlockersg & Hparcelsg) & _).
  rewrite Hgate' in Hgate''. injection Hgate'' as <- <- <-.
  destruct Hcases as [[_ Hrun]|[(_ & _ & Hrun)|[(_ & _ & _ & Hrun)|(_ & _ & _ & Hrun)]]];
    rewrite Hrun in Hclaim |- *; try done.
  simpl in Hclaim |- *. injection Hclaim as _ <-.
  assert (i' = i ∧ l' = occupied_locker parcel l) as [-> ->].
  { assert (Postomat.lockers (station w1) !! i = Some (occupied_locker parcel l)) as Hli.
    { rewrite Hlockers1. by apply list_lookup_insert_eq. }
    assert (i' = i) as -> by (eapply (resident_unique _ _ _ Hinv1); eauto).
    split; [done|]. congruence. }
  split; [done|]. split.
  { rewrite Hlockers2, Hlockersg, Hlockers1, list_insert_insert_eq.
    rewrite emptied_occupied_locker by done. by apply list_insert_id. }
  split.
  { rewrite Hparcels2, Hparcelsg, Hparcels1. by apply dict_del_set_fresh. }
  split; [by rewrite lookup_insert_eq|].
  intros r Hr. rewrite lookup_insert_ne by done.
  rewrite Hheap2, Hheapg, Hheap1. by rewrite lookup_insert_ne.
Qed.

End Claims.

(** Alice claims her parcel on day 5, the day of the deadline. *)
Lemma receive_parcel_delivers_witness :
  (receive_parcel Sample.day_clock "ABC0000000001" Sample.alice "u"
     (Sample.w_sent SecurityLevel.LOW)).1 =
    Return (true, T_received "ABC0000000001", Some 0%nat).
Proof.
  refine (proj1 (receive_parcel_delivers Sample.day_clock Sample.rng_zero Sample.md5_stub
                   "ABC0000000001" Sample.alice "u" (Sample.w_sent SecurityLevel.LOW) T_ok
                   0%nat
                   (Parcel.mk "ABC0000000001" Sample.carol Sample.alice MEDIUM "books"
                      IN_POSTOMAT 0 (Some 86400000000) None (Some 2) 3
                      (Some 432000000000))
                   (sample_w_sent_reachable SecurityLevel.LOW) _ _ _ _ _ _)).
  - vm_compute. reflexivity.
  - vm_compute. reflexivity.
  - vm_compute. reflexivity.
  - reflexivity.
  - reflexivity.
  - intros deadline [= <-]. vm_compute. discriminate.
Defined.

(** Alice claims her parcel on day 10, five days late. *)
Lemma receive_parcel_failure_keeps_store_witness :
  ∃ ok msg received,
    (receive_parcel Sample.two_day_clock "ABC0000000001" Sample.alice "u"
       Sample.w_sent_fast).1 = Return (ok, msg, received) ∧
    (ok = false →
     received = None ∧
     Postomat.lockers
       (station (receive_parcel Sample.two_day_clock "ABC0000000001" Sample.alice "u"
                   Sample.w_sent_fast).2) =
       Postomat.lockers (station Sample.w_sent_fast)).
Proof.
  destruct (receive_parcel_failure_keeps_store Sample.two_day_clock Sample.rng_zero
              Sample.md5_stub "ABC0000000001" Sample.alice "u" Sample.w_sent_fast
              sample_w_sent_fast_reachable)
    as (ok & msg & received & Hres & Hfail & _).
  exists ok, msg, received. split; [exact Hres|].
  intros Hok. destruct (Hfail Hok) as (Hnone & Hlockers & _). split; assumption.
Defined.

(** The sample parcel sent and claimed at once: the bank is as before. *)
Lemma send_then_receive_restores_bank_witness :
  Postomat.lockers
    (station (receive_parcel Sample.day_clock "ABC0000000001" Sample.alice "u"
                (send_parcel Sample.day_clock 0%nat "u"
                   (Sample.w_parcel SecurityLevel.LOW)).2).2) =
    Postomat.lockers (station (Sample.w_parcel SecurityLevel.LOW)).
Proof.
  refine (proj1 (proj2
            (send_then_receive_restores_bank Sample.day_clock Sample.rng_zero
               Sample.md5_stub 0%nat
               (Parcel.init "ABC0000000001" Sample.carol Sample.alice MEDIUM "books" 0)
               "u" Sample.alice "u" (Sample.w_parcel SecurityLevel.LOW)
               (T_sent "ABC0000000001" 2) (T_received "ABC0000000001") (Some 0%nat)
               _ _ _ _))).
  - apply reachable_call; [|done].
    by apply (reachable_fresh _ _ _ "PM1" "Minsk" 3 SecurityLevel.LOW [SMALL; LARGE; MEDIUM]).
  - vm_compute. reflexivity.
  - vm_compute. reflexivity.
  - vm_compute. reflexivity.
Defined.


(* ===================================================================== *)
(** * The calls as sequences of primitive effects                          *)
(* ===================================================================== *)

(** The world after one value was drawn from the generator. *)
Definition drew (w : World) : World :=
  mkWorld (heap w) (station w) (clock_reads w) (S (random_calls w)).

Section Effects.
Context (clock : nat → Time) (rng : nat → N) (md5_hexdigest : string → string).

(** The changes of state the calls of the station are made of, each with
    the condition under which the code performs it. *)
Inductive effect (w : World) : World → Prop :=
| effect_gate user_id operation :
    effect w (_check_security clock user_id operation w).2
| effect_alert alert_type description :
    effect w (alerted clock alert_type description w)
| effect_tick :
    effect w (tick w)
| effect_draw :
    effect w (drew w)
| effect_create tracking a :
    effect w (new_parcel clock tracking a w).2
| effect_send i l parcel p :
    Postomat.lockers (station w) !! i = Some l →
    heap w !! parcel = Some p →
    Locker.is_occupied l = false →
    Locker.is_functional l = true →
    dict_get (Parcel.tracking_number p) (Postomat.parcels (station w)) = None →
    effect w (sent clock i l parcel p w)
| effect_expire parcel p :
    heap w !! parcel = Some p →
    Parcel.status p = IN_POSTOMAT →
    effect w (with_parcel parcel (Parcel.set_status EXPIRED p) w)
| effect_release i l tracking parcel p :
    dict_get tracking (Postomat.parcels (station w)) = Some parcel →
    heap w !! parcel = Some p →
    Parcel.status p = IN_POSTOMAT →
    Postomat.lockers (station w) !! i = Some l →
    Locker.current_parcel l = Some parcel →
    effect w (released clock i l tracking parcel p w)
| effect_notify recipient parcel message :
    effect w (notified clock recipient parcel message w)
| effect_service w' :
    heap w' = heap w →
    (∃ ls log, station w' =
       Postomat.set_maintenance_log log (Postomat.set_lockers ls (station w))) →
    Forall2 serviced (Postomat.lockers (station w)) (Postomat.lockers (station w')) →
    effect w w'
| effect_break i l :
    Postomat.lockers (station w) !! i = Some l →
    Locker.is_functional l = true →
    Locker.is_occupied l = false →
    effect w (with_locker i (Locker.set_is_functional false l) w)
| effect_reset :
    effect w (reset_security w).2.

Definition effects : World → World → Prop := rtc effect.

Lemma effects_gate user_id operation w ok msg w1 :
  _check_security clock user_id operation w = (Return (ok, msg), w1) → effects w w1.
Proof.
  intros Hgate. apply rtc_once.
  replace w1 with (_check_security clock user_id operation w).2 by (by rewrite Hgate).
  apply effect_gate.
Qed.

Lemma effects_deadline_test p w : effects w (deadline_test clock p w).2.
Proof.
  unfold deadline_test. destruct (Parcel.storage_until p); simpl.
  - apply rtc_once. apply effect_tick.
  - apply rtc_refl.
Qed.

Lemma effects_send parcel user_id w :
  is_Some (heap w !! parcel) → effects w (send_parcel clock parcel user_id w).2.
Proof.
  intros [p Hp].
  destruct (send_parcel_run clock parcel user_id w p Hp)
    as (ok & msg & w1 & Hgate & (Hheap & Hlockers & Hparcels) & _ & Hcases).
  cbv zeta in Hcases. pose proof (effects_gate _ _ _ _ _ _ Hgate) as Hstep.
  destruct Hcases as [[_ ->]|[(_ & _ & ->)|[(_ & _ & _ & ->)|
                      (_ & Hnew & i & l & Hl & (Hfree & Hfun & _) & ->)]]]; try done.
  simpl. eapply rtc_r; [exact Hstep|].
  apply effect_send; try done.
  - by rewrite Hlockers.
  - by rewrite Hheap.
  - by rewrite Hparcels.
Qed.

Lemma effects_receive tracking_number recipient user_id w :
  Inv w → effects w (receive_parcel clock tracking_number recipient user_id w).2.
Proof.
  intros Hinv.
  destruct (check_security_frame clock user_id "receive" w)
    as (ok & msg & w1 & Hgate & (Hheap & Hlockers & Hparcels) & _).
  pose proof (effects_gate _ _ _ _ _ _ Hgate) as Hstep.
  destruct ok; [|by rewrite (receive_parcel_denied _ _ _ _ _ _ _ Hgate)].
  destruct (receive_parcel_run clock tracking_number recipient user_id w msg w1 Hinv Hgate)
    as [[_ ->]|(parcel & p & i & l & Hget & Hp & Hl & Hr & Hcases)]; [done|].
  pose proof (effects_deadline_test p w1) as Htest.
  assert (same_store w1 (deadline_test clock p w1).2) as (Hheap2 & Hlockers2 & Hparcels2).
  { unfold deadline_test. by destruct (Parcel.storage_until p). }
  destruct Hcases as [[_ ->]|[(_ & _ & ->)|[(_ & Hst & _ & ->)|(_ & Hst & _ & ->)]]]; simpl.
  - eapply rtc_r; [exact Hstep|]. apply effect_alert.
  - done.
  - eapply rtc_r; [by etrans|]. apply effect_expire; [|done]. by rewrite Hheap2, Hheap.
  - eapply rtc_r; [by etrans|]. apply effect_release; try done.
    + by rewrite Hparcels2, Hparcels.
    + by rewrite Hheap2, Hheap.
    + by rewrite Hlockers2, Hlockers.
Qed.

Lemma effects_notify tracking_number custom_message user_id w :
  effects w (notify_recipient clock tracking_number custom_message user_id w).2.
Proof.
  destruct (check_security_frame clock user_id "notify" w)
    as (ok & msg & w1 & Hgate & _).
  pose proof (effects_gate _ _ _ _ _ _ Hgate) as Hstep.
  destruct ok.
  2: { unfold notify_recipient. unfold mbind at 1. unfold M_bind at 1. by rewrite Hgate. }
  rewrite (notify_recipient_eq _ _ _ _ _ _ _ Hgate).
  destruct (dict_get tracking_number (Postomat.parcels (station w))) as [parcel|]; [|done].
  destruct (heap w !! parcel) as [p|]; [|done].
  simpl. eapply rtc_r; [exact Hstep|]. apply effect_notify.
Qed.

Lemma effects_maintenance technician w :
  effects w (perform_maintenance clock rng technician w).2.
Proof.
  destruct (perform_maintenance_run clock rng technician w) as [Hempty Hrun].
  destruct (decide (technician = "")) as [Hname|Hname].
  { destruct (Hempty Hname) as [_ ->]. apply rtc_refl. }
  destruct (Hrun Hname)
    as (report & _ & _ & _ & _ & _ & _ & _ & _ & _ & Hall & _ & Hheap & _ & _ & Hst & _).
  apply rtc_once. by apply effect_service.
Qed.

Lemma effects_break w : effects w (break_random_locker clock rng w).2.
Proof.
  unfold break_random_locker.
  unfold mbind at 1. unfold M_bind at 1. unfold get_station at 1.
  set (candidates := lockers_where _ _).
  assert (∀ i, i ∈ candidates → ∃ l, Postomat.lockers (station w) !! i = Some l ∧
            Locker.is_functional l && negb (Locker.is_occupied l) = true) as Hcand.
  { intros i Hi. by apply lockers_where_elem in Hi. }
  destruct candidates as [|c cs]; [apply rtc_refl|].
  unfold random_choice. unfold_monad. simpl.
  destruct ((c :: cs) !! N.to_nat _) as [i|] eqn:Hpick.
  2: { apply rtc_once. apply effect_draw. }
  apply list_elem_of_lookup_2 in Hpick.
  destruct (Hcand _ Hpick) as (l & Hl & [Hfun Hfree%negb_true_iff]%andb_prop).
  simpl. rewrite Hl. simpl. rewrite log_security_alert_eq.
  eapply rtc_l; [apply effect_draw|].
  eapply rtc_l; [by apply (effect_break _ i l)|].
  apply rtc_once. apply (effect_alert _ "manual_failure").
Qed.

Lemma effects_expiry_loop items : ∀ expired w,
  effects w (expiry_loop clock md5_hexdigest items expired w).2.
Proof.
  induction items as [|[t parcel] items IH]; intros expired w; [apply rtc_refl|].
  simpl expiry_loop. unfold mbind at 1. unfold M_bind at 1.
  destruct (heap w !! parcel) as [p|] eqn:Hp.
  2: { rewrite (is_expired_dangling _ _ _ Hp). apply rtc_refl. }
  rewrite (is_expired_eq _ _ _ _ Hp).
  assert (∀ b w2, heap w2 = heap w → effects w w2 →
            effects w ((load parcel ≫= λ p0,
                          if (b : bool) && bool_decide (Parcel.status p0 = IN_POSTOMAT)
                          then store parcel (Parcel.set_status EXPIRED p0) ≫= λ _,
                               _notify_recipient clock
                                 (recipient_of_sender md5_hexdigest (Parcel.sender p0))
                                 parcel (T_not_collected t) ≫= λ _,
                               expiry_loop clock md5_hexdigest items (expired ++ [parcel])
                          else expiry_loop clock md5_hexdigest items expired) w2).2)
    as Hrest.
  { intros b w2 Hheap Hstep.
    unfold mbind at 1. unfold M_bind at 1. unfold load at 1. rewrite Hheap, Hp.
    destruct b; simpl.
    2: { etrans; [exact Hstep|]. apply IH. }
    destruct (bool_decide_reflect (Parcel.status p = IN_POSTOMAT)) as [Hst|Hst].
    2: { etrans; [exact Hstep|]. apply IH. }
    unfold mbind at 1. unfold M_bind at 1. unfold store at 1.
    unfold mbind at 1. unfold M_bind at 1. rewrite notify_eq.
    etrans; [exact Hstep|].
    eapply rtc_l; [apply (effect_expire _ parcel p); [by rewrite Hheap|done]|].
    eapply rtc_l; [apply effect_notify|]. apply IH. }
  destruct (Parcel.storage_until p) as [deadline|].
  - apply Hrest; [done|]. apply rtc_once. apply effect_tick.
  - apply Hrest; [done|]. apply rtc_refl.
Qed.

(** Every well-formed call on a world that satisfies the invariant is a
    finite sequence of primitive effects. *)
Lemma exec_effects c w :
  well_formed_call c w → Inv w → effects w (exec clock rng md5_hexdigest c w).
Proof.
  intros Hwf Hinv. destruct c; simpl.
  - apply rtc_once. apply effect_create.
  - by apply effects_send.
  - by apply effects_receive.
  - apply effects_notify.
  - apply effects_maintenance.
  - apply effects_break.
  - apply rtc_once. apply effect_reset.
  - unfold check_expired_parcels. unfold_monad. apply effects_expiry_loop.
Qed.

End Effects.


(* ===================================================================== *)
(** * The books of the station                                             *)
(* ===================================================================== *)

Section DictKeys.
Context {V : Type}.
Implicit Types (d : list (string * V)) (k : string) (v : V).

Lemma dict_get_None_keys k d : dict_get k d = None ↔ k ∉ d.*1.
Proof.
  induction d as [|[k' v'] d IH]; simpl.
  - split; [intros _; apply not_elem_of_nil|done].
  - rewrite not_elem_of_cons. destruct (decide (k' = k)) as [->|Hne].
    + split; [done|]. by intros [? _].
    + rewrite IH. split; [by intros ?; split|by intros [_ ?]].
Qed.

Lemma dict_set_fresh k v d : dict_get k d = None → dict_set k v d = d ++ [(k, v)].
Proof.
  induction d as [|[k' v'] d IH]; simpl; [done|].
  destruct (decide (k' = k)); [done|]. intros Hd. by rewrite IH.
Qed.

Lemma dict_del_keys k d : NoDup d.*1 → NoDup (dict_del k d).*1.
Proof.
  unfold dict_del. induction d as [|[k' v'] d IH]; [done|].
  simpl. rewrite NoDup_cons. intros [Hnew Hd].
  rewrite filter_cons. destruct (decide _); [|by apply IH].
  simpl. rewrite NoDup_cons. split; [|by apply IH].
  intros ([k0 v0] & -> & [_ Hin]%list_elem_of_filter)%list_elem_of_fmap.
  apply Hnew. apply list_elem_of_fmap. by exists (k0, v0).
Qed.

Lemma dict_del_absent k d : k ∉ d.*1 → dict_del k d = d.
Proof.
  unfold dict_del. induction d as [|[k' v'] d IH]; [done|].
  simpl. rewrite not_elem_of_cons. intros [Hne Hd].
  rewrite filter_cons_True by (simpl; congruence). by rewrite IH.
Qed.

Lemma dict_del_length k v d :
  NoDup d.*1 → dict_get k d = Some v → S (length (dict_del k d)) = length d.
Proof.
  unfold dict_del. induction d as [|[k' v'] d IH]; simpl; [done|].
  rewrite NoDup_cons. intros [Hnew Hd].
  destruct (decide (k' = k)) as [->|Hne].
  - intros _. rewrite filter_cons_False by (simpl; tauto).
    fold (dict_del k d). by rewrite dict_del_absent.
  - intros Hget. rewrite filter_cons_True by done. simpl. by rewrite IH.
Qed.

End DictKeys.

Section Counting.
Context {A : Type} (P : A → Prop) `{!∀ x, Decision (P x)}.

Lemma length_filter_insert (ls : list A) i l l' :
  ls !! i = Some l →
  (length (filter P (<[i := l']> ls)) + (if decide (P l) then 1 else 0) =
   length (filter P ls) + (if decide (P l') then 1 else 0))%nat.
Proof.
  intros Hl.
  rewrite insert_take_drop by (by eapply lookup_lt_Some).
  rewrite <- (take_drop_middle ls i l Hl) at 3.
  rewrite !filter_app, !filter_cons, !length_app.
  destruct (decide (P l)), (decide (P l')); simpl; lia.
Qed.

Lemma length_filter_insert_same (ls : list A) i l l' :
  ls !! i = Some l → (P l ↔ P l') →
  length (filter P (<[i := l']> ls)) = length (filter P ls).
Proof.
  intros Hl Hiff. pose proof (length_filter_insert ls i l l' Hl).
  destruct (decide (P l)), (decide (P l')); (tauto || lia).
Qed.

Lemma length_filter_Forall2 (ls ls' : list A) :
  Forall2 (λ l l', P l ↔ P l') ls ls' →
  length (filter P ls) = length (filter P ls').
Proof.
  induction 1 as [|l l' ls ls' Hl _ IH]; [done|].
  rewrite !filter_cons.
  destruct (decide (P l)), (decide (P l')); simpl; (tauto || by rewrite IH).
Qed.


End Counting.

(** The number of lockers that hold a parcel. *)
Definition occupied_count (ls : list Locker.t) : nat :=
  length (filter (λ l, Is_true (Locker.is_occupied l)) ls).

(** What holds of parcels, lockers and index besides [store_ok]: a parcel
    that is in the station or expired is indexed under its own code, no code
    is indexed twice, and there are as many indexed codes as occupied
    lockers. *)
Record ledger (h : gmap ref Parcel.t) (ls : list Locker.t)
    (ps : list (string * ref)) : Prop := {
  ledger_ok : store_ok h ls ps;
  ledger_active : ∀ r p, h !! r = Some p →
    Parcel.status p = IN_POSTOMAT ∨ Parcel.status p = EXPIRED →
    dict_get (Parcel.tracking_number p) ps = Some r;
  ledger_keys : NoDup ps.*1;
  ledger_count : occupied_count ls = length ps
}.

Definition Books (w : World) : Prop :=
  ledger (heap w) (Postomat.lockers (station w)) (Postomat.parcels (station w)).

Lemma Books_same_store w w' : same_store w w' → Books w → Books w'.
Proof. unfold Books. intros (-> & -> & ->). done. Qed.

Section Ledger.
Context (h : gmap ref Parcel.t) (ls : list Locker.t) (ps : list (string * ref)).
Hypothesis Hbooks : ledger h ls ps.

Lemma ledger_alloc r p :
  h !! r = None → Parcel.status p = CREATED → ledger (<[r := p]> h) ls ps.
Proof.
  intros Hfresh Hst. destruct Hbooks as [Hok Hact Hkeys Hcount].
  split; [by apply store_ok_alloc| |done|done].
  intros r' p'. destruct (decide (r' = r)) as [->|Hne].
  - rewrite lookup_insert_eq. intros [= <-] [?|?]; congruence.
  - rewrite lookup_insert_ne by done. apply Hact.
Qed.

Lemma ledger_send r p i l t1 t2 :
  h !! r = Some p →
  dict_get (Parcel.tracking_number p) ps = None →
  ls !! i = Some l →
  Locker.is_occupied l = false → Locker.is_functional l = true →
  ledger (<[r := placed_parcel t1 t2 (Locker.number l) p]> h)
         (<[i := occupied_locker r l]> ls)
         (dict_set (Parcel.tracking_number p) r ps).
Proof.
  intros Hp Hnew Hl Hfree Hfun. destruct Hbooks as [Hok Hact Hkeys Hcount].
  split; [by apply store_ok_send| | |].
  - intros r' p'. destruct (decide (r' = r)) as [->|Hne].
    + rewrite lookup_insert_eq. intros [= <-] _. simpl. apply dict_get_set_eq.
    + rewrite lookup_insert_ne by done. intros Hp' Hst'.
      pose proof (Hact _ _ Hp' Hst') as Hget.
      rewrite dict_get_set_ne; [done|]. intros Heq. congruence.
  - rewrite dict_set_fresh by done. rewrite fmap_app. apply NoDup_app.
    split; [done|]. split; [|apply NoDup_singleton].
    intros k Hk. simpl. rewrite list_elem_of_singleton. intros ->.
    by apply dict_get_None_keys in Hnew.
  - rewrite dict_set_fresh by done. rewrite length_app. simpl.
    unfold occupied_count in *.
    pose proof (length_filter_insert (λ l, Is_true (Locker.is_occupied l)) ls i l
                  (occupied_locker r l) Hl) as Hins.
    simpl in Hins. rewrite Hfree in Hins. simpl in Hins.
    destruct (decide (Is_true false)) as [[]|]. destruct (decide (Is_true true)); [|done].
    lia.
Qed.

Lemma ledger_expire r p :
  h !! r = Some p → Parcel.status p = IN_POSTOMAT →
  ledger (<[r := Parcel.set_status EXPIRED p]> h) ls ps.
Proof.
  intros Hp Hst. destruct Hbooks as [Hok Hact Hkeys Hcount].
  split; [|  |done|done].
  - eapply store_ok_update; [done|done|done|done|by right].
  - intros r' p'. destruct (decide (r' = r)) as [->|Hne].
    + rewrite lookup_insert_eq. intros [= <-] _. simpl. apply (Hact _ _ Hp). by left.
    + rewrite lookup_insert_ne by done. apply Hact.
Qed.

Lemma ledger_release t r p p' i l :
  dict_get t ps = Some r →
  h !! r = Some p →
  ls !! i = Some l → Locker.current_parcel l = Some r →
  Parcel.status p' = DELIVERED →
  ledger (<[r := p']> h) (<[i := emptied_locker l]> ls) (dict_del t ps).
Proof.
  intros Hget Hp Hl Hr Hst. destruct Hbooks as [Hok Hact Hkeys Hcount].
  split; [by eapply store_ok_receive| |by apply dict_del_keys|].
  - intros r' q. destruct (decide (r' = r)) as [->|Hne].
    + rewrite lookup_insert_eq. intros [= <-] [?|?]; congruence.
    + rewrite lookup_insert_ne by done. intros Hq Hstq.
      pose proof (Hact _ _ Hq Hstq) as Hgetq.
      rewrite dict_get_del_ne; [done|]. intros Heq. rewrite Heq in Hget. congruence.
  - unfold occupied_count in *.
    pose proof (length_filter_insert (λ l, Is_true (Locker.is_occupied l)) ls i l
                  (emptied_locker l) Hl) as Hins.
    assert (Locker.is_occupied l = true) as Hocc.
    { apply (ok_occupied _ _ _ Hok _ _ Hl). by eexists. }
    simpl in Hins. rewrite Hocc in Hins. simpl in Hins.
    destruct (decide (Is_true false)) as [[]|]. destruct (decide (Is_true true)); [|done].
    pose proof (dict_del_length t r ps Hkeys Hget). lia.
Qed.

Lemma ledger_upkeep ls' : Forall2 upkeep ls ls' → ledger h ls' ps.
Proof.
  intros Hall. destruct Hbooks as [Hok Hact Hkeys Hcount].
  split; [by eapply store_ok_upkeep|done|done|].
  rewrite <- Hcount. unfold occupied_count. symmetry.
  apply length_filter_Forall2. eapply Forall2_impl; [exact Hall|].
  intros l l' (_ & -> & _). done.
Qed.

Lemma ledger_break i l :
  ls !! i = Some l → Locker.is_occupied l = false →
  ledger h (<[i := Locker.set_is_functional false l]> ls) ps.
Proof.
  intros Hl Hfree. destruct Hbooks as [Hok Hact Hkeys Hcount].
  split; [by apply store_ok_break|done|done|].
  rewrite <- Hcount. unfold occupied_count.
  by apply (length_filter_insert_same _ ls i l).
Qed.

End Ledger.

Lemma ledger_fresh bank : ledger ∅ (_create_lockers bank) [].
Proof.
  split; [apply store_ok_fresh|by intros r p; rewrite lookup_empty|constructor|].
  unfold occupied_count. simpl. apply length_zero_iff_nil.
  unfold _create_lockers.
  assert (∀ l, l ∈ imap (λ i size, Locker.init (Z.of_nat (S i)) size) bank →
               ¬ Is_true (Locker.is_occupied l)) as Hfree.
  { intros l [i Hi]%list_elem_of_lookup_1. rewrite list_lookup_imap in Hi.
    destruct (bank !! i); [|done]. injection Hi as <-. simpl. tauto. }
  induction (imap _ bank) as [|l ls IH]; [done|].
  rewrite filter_cons_False by (apply Hfree, list_elem_of_here).
  apply IH. intros l' Hl'. apply Hfree. by apply list_elem_of_further.
Qed.

Section BooksKept.
Context (clock : nat → Time) (rng : nat → N) (md5_hexdigest : string → string).

Lemma effect_Books w w' : effect clock w w' → Books w → Books w'.
Proof.
  intros Heff Hbooks. destruct Heff.
  - destruct (check_security_frame clock user_id operation w)
      as (ok & msg & w1 & Hgate & Hsame & _).
    rewrite Hgate. simpl. by eapply Books_same_store.
  - eapply Books_same_store; [|done]. apply alerted_same_store.
  - done.
  - done.
  - unfold new_parcel. unfold_monad. unfold Books. simpl.
    apply ledger_alloc; [done| |done]. apply not_elem_of_dom, is_fresh.
  - unfold Books. simpl. by apply ledger_send.
  - unfold Books. simpl. by apply ledger_expire.
  - unfold Books. simpl. by eapply ledger_release.
  - done.
  - unfold Books. destruct H0 as (ls & log & Hst). rewrite H.
    assert (Postomat.parcels (station w') = Postomat.parcels (station w)) as ->
      by (by rewrite Hst).
    eapply ledger_upkeep; [done|].
    eapply Forall2_impl; [done|]. apply serviced_upkeep.
  - unfold Books. simpl. by apply ledger_break.
  - done.
Qed.

Lemma effects_Books w w' : effects clock w w' → Books w → Books w'.
Proof. induction 1 as [|w1 w2 w3 Hstep _ IH]; [done|]. intros ?. by eapply IH, effect_Books. Qed.

Lemma Books_Inv w : Books w → Inv w.
Proof. by intros []. Qed.

Lemma exec_Books c w :
  well_formed_call c w → Books w → Books (exec clock rng md5_hexdigest c w).
Proof.
  intros Hwf Hbooks. eapply effects_Books; [|done].
  apply exec_effects; [done|]. by apply Books_Inv.
Qed.

Lemma reachable_Books w : reachable clock rng md5_hexdigest w → Books w.
Proof.
  induction 1 as [id address n level bank s Hinit _|c w _ IH Hwf].
  - unfold Postomat_init in Hinit.
    destruct (_ || _); [done|]. destruct (_ <=? _); [done|].
    injection Hinit as <-. apply ledger_fresh.
  - by apply exec_Books.
Qed.

(** The fields of the station that no call writes, and the size of the
    bank. *)
Definition same_shape (w w' : World) : Prop :=
  Postomat.id (station w') = Postomat.id (station w) ∧
  Postomat.address (station w') = Postomat.address (station w) ∧
  Postomat.total_lockers (station w') = Postomat.total_lockers (station w) ∧
  Postomat.security_level (station w') = Postomat.security_level (station w) ∧
  length (Postomat.lockers (station w')) = length (Postomat.lockers (station w)).

Lemma effect_shape w w' : effect clock w w' → same_shape w w'.
Proof.
  intros Heff. destruct Heff; unfold same_shape; simpl;
    rewrite ?length_insert; try done.
  - rewrite check_security_eq.
    destruct (Postomat.is_operational (station w)); simpl; [|done].
    destruct (_ >? 50); [|done]. by destruct (bool_decide _).
  - unfold alerted. by destruct (_ && _).
  - destruct H0 as (ls & log & Hst).
    pose proof (Forall2_length _ _ _ H1) as Hlen. rewrite Hst in *. simpl in *.
    by rewrite Hlen.
Qed.

Lemma effects_shape w w' : effects clock w w' → same_shape w w'.
Proof.
  induction 1 as [|w1 w2 w3 Hstep _ IH]; [done|].
  apply effect_shape in Hstep. unfold same_shape in *.
  destruct Hstep as (? & ? & ? & ? & ?), IH as (? & ? & ? & ? & ?).
  repeat split; congruence.
Qed.

Lemma reachable_bank_size w :
  reachable clock rng md5_hexdigest w →
  len (Postomat.lockers (station w)) = Postomat.total_lockers (station w).
Proof.
  induction 1 as [id address n level bank s Hinit Hlen|c w Hreach IH Hwf].
  - unfold Postomat_init in Hinit.
    destruct (_ || _); [done|]. destruct (_ <=? _); [done|].
    injection Hinit as <-. simpl. unfold _create_lockers, len in *.
    by rewrite length_imap.
  - pose proof (effects_shape _ _
                  (exec_effects clock rng md5_hexdigest c w Hwf
                     (Books_Inv _ (reachable_Books _ Hreach)))) as (_ & _ & Htotal & _ & Hlen).
    unfold len in *. by rewrite Htotal, Hlen.
Qed.


End BooksKept.



(* ===================================================================== *)
(** * The life of a parcel object                                          *)
(* ===================================================================== *)

(** The changes of status the code performs: [place_in_locker] on a parcel
    that is new or was delivered before, [deliver], and the two places that
    mark a parcel EXPIRED. *)
Inductive lifecycle : ParcelStatus → ParcelStatus → Prop :=
| placed_first : lifecycle CREATED IN_POSTOMAT
| placed_again : lifecycle DELIVERED IN_POSTOMAT
| collected : lifecycle IN_POSTOMAT DELIVERED
| lapsed : lifecycle IN_POSTOMAT EXPIRED.

(** The attributes written once, by [Parcel.__init__]. *)
Definition same_parcel (p p' : Parcel.t) : Prop :=
  Parcel.tracking_number p' = Parcel.tracking_number p ∧
  Parcel.sender p' = Parcel.sender p ∧
  Parcel.recipient p' = Parcel.recipient p ∧
  Parcel.size p' = Parcel.size p ∧
  Parcel.description p' = Parcel.description p ∧
  Parcel.created_at p' = Parcel.created_at p ∧
  Parcel.storage_days p' = Parcel.storage_days p.

Definition evolves (p p' : Parcel.t) : Prop :=
  same_parcel p p' ∧
  rtc lifecycle (Parcel.status p) (Parcel.status p') ∧
  (Parcel.status p = EXPIRED → p' = p) ∧
  (Parcel.status p' = CREATED → p' = p).

Definition held (p : Parcel.t) : Prop :=
  Parcel.status p = IN_POSTOMAT ∨ Parcel.status p = EXPIRED.

Lemma same_parcel_refl p : same_parcel p p.
Proof. by repeat split. Qed.

Lemma evolves_refl p : evolves p p.
Proof. split; [apply same_parcel_refl|]. split; [apply rtc_refl|]. by split. Qed.

Lemma evolves_trans p1 p2 p3 : evolves p1 p2 → evolves p2 p3 → evolves p1 p3.
Proof.
  intros (Hsame1 & Hpath1 & Hexp1 & Hnew1) (Hsame2 & Hpath2 & Hexp2 & Hnew2).
  split.
  { unfold same_parcel in *.
    destruct Hsame1 as (? & ? & ? & ? & ? & ? & ?), Hsame2 as (? & ? & ? & ? & ? & ? & ?).
    repeat split; congruence. }
  split; [by etrans|]. split.
  - intros Hst. pose proof (Hexp1 Hst) as ->. by apply Hexp2.
  - intros Hst. pose proof (Hnew2 Hst) as ->. by apply Hnew1.
Qed.

Lemma evolves_step p p' :
  same_parcel p p' → lifecycle (Parcel.status p) (Parcel.status p') → evolves p p'.
Proof.
  intros Hsame Hstep. split; [done|]. split; [by apply rtc_once|].
  split; intros Hst; rewrite Hst in Hstep; inversion Hstep.
Qed.

Section Lifecycle.
Context (clock : nat → Time) (rng : nat → N) (md5_hexdigest : string → string).

(** One well-formed call, and any number of them. *)
Definition call_step (w w' : World) : Prop :=
  ∃ c, well_formed_call c w ∧ w' = exec clock rng md5_hexdigest c w.

Definition later : World → World → Prop := rtc call_step.

Lemma later_reachable w w' :
  later w w' → reachable clock rng md5_hexdigest w → reachable clock rng md5_hexdigest w'.
Proof.
  induction 1 as [|w1 w2 w3 (c & Hwf & ->) _ IH]; [done|].
  intros Hreach. apply IH. by apply reachable_call.
Qed.

Lemma effect_evolves w w' r p :
  effect clock w w' → Books w → heap w !! r = Some p →
  ∃ p', heap w' !! r = Some p' ∧ evolves p p'.
Proof.
  intros Heff Hbooks Hp.
  assert (∀ w2, heap w2 = heap w → ∃ p', heap w2 !! r = Some p' ∧ evolves p p') as Hsame.
  { intros w2 ->. exists p. split; [done|apply evolves_refl]. }
  destruct Heff.
  - apply Hsame.
    destruct (check_security_frame clock user_id operation w)
      as (ok & msg & w1 & Hgate & (Hheap & _) & _).
    by rewrite Hgate.
  - apply Hsame. apply alerted_same_store.
  - by apply Hsame.
  - by apply Hsame.
  - unfold new_parcel. unfold_monad. simpl.
    exists p. split; [|apply evolves_refl].
    rewrite lookup_insert_ne; [done|]. intros Heq.
    pose proof (is_fresh (dom (heap w))) as Hfresh. rewrite Heq in Hfresh.
    apply Hfresh. apply elem_of_dom. by eexists.
  - simpl. destruct (decide (r = parcel)) as [->|Hne].
    + rewrite lookup_insert_eq. eexists. split; [done|].
      assert (p0 = p) as -> by congruence.
      apply evolves_step; [by repeat split|]. simpl.
      destruct (Parcel.status p) eqn:Hst; try constructor.
      * pose proof (ledger_active _ _ _ Hbooks _ _ Hp (or_introl Hst)). congruence.
      * pose proof (ledger_active _ _ _ Hbooks _ _ Hp (or_intror Hst)). congruence.
    + rewrite lookup_insert_ne by done. by apply Hsame.
  - simpl. destruct (decide (r = parcel)) as [->|Hne].
    + rewrite lookup_insert_eq. eexists. split; [done|].
      assert (p0 = p) as -> by congruence.
      apply evolves_step; [by repeat split|]. simpl. rewrite H0. constructor.
    + rewrite lookup_insert_ne by done. by apply Hsame.
  - simpl. destruct (decide (r = parcel)) as [->|Hne].
    + rewrite lookup_insert_eq. eexists. split; [done|].
      assert (p0 = p) as -> by congruence.
      apply evolves_step; [by repeat split|]. simpl. rewrite H1. constructor.
    + rewrite lookup_insert_ne by done. by apply Hsame.
  - by apply Hsame.
  - by apply Hsame.
  - by apply Hsame.
  - by apply Hsame.
Qed.

Lemma effects_evolves w w' :
  effects clock w w' → Books w → ∀ r p, heap w !! r = Some p →
  ∃ p', heap w' !! r = Some p' ∧ evolves p p'.
Proof.
  induction 1 as [w|w1 w2 w3 Hstep _ IH]; intros Hbooks r p Hp.
  - exists p. split; [done|apply evolves_refl].
  - destruct (effect_evolves _ _ _ _ Hstep Hbooks Hp) as (p2 & Hp2 & Hev).
    destruct (IH (effect_Books _ _ _ Hstep Hbooks) _ _ Hp2) as (p3 & Hp3 & Hev').
    exists p3. split; [done|]. by eapply evolves_trans.
Qed.

Lemma later_evolves w w' :
  later w w' → reachable clock rng md5_hexdigest w → ∀ r p, heap w !! r = Some p →
  ∃ p', heap w' !! r = Some p' ∧ evolves p p'.
Proof.
  induction 1 as [w|w1 w2 w3 (c & Hwf & ->) _ IH]; intros Hreach r p Hp.
  - exists p. split; [done|apply evolves_refl].
  - pose proof (reachable_Books _ _ _ _ Hreach) as Hbooks.
    destruct (effects_evolves _ _
                (exec_effects clock rng md5_hexdigest c w1 Hwf (Books_Inv _ Hbooks))
                Hbooks _ _ Hp) as (p2 & Hp2 & Hev).
    destruct (IH (reachable_call _ _ _ _ _ Hreach Hwf) _ _ Hp2) as (p3 & Hp3 & Hev').
    exists p3. split; [done|]. by eapply evolves_trans.
Qed.

(** X11. A parcel object of a reachable world is still there after any
    further well-formed calls, with the tracking code, sender, recipient,
    size, description, creation time and storage period it was created
    with.  Its status has moved only along the arrows CREATED to
    IN_POSTOMAT, IN_POSTOMAT to DELIVERED, IN_POSTOMAT to EXPIRED and
    DELIVERED to IN_POSTOMAT (a delivered parcel that is sent again).  A
    parcel that was EXPIRED is not changed at all, and a parcel that is
    still CREATED was never touched. *)
Theorem parcel_lifecycle w w' r p :
  reachable clock rng md5_hexdigest w →
  later w w' →
  heap w !! r = Some p →
  ∃ p', heap w' !! r = Some p' ∧
        Parcel.tracking_number p' = Parcel.tracking_number p ∧
        Parcel.sender p' = Parcel.sender p ∧
        Parcel.recipient p' = Parcel.recipient p ∧
        Parcel.size p' = Parcel.size p ∧
        Parcel.description p' = Parcel.description p ∧
        Parcel.created_at p' = Parcel.created_at p ∧
        Parcel.storage_days p' = Parcel.storage_days p ∧
        rtc lifecycle (Parcel.status p) (Parcel.status p') ∧
        (Parcel.status p = EXPIRED → p' = p) ∧
        (Parcel.status p' = CREATED → p' = p).
Proof.
  intros Hreach Hlater Hp.
  destruct (later_evolves _ _ Hlater Hreach _ _ Hp)
    as (p' & Hp' & (? & ? & ? & ? & ? & ? & ?) & Hpath & Hexp & Hnew).
  exists p'. by repeat (split; [done|]).
Qed.

(** X12. An expired parcel is never released.  After any further
    well-formed calls on a reachable world, a parcel that was EXPIRED is
    unchanged, still indexed under its code and still in the locker whose
    number it records; that locker stays occupied, so no send can use it. *)
Theorem expired_parcel_keeps_its_locker w w' r p :
  reachable clock rng md5_hexdigest w →
  later w w' →
  heap w !! r = Some p →
  Parcel.status p = EXPIRED →
  heap w' !! r = Some p ∧
  dict_get (Parcel.tracking_number p) (Postomat.parcels (station w')) = Some r ∧
  ∃ i l, Postomat.lockers (station w') !! i = Some l ∧
         Locker.current_parcel l = Some r ∧
         Parcel.locker_number p = Some (Locker.number l) ∧
         Locker.is_occupied l = true ∧
         ∀ min_required_size, ¬ available_for min_required_size l.
Proof.
  intros Hreach Hlater Hp Hst.
  destruct (later_evolves _ _ Hlater Hreach _ _ Hp) as (p' & Hp' & _ & _ & Hexp & _).
  rewrite (Hexp Hst) in Hp'. split; [done|].
  pose proof (reachable_Books _ _ _ _ (later_reachable _ _ Hlater Hreach))
    as [Hok Hact _ _].
  pose proof (Hact _ _ Hp' (or_intror Hst)) as Hget. split; [done|].
  destruct (ok_index _ _ _ Hok _ _ Hget) as (q & i & l & Hq & _ & Hl & Hr).
  destruct (ok_resident _ _ _ Hok _ _ _ Hl Hr) as (q' & Hq' & Hn & _).
  assert (Locker.is_occupied l = true) as Hocc.
  { apply (ok_occupied _ _ _ Hok _ _ Hl). by eexists. }
  exists i, l. split; [done|]. split; [done|]. split; [congruence|]. split; [done|].
  intros m (Hfree & _). congruence.
Qed.


(** X14. In a reachable world every entry of the index can be followed to
    its locker: the indexed object exists, carries the code it is indexed
    under, is IN_POSTOMAT or EXPIRED and records a locker number between 1
    and the size of the bank; the locker at that position holds this very
    parcel and is occupied and functional. *)
Theorem index_entries_point_at_lockers w tracking r :
  reachable clock rng md5_hexdigest w →
  dict_get tracking (Postomat.parcels (station w)) = Some r →
  ∃ p n l,
    heap w !! r = Some p ∧
    Parcel.tracking_number p = tracking ∧
    held p ∧
    Parcel.locker_number p = Some n ∧
    1 ≤ n ∧ n ≤ Postomat.total_lockers (station w) ∧
    Postomat.lockers (station w) !! Z.to_nat (n - 1) = Some l ∧
    Locker.number l = n ∧
    Locker.current_parcel l = Some r ∧
    Locker.is_occupied l = true ∧
    Locker.is_functional l = true.
Proof.
  intros Hreach Hget.
  pose proof (reachable_Books _ _ _ _ Hreach) as [Hok _ _ _].
  pose proof (reachable_bank_size _ _ _ _ Hreach) as Hsize.
  destruct (ok_index _ _ _ Hok _ _ Hget) as (p & i & l & Hp & Ht & Hl & Hr).
  destruct (ok_resident _ _ _ Hok _ _ _ Hl Hr) as (q & Hq & Hn & Hst & _).
  assert (q = p) as -> by congruence.
  pose proof (ok_numbers _ _ _ Hok _ _ Hl) as Hnum.
  assert (Locker.is_occupied l = true) as Hocc.
  { apply (ok_occupied _ _ _ Hok _ _ Hl). by eexists. }
  pose proof (lookup_lt_Some _ _ _ Hl) as Hi. unfold len in Hsize.
  exists p, (Locker.number l), l. repeat (split; [done || lia|]).
  split.
  { replace (Z.to_nat (Locker.number l - 1)) with i by lia. done. }
  repeat (split; [done|]). by apply (ok_functional _ _ _ Hok _ _ Hl).
Qed.

End Lifecycle.

(** The sample parcel claimed by Alice, and then sent a second time. *)
Definition sample_w_received : World :=
  Sample.call (CallReceive "ABC0000000001" Sample.alice "u")
    (Sample.w_sent SecurityLevel.LOW).
Definition sample_w_resent : World :=
  Sample.call (CallSend 0%nat "u") sample_w_received.

(** The delivered sample parcel is placed again by the second send. *)
Lemma parcel_lifecycle_witness :
  (∃ p', heap sample_w_resent !! 0%nat = Some p' ∧
         Parcel.tracking_number p' = "ABC0000000001" ∧
         rtc lifecycle DELIVERED (Parcel.status p')) ∧
  Parcel.status <$> heap sample_w_resent !! 0%nat = Some IN_POSTOMAT.
Proof.
  split; [|vm_compute; reflexivity].
  destruct (parcel_lifecycle Sample.day_clock Sample.rng_zero Sample.md5_stub
              sample_w_received sample_w_resent 0%nat
              (Parcel.mk "ABC0000000001" Sample.carol Sample.alice MEDIUM "books"
                 DELIVERED 0 (Some 86400000000) (Some 518400000000) (Some 2) 3
                 (Some 432000000000)))
    as (p' & Hp' & Ht & _ & _ & _ & _ & _ & _ & Hpath & _).
  - apply reachable_call; [apply sample_w_sent_reachable|done].
  - apply rtc_once. exists (CallSend 0%nat "u"). split; [|reflexivity].
    eexists. vm_compute. reflexivity.
  - vm_compute. reflexivity.
  - exists p'. split; [exact Hp'|]. split; [exact Ht|exact Hpath].
Defined.

(** The parcel expired by the sweep of day 10 is claimed by Alice
    afterwards: it stays where it is. *)
Lemma expired_parcel_keeps_its_locker_witness :
  dict_get "ABC0000000001"
    (Postomat.parcels
       (station (exec Sample.two_day_clock Sample.rng_zero Sample.md5_stub
                   (CallReceive "ABC0000000001" Sample.alice "u") Sample.w_swept))) =
    Some 0%nat.
Proof.
  refine (proj1 (proj2
            (expired_parcel_keeps_its_locker Sample.two_day_clock Sample.rng_zero
               Sample.md5_stub Sample.w_swept
               (exec Sample.two_day_clock Sample.rng_zero Sample.md5_stub
                  (CallReceive "ABC0000000001" Sample.alice "u") Sample.w_swept)
               0%nat
               (Parcel.mk "ABC0000000001" Sample.carol Sample.alice MEDIUM "books"
                  EXPIRED 0 (Some 172800000000) None (Some 2) 3 (Some 604800000000))
               _ _ _ _))).
  - apply reachable_call; [apply sample_w_sent_fast_reachable|done].
  - apply rtc_once. by exists (CallReceive "ABC0000000001" Sample.alice "u").
  - vm_compute. reflexivity.
  - reflexivity.
Defined.


Lemma index_entries_point_at_lockers_witness :
  ∃ p n l,
    heap (Sample.w_sent SecurityLevel.LOW) !! 0%nat = Some p ∧
    Parcel.locker_number p = Some n ∧
    Postomat.lockers (station (Sample.w_sent SecurityLevel.LOW)) !! Z.to_nat (n - 1) =
      Some l ∧
    Locker.current_parcel l = Some 0%nat.
Proof.
  destruct (index_entries_point_at_lockers Sample.day_clock Sample.rng_zero
              Sample.md5_stub (Sample.w_sent SecurityLevel.LOW) "ABC0000000001" 0%nat
              (sample_w_sent_reachable SecurityLevel.LOW))
    as (p & n & l & Hp & _ & _ & Hn & _ & _ & Hl & _ & Hr & _).
  - vm_compute. reflexivity.
  - exists p, n, l. split; [exact Hp|]. split; [exact Hn|]. split; [exact Hl|exact Hr].
Defined.


(* ===================================================================== *)
(** * Validator.py: the accepted phone numbers and tracking codes          *)
(* ===================================================================== *)

Module ValidatorLanguage.
Import Validator ValidatorFacts.


Ltac by_cases_on_char c :=
  destruct c as [[|] [|] [|] [|] [|] [|] [|] [|]]; vm_compute;
  intros; (reflexivity || discriminate).

Lemma digit_not_separator c : is_digit c = true → is_separator c = false.
Proof. by_cases_on_char c. Qed.

Lemma digit_not_space c : is_digit c = true → is_space c = false.
Proof. by_cases_on_char c. Qed.

Lemma digit_is_unicode_digit c : is_digit c = true → is_unicode_digit c = true.
Proof. by_cases_on_char c. Qed.

Lemma strip_digits_all n : ∀ d,
  strip_digits n d = Some EmptyString →
  String.length d = n ∧ all_of is_digit d = true ∧ remove_separators d = d.
Proof.
  induction n as [|n IH]; intros d; simpl.
  - by intros [= ->].
  - destruct d as [|c d]; [done|]. destruct (is_digit c) eqn:Hc; [|done].
    intros (Hlen & Hall & Hclean)%IH. simpl.
    rewrite Hc, (digit_not_separator _ Hc), Hlen, Hall, Hclean. done.
Qed.








(** ** Tracking codes *)

Lemma rstrip_clean s : all_of (λ c, negb (is_space c)) s = true → rstrip s = s.
Proof.
  induction s as [|c s IH]; simpl; [done|].
  intros [Hc Hs]%andb_prop. rewrite (IH Hs).
  destruct s; [|done]. by destruct (is_space c).
Qed.

Lemma strip_clean s : all_of (λ c, negb (is_space c)) s = true → strip s = s.
Proof.
  intros Hs. unfold strip.
  assert (lstrip s = s) as ->; [|by apply rstrip_clean].
  destruct s as [|c s]; [done|]. simpl in *.
  apply andb_prop in Hs as [Hc _]. by destruct (is_space c).
Qed.

Lemma all_of_impl (P Q : ascii → bool) s :
  (∀ c, P c = true → Q c = true) → all_of P s = true → all_of Q s = true.
Proof.
  intros Himp. induction s as [|c s IH]; simpl; [done|].
  intros [Hc Hs]%andb_prop. by rewrite (Himp _ Hc), IH.
Qed.

(** A code of the generator's format passes [validate_tracking]. *)
Lemma well_formed_validates tracking :
  Tracking.well_formed tracking → validate_tracking tracking = true.
Proof.
  intros (prefix & digits & -> & Hprefix & Hlen & Hd).
  apply strip_digits_all in Hd as (_ & Hall & _).
  assert (all_of (λ c, negb (is_space c)) digits = true) as Hnospace.
  { eapply all_of_impl; [|exact Hall]. intros c Hc. by rewrite (digit_not_space _ Hc). }
  assert (all_of is_unicode_digit digits = true) as Hdigits.
  { eapply all_of_impl; [|exact Hall]. apply digit_is_unicode_digit. }
  assert (nonempty digits = true) as Hne by (by destruct digits).
  unfold Tracking.TRACKING_PREFIXES in Hprefix.
  repeat (apply elem_of_cons in Hprefix as [->|Hprefix]);
    [..|by apply elem_of_nil in Hprefix];
    (unfold validate_tracking;
     rewrite strip_clean by (norm_app; simpl; exact Hnospace);
     norm_app; simpl String.length; rewrite Hlen; simpl;
     unfold isdigit; rewrite Hne, Hdigits; reflexivity).
Qed.

End ValidatorLanguage.

Module TrackingRuns.
Import Tracking TrackingFacts.

(** X17. Every code that [_generate_unique_tracking] can return passes
    [Validator.validate_tracking]: each candidate of the loop does, and the
    loop returns one of its candidates. *)
Theorem generated_code_passes_validation :
  (∀ rng k, Validator.validate_tracking (candidate rng k) = true) ∧
  (∀ fuel rng k existing tracking k' existing',
     _generate_unique_tracking fuel rng k existing = Some (tracking, (k', existing')) →
     Validator.validate_tracking tracking = true).
Proof.
  split.
  - intros rng k. apply ValidatorLanguage.well_formed_validates, candidate_well_formed.
  - intros fuel rng k existing tracking k' existing' Hrun.
    apply generate_unique_tracking_Some in Hrun as (_ & _ & Hwf).
    by apply ValidatorLanguage.well_formed_validates.
Qed.

(** X18. [_generate_unique_tracking] returns the first candidate of its
    loop that is not yet in the set of existing codes: when the first [j]
    candidates are taken and the next one is new, the call returns that one,
    has consumed eleven random values per attempt, and has added the code to
    the set. *)
Theorem generator_returns_first_fresh_candidate fuel rng k existing j :
  (j < fuel)%nat →
  (∀ i, (i < j)%nat → candidate rng (k + 11 * i)%nat ∈ existing) →
  candidate rng (k + 11 * j)%nat ∉ existing →
  _generate_unique_tracking fuel rng k existing =
    Some (candidate rng (k + 11 * j)%nat,
          ((k + 11 * S j)%nat, existing ∪ {[candidate rng (k + 11 * j)%nat]})).
Proof.
  revert k j. induction fuel as [|fuel IH]; intros k j Hj Hold Hnew; [lia|].
  cbn [_generate_unique_tracking]. destruct j as [|j].
  - replace (k + 11 * 0)%nat with k in * by lia.
    rewrite decide_True by done.
    by replace (k + 11 * 1)%nat with (k + 11)%nat by lia.
  - rewrite decide_False.
    2: { intros Hfresh. apply Hfresh.
         specialize (Hold 0%nat). replace (k + 11 * 0)%nat with k in Hold by lia.
         apply Hold. lia. }
    rewrite (IH (k + 11)%nat j).
    + replace (k + 11 + 11 * j)%nat with (k + 11 * S j)%nat by lia.
      by replace (k + 11 + 11 * S j)%nat with (k + 11 * S (S j))%nat by lia.
    + lia.
    + intros i Hi. replace (k + 11 + 11 * i)%nat with (k + 11 * S i)%nat by lia.
      apply Hold. lia.
    + by replace (k + 11 + 11 * j)%nat with (k + 11 * S j)%nat by lia.
Qed.

(** The first candidate of the counting generator is taken; the second is
    returned. *)
Lemma generator_returns_first_fresh_candidate_witness :
  _generate_unique_tracking 5 Sample.rng_count 0 {["ABC1234567890"]} =
    Some (candidate Sample.rng_count 11,
          (22%nat, {["ABC1234567890"]} ∪ {[candidate Sample.rng_count 11]})).
Proof.
  refine (generator_returns_first_fresh_candidate 5 Sample.rng_count 0
            {["ABC1234567890"]} 1 _ _ _).
  - lia.
  - intros i Hi. assert (i = 0%nat) as -> by lia.
    apply elem_of_singleton. vm_compute. reflexivity.
  - intros Hin%elem_of_singleton. vm_compute in Hin. discriminate Hin.
Defined.

End TrackingRuns.



(* ===================================================================== *)
(** * The sweep for expired parcels                                        *)
(* ===================================================================== *)

Lemma dict_get_of_elem {V} (k : string) (v : V) (d : list (string * V)) :
  NoDup d.*1 → (k, v) ∈ d → dict_get k d = Some v.
Proof.
  induction d as [|[k' v'] d IH]; simpl; [by intros _ ?%elem_of_nil|].
  rewrite NoDup_cons. intros [Hnew Hd] [[= -> ->]|Hin]%elem_of_cons.
  - by rewrite decide_True.
  - rewrite decide_False; [by apply IH|].
    intros ->. apply Hnew. apply list_elem_of_fmap. by exists (k, v).
Qed.

(** In the books of the station no object is indexed twice. *)
Lemma ledger_refs h ls ps : ledger h ls ps → NoDup ps.*2.
Proof.
  intros [Hok _ Hkeys _]. apply NoDup_fmap_2_strong; [|by eapply NoDup_fmap_1].
  intros [t1 r1] [t2 r2] Hin1 Hin2. simpl. intros <-.
  apply (dict_get_of_elem _ _ _ Hkeys) in Hin1, Hin2.
  destruct (ok_index _ _ _ Hok _ _ Hin1) as (p1 & _ & _ & Hp1 & Ht1 & _).
  destruct (ok_index _ _ _ Hok _ _ Hin2) as (p2 & _ & _ & Hp2 & Ht2 & _).
  f_equal. congruence.
Qed.

Section Sweep.
Context (clock : nat → Time) (rng : nat → N) (md5_hexdigest : string → string).

(** A run of the loop of [check_expired_parcels] over entries that point
    at distinct objects. *)
Lemma expiry_loop_run items : ∀ acc w,
  NoDup items.*2 →
  (∀ r, r ∈ items.*2 → is_Some (heap w !! r)) →
  ∃ out w',
    expiry_loop clock md5_hexdigest items acc w = (Return (acc ++ out), w') ∧
    Postomat.lockers (station w') = Postomat.lockers (station w) ∧
    Postomat.parcels (station w') = Postomat.parcels (station w) ∧
    (clock_reads w ≤ clock_reads w')%nat ∧
    length (Postomat.notifications (station w')) =
      (length (Postomat.notifications (station w)) + length out)%nat ∧
    NoDup out ∧
    (∀ r, r ∈ out → r ∈ items.*2) ∧
    (∀ r, r ∉ out → heap w' !! r = heap w !! r) ∧
    (∀ r, r ∈ out → ∃ p d k,
       heap w !! r = Some p ∧ Parcel.status p = IN_POSTOMAT ∧
       Parcel.storage_until p = Some d ∧ (clock_reads w ≤ k)%nat ∧ d < clock k ∧
       heap w' !! r = Some (Parcel.set_status EXPIRED p)) ∧
    (∀ r p d, r ∈ items.*2 → heap w !! r = Some p →
       Parcel.status p = IN_POSTOMAT → Parcel.storage_until p = Some d →
       (∀ k, (clock_reads w ≤ k)%nat → d < clock k) → r ∈ out).
Proof.
  induction items as [|[t parcel] items IH]; intros acc w Hdistinct Hobjects.
  { exists [], w. rewrite app_nil_r. split; [done|]. split; [done|]. split; [done|].
    split; [done|]. split; [simpl; lia|]. split; [constructor|].
    split; [by intros r ?%elem_of_nil|]. split; [done|].
    split; [by intros r ?%elem_of_nil|]. by intros r p d ?%elem_of_nil. }
  simpl in Hdistinct. apply NoDup_cons in Hdistinct as [Hfirst Hdistinct].
  destruct (Hobjects parcel) as [p Hp]; [apply list_elem_of_here|].
  simpl expiry_loop. unfold mbind at 1. unfold M_bind at 1.
  rewrite (is_expired_eq _ _ _ _ Hp). fold (tick w).
  set (test := deadline_test clock p w).
  assert (match Parcel.storage_until p with
          | Some deadline => (Return (clock (clock_reads w) >? deadline), tick w)
          | None => (Return false, w)
          end = (Return test.1, test.2)) as ->.
  { subst test. unfold deadline_test. by destruct (Parcel.storage_until p). }
  assert (heap test.2 = heap w ∧ station test.2 = station w ∧
          (clock_reads w ≤ clock_reads test.2)%nat) as (Hheap2 & Hst2 & Hreads2).
  { subst test. unfold deadline_test. destruct (Parcel.storage_until p); simpl; auto. }
  assert (test.1 = true → ∃ d, Parcel.storage_until p = Some d ∧
                                 d < clock (clock_reads w)) as Hlate.
  { subst test. unfold deadline_test.
    destruct (Parcel.storage_until p) as [d|]; simpl; [|done].
    intros Hgt%Z.gtb_lt. by exists d. }
  assert (test.1 = false → ∀ d, Parcel.storage_until p = Some d →
                                 clock (clock_reads w) ≤ d) as Hearly.
  { subst test. unfold deadline_test.
    destruct (Parcel.storage_until p) as [d|]; simpl; [|done].
    rewrite Z.gtb_ltb. intros Hle%Z.ltb_ge d' [= <-]. done. }
  destruct test as [b w2]. simpl in *.
  unfold mbind at 1. unfold M_bind at 1. unfold load at 1. rewrite Hheap2, Hp.
  destruct (b && bool_decide (Parcel.status p = IN_POSTOMAT)) eqn:Htake.
  - apply andb_prop in Htake as [-> Hst%bool_decide_eq_true].
    destruct (Hlate eq_refl) as (d & Hd & Hover).
    unfold mbind at 1. unfold M_bind at 1. unfold store at 1.
    unfold mbind at 1. unfold M_bind at 1. rewrite notify_eq.
    set (w4 := notified clock _ parcel _ _).
    assert (heap w4 = <[parcel := Parcel.set_status EXPIRED p]> (heap w)) as Hheap4
      by (subst w4; simpl; by rewrite Hheap2).
    destruct (IH (acc ++ [parcel]) w4 Hdistinct)
      as (out & w' & Hrun & Hlockers & Hparcels & Hreads & Hnotes & Hnodup & Hsub &
          Hrest & Hmarked & Hall).
    { intros r Hr. rewrite Hheap4.
      destruct (decide (r = parcel)) as [->|Hne]; [by rewrite lookup_insert_eq|].
      rewrite lookup_insert_ne by done. apply Hobjects. by apply list_elem_of_further. }
    exists (parcel :: out), w'.
    split; [by rewrite Hrun, <- app_assoc|].
    split; [by rewrite Hlockers; subst w4; simpl; rewrite Hst2|].
    split; [by rewrite Hparcels; subst w4; simpl; rewrite Hst2|].
    split; [subst w4; simpl in *; lia|].
    split.
    { rewrite Hnotes. subst w4. simpl. rewrite length_app, Hst2. simpl. lia. }
    split; [constructor; [by intros ?%Hsub|done]|].
    split.
    { intros r [->|Hr]%elem_of_cons; [apply list_elem_of_here|].
      apply list_elem_of_further. by apply Hsub. }
    split.
    { intros r [Hne Hr]%not_elem_of_cons.
      rewrite (Hrest _ Hr), Hheap4. by rewrite lookup_insert_ne. }
    split.
    { intros r [->|Hr]%elem_of_cons.
      - exists p, d, (clock_reads w). repeat (split; [done || lia|]).
        rewrite Hrest by (by intros ?%Hsub). rewrite Hheap4. apply lookup_insert_eq.
      - assert (r ≠ parcel) as Hne by (intros ->; by apply Hfirst, Hsub).
        destruct (Hmarked _ Hr) as (q & dq & k & Hq & Hstq & Hdq & Hk & Hover' & Hq').
        exists q, dq, k. rewrite Hheap4, lookup_insert_ne in Hq by done.
        repeat (split; [done|]). split; [subst w4; simpl in *; lia|]. done. }
    intros r q dq [->|Hr]%elem_of_cons Hq Hstq Hdq Hover'; [apply list_elem_of_here|].
    assert (r ≠ parcel) as Hne by (intros ->; by apply Hfirst).
    apply list_elem_of_further. apply (Hall r q dq Hr); [|done|done|].
    + by rewrite Hheap4, lookup_insert_ne.
    + intros k Hk. apply Hover'. subst w4. simpl in *. lia.
  - destruct (IH acc w2 Hdistinct)
      as (out & w' & Hrun & Hlockers & Hparcels & Hreads & Hnotes & Hnodup & Hsub &
          Hrest & Hmarked & Hall).
    { intros r Hr. rewrite Hheap2. apply Hobjects. by apply list_elem_of_further. }
    assert (parcel ∉ out) as Hout by (by intros ?%Hsub).
    exists out, w'. split; [done|].
    split; [by rewrite Hlockers, Hst2|]. split; [by rewrite Hparcels, Hst2|].
    split; [lia|]. split; [by rewrite Hnotes, Hst2|]. split; [done|].
    split; [intros r Hr; by apply list_elem_of_further, Hsub|].
    split; [intros r Hr; by rewrite (Hrest _ Hr), Hheap2|].
    split.
    { intros r Hr. destruct (Hmarked _ Hr) as (q & dq & k & Hq & Hstq & Hdq & Hk & Hover & Hq').
      exists q, dq, k. rewrite Hheap2 in Hq. repeat (split; [done|]). split; [lia|done]. }
    intros r q dq [->|Hr]%elem_of_cons Hq Hstq Hdq Hover.
    + exfalso. assert (q = p) as -> by congruence.
      apply andb_false_iff in Htake as [->|Hno].
      * pose proof (Hearly eq_refl _ Hdq). pose proof (Hover (clock_reads w)). lia.
      * by apply bool_decide_eq_false in Hno.
    + apply (Hall r q dq Hr); [by rewrite Hheap2|done|done|].
      intros k Hk. apply Hover. lia.
Qed.


End Sweep.



(* ===================================================================== *)
(** * The security books of a reachable station                            *)
(* ===================================================================== *)

(** What [_check_security], [_log_security_alert] and [reset_security]
    keep true of the counters, the alerts and the lock. *)
Definition watch (w : World) : Prop :=
  let s := station w in
  (Postomat.security_level s ≠ SecurityLevel.HIGH → Postomat.is_operational s = true) ∧
  (Postomat.is_operational s = false →
     ∃ a, a ∈ Postomat.security_alerts s ∧
          Alert.type a ∈ ["unauthorized_access"; "suspicious_activity"]) ∧
  (∀ u n, Postomat.user_operations s !! u = Some n → 1 ≤ n) ∧
  (Postomat.security_level s = SecurityLevel.HIGH →
     ∀ u n, Postomat.user_operations s !! u = Some n →
       n ≤ if Postomat.is_operational s then 50 else 51) ∧
  (Postomat.security_level s = SecurityLevel.HIGH →
     ∀ u u', Postomat.user_operations s !! u = Some 51 →
             Postomat.user_operations s !! u' = Some 51 → u = u').

Section Watch.
Context (clock : nat → Time) (rng : nat → N) (md5_hexdigest : string → string).

Lemma watch_alerted alert_type description w :
  watch w → watch (alerted clock alert_type description w).
Proof.
  intros (Hlevel & Hcause & Hpos & Hbound & Huniq). unfold alerted.
  destruct (bool_decide (Postomat.security_level (station w) = SecurityLevel.HIGH))
    eqn:Hhigh; simpl.
  - apply bool_decide_eq_true in Hhigh.
    destruct (bool_decide (alert_type ∈ _)) eqn:Htype; unfold watch; simpl.
    + apply bool_decide_eq_true in Htype.
      split; [done|]. split.
      { intros _. eexists. split; [apply elem_of_app; right; apply list_elem_of_here|done]. }
      split; [done|]. split; [|done].
      intros _ u n Hu. pose proof (Hbound Hhigh u n Hu).
      destruct (Postomat.is_operational (station w)); lia.
    + split; [done|]. split; [|done].
      intros (a & Ha & Hty)%Hcause. exists a. split; [|done].
      apply elem_of_app. by left.
  - unfold watch; simpl. split; [done|]. split; [|done].
    intros (a & Ha & Hty)%Hcause. exists a. split; [|done].
    apply elem_of_app. by left.
Qed.

Lemma watch_gate user_id operation w :
  watch w → watch (_check_security clock user_id operation w).2.
Proof.
  intros Hwatch. pose proof Hwatch as (Hlevel & Hcause & Hpos & Hbound & Huniq).
  rewrite check_security_eq.
  destruct (Postomat.is_operational (station w)) eqn:Hop; simpl; [|exact Hwatch].
  assert (1 ≤ default 0 (Postomat.user_operations (station w) !! user_id) + 1) as Hone.
  { destruct (Postomat.user_operations (station w) !! user_id) as [n|] eqn:Hu; simpl;
      [pose proof (Hpos _ _ Hu)|]; lia. }
  destruct (_ >? 50) eqn:Hover.
  - destruct (bool_decide (Postomat.security_level (station w) = SecurityLevel.HIGH))
      eqn:Hhigh; unfold watch; simpl.
    + apply bool_decide_eq_true in Hhigh. pose proof (Hbound Hhigh) as Hfifty.
      try rewrite Hop in Hfifty. simpl in Hfifty.
      assert (default 0 (Postomat.user_operations (station w) !! user_id) + 1 ≤ 51) as Hnew.
      { destruct (Postomat.user_operations (station w) !! user_id) as [n|] eqn:Hu; simpl;
          [pose proof (Hfifty _ _ Hu)|]; lia. }
      split; [done|]. split.
      { intros _. eexists. split; [apply elem_of_app; right; apply list_elem_of_here|].
        simpl. apply list_elem_of_further, list_elem_of_here. }
      split.
      { intros u n. destruct (decide (u = user_id)) as [->|Hne].
        - rewrite lookup_insert_eq. intros [= <-]. done.
        - rewrite lookup_insert_ne by done. apply Hpos. }
      split.
      { intros _ u n. destruct (decide (u = user_id)) as [->|Hne].
        - rewrite lookup_insert_eq. intros [= <-]. done.
        - rewrite lookup_insert_ne by done. intros Hu. pose proof (Hfifty _ _ Hu). lia. }
      intros _ u u'. destruct (decide (u = user_id)) as [->|Hne];
        destruct (decide (u' = user_id)) as [->|Hne']; [done| | |].
      * rewrite (lookup_insert_ne _ _ u') by done.
        intros _ Hu. pose proof (Hfifty _ _ Hu). lia.
      * rewrite (lookup_insert_ne _ _ u) by done.
        intros Hu. pose proof (Hfifty _ _ Hu). lia.
      * rewrite (lookup_insert_ne _ _ u) by done.
        intros Hu. pose proof (Hfifty _ _ Hu). lia.
    + apply bool_decide_eq_false in Hhigh. rewrite Hop.
      split; [done|]. split; [done|]. split; [|split; intros ?; contradiction].
      intros u n. destruct (decide (u = user_id)) as [->|Hne].
      * rewrite lookup_insert_eq. intros [= <-]. done.
      * rewrite lookup_insert_ne by done. apply Hpos.
  - unfold watch; simpl. rewrite Hop. split; [done|]. split; [done|].
    split.
    { intros u n. destruct (decide (u = user_id)) as [->|Hne].
      - rewrite lookup_insert_eq. intros [= <-]. done.
      - rewrite lookup_insert_ne by done. apply Hpos. }
    split.
    { intros Hhigh u n. pose proof (Hbound Hhigh) as Hfifty. try rewrite Hop in Hfifty. simpl in Hfifty.
      destruct (decide (u = user_id)) as [->|Hne].
      - rewrite lookup_insert_eq. intros [= <-]. lia.
      - rewrite lookup_insert_ne by done. apply Hfifty. }
    intros Hhigh u u'. pose proof (Hbound Hhigh) as Hfifty. try rewrite Hop in Hfifty. simpl in Hfifty.
    destruct (decide (u = user_id)) as [->|Hne].
    + rewrite lookup_insert_eq. intros [= Heq]. lia.
    + rewrite lookup_insert_ne by done. intros Hu. pose proof (Hfifty _ _ Hu). lia.
Qed.

Lemma effect_watch w w' : effect clock w w' → watch w → watch w'.
Proof.
  intros Heff Hwatch. destruct Heff; try exact Hwatch.
  - by apply watch_gate.
  - by apply watch_alerted.
  - destruct H0 as (ls & log & Hst). unfold watch. rewrite Hst. exact Hwatch.
  - unfold watch. simpl. repeat split; done.
Qed.

Lemma effects_watch w w' : effects clock w w' → watch w → watch w'.
Proof. induction 1 as [|w1 w2 w3 Hstep _ IH]; [done|]. intros ?. by eapply IH, effect_watch. Qed.

Lemma reachable_watch w : reachable clock rng md5_hexdigest w → watch w.
Proof.
  induction 1 as [id address n level bank s Hinit Hlen|c w Hreach IH Hwf].
  - unfold Postomat_init in Hinit.
    destruct (_ || _); [done|]. destruct (_ <=? _); [done|].
    injection Hinit as <-. unfold watch. simpl. repeat split; done.
  - eapply effects_watch; [|exact IH].
    apply (exec_effects clock rng md5_hexdigest c w Hwf).
    apply Books_Inv. by eapply reachable_Books.
Qed.

(** X20. In every reachable world: a station whose security level is not
    HIGH is never locked; a locked station has an [unauthorized_access] or
    [suspicious_activity] alert in its log; every user counter is at least
    1; and under HIGH every counter is at most 51, at most 50 while the
    station is operational, and at most one user stands at 51. *)
Theorem security_counters_of_reachable w :
  reachable clock rng md5_hexdigest w →
  let s := station w in
  (Postomat.security_level s ≠ SecurityLevel.HIGH → Postomat.is_operational s = true) ∧
  (Postomat.is_operational s = false →
     ∃ a, a ∈ Postomat.security_alerts s ∧
          Alert.type a ∈ ["unauthorized_access"; "suspicious_activity"]) ∧
  (∀ u n, Postomat.user_operations s !! u = Some n →
     1 ≤ n ∧
     (Postomat.security_level s = SecurityLevel.HIGH →
        n ≤ 51 ∧ (Postomat.is_operational s = true → n ≤ 50))) ∧
  (Postomat.security_level s = SecurityLevel.HIGH →
     ∀ u u', Postomat.user_operations s !! u = Some 51 →
             Postomat.user_operations s !! u' = Some 51 → u = u').
Proof.
  intros (Hlevel & Hcause & Hpos & Hbound & Huniq)%reachable_watch. cbv zeta.
  split; [done|]. split; [done|]. split; [|done].
  intros u n Hu. split; [by eapply Hpos|].
  intros Hhigh. pose proof (Hbound Hhigh u n Hu) as Hn.
  split; [destruct (Postomat.is_operational (station w)); lia|].
  intros Hop. rewrite Hop in Hn. done.
Qed.

End Watch.

(** On the sample station locked under HIGH by a claim of the wrong
    person: the log holds the alert and the one counter stands at 2. *)
Lemma security_counters_of_reachable_witness :
  (∃ a, a ∈ Postomat.security_alerts (station Sample.w_locked) ∧
        Alert.type a ∈ ["unauthorized_access"; "suspicious_activity"]) ∧
  1 ≤ 2 ≤ 51.
Proof.
  assert (reachable Sample.day_clock Sample.rng_zero Sample.md5_stub Sample.w_locked)
    as Hreach.
  { apply reachable_call; [apply sample_w_sent_reachable|done]. }
  destruct (security_counters_of_reachable Sample.day_clock Sample.rng_zero
              Sample.md5_stub Sample.w_locked Hreach) as (_ & Hcause & Hcount & _).
  split; [apply Hcause; reflexivity|].
  destruct (Hcount "u" 2) as [Hone Hhigh]; [vm_compute; reflexivity|].
  destruct (Hhigh eq_refl) as [Hmax _]. split; [exact Hone|exact Hmax].
Defined.


(* ===================================================================== *)
(** * A parcel is reported expired once                                    *)
(* ===================================================================== *)

Section Reports.
Context (clock : nat → Time) (rng : nat → N) (md5_hexdigest : string → string).

(** The parcels a sweep returns were IN_POSTOMAT and are EXPIRED after it. *)
Lemma sweep_run w :
  reachable clock rng md5_hexdigest w →
  ∃ out w',
    check_expired_parcels clock md5_hexdigest w = (Return out, w') ∧
    ∀ r, r ∈ out → ∃ p,
      heap w !! r = Some p ∧ Parcel.status p = IN_POSTOMAT ∧
      heap w' !! r = Some (Parcel.set_status EXPIRED p).
Proof.
  intros Hreach.
  pose proof (reachable_Books _ _ _ _ Hreach) as Hbooks.
  pose proof Hbooks as [Hok Hact Hkeys _].
  destruct (expiry_loop_run clock md5_hexdigest (Postomat.parcels (station w)) [] w)
    as (out & w' & Hrun & _ & _ & _ & _ & _ & _ & _ & Hmarked & _).
  { by eapply ledger_refs. }
  { intros r ([t r'] & -> & Hin)%list_elem_of_fmap. simpl.
    apply (dict_get_of_elem _ _ _ Hkeys) in Hin.
    destruct (ok_index _ _ _ Hok _ _ Hin) as (p & _ & _ & Hp & _). by eexists. }
  exists out, w'. split; [exact Hrun|].
  intros r Hr. destruct (Hmarked r Hr) as (p & d & k & Hp & Hst & _ & _ & _ & Hp').
  by exists p.
Qed.

(** X21. A parcel that one sweep of [check_expired_parcels] returned is
    returned by no later sweep, whatever well-formed calls were made in
    between. *)
Theorem parcel_reported_expired_once w w' r expired expired' :
  reachable clock rng md5_hexdigest w →
  (check_expired_parcels clock md5_hexdigest w).1 = Return expired →
  r ∈ expired →
  later clock rng md5_hexdigest (check_expired_parcels clock md5_hexdigest w).2 w' →
  (check_expired_parcels clock md5_hexdigest w').1 = Return expired' →
  r ∉ expired'.
Proof.
  intros Hreach Hres Hr Hlater Hres' Hr'.
  assert (reachable clock rng md5_hexdigest (check_expired_parcels clock md5_hexdigest w).2)
    as Hreach1 by (by apply (reachable_call _ _ _ CallCheckExpired)).
  destruct (sweep_run w Hreach) as (out & w1 & Hrun & Hmarked).
  rewrite Hrun in Hres, Hlater, Hreach1. simpl in *. injection Hres as ->.
  destruct (Hmarked r Hr) as (p & _ & _ & Hp1).
  destruct (later_evolves _ _ _ _ _ Hlater Hreach1 _ _ Hp1) as (p' & Hp' & _ & _ & Hkept & _).
  rewrite (Hkept eq_refl) in Hp'.
  destruct (sweep_run w' (later_reachable _ _ _ _ _ Hlater Hreach1))
    as (out' & w2 & Hrun' & Hmarked').
  rewrite Hrun' in Hres'. simpl in Hres'. injection Hres' as ->.
  destruct (Hmarked' r Hr') as (q & Hq & Hst & _).
  rewrite Hp' in Hq. injection Hq as <-. done.
Qed.

End Reports.

(** The sweep of day 10 on the sample returns the parcel; the sweep after
    it returns nothing. *)
Lemma parcel_reported_expired_once_witness :
  (check_expired_parcels Sample.two_day_clock Sample.md5_stub Sample.w_sent_fast).1 =
    Return [0%nat] ∧
  (check_expired_parcels Sample.two_day_clock Sample.md5_stub Sample.w_swept).1 =
    Return [] ∧
  0%nat ∉ @nil ref.
Proof.
  split; [vm_compute; reflexivity|]. split; [vm_compute; reflexivity|].
  apply (parcel_reported_expired_once Sample.two_day_clock Sample.rng_zero Sample.md5_stub
           Sample.w_sent_fast Sample.w_swept 0%nat [0%nat] []).
  - apply sample_w_sent_fast_reachable.
  - vm_compute. reflexivity.
  - apply list_elem_of_here.
  - apply rtc_refl.
  - vm_compute. reflexivity.
Defined.
